(** * trimark: the donation-screenshot ingestion function (master.go)

    A shallow embedding of [master.go]: the text extractor ([extractData] and
    its patterns), the row identity and append step ([appendDataToSheet] with
    MD5 and hex encoding), the image cropper ([cropImage]) and the per-file
    unit of work of [Main] over an in-memory document store and spreadsheet.

    Go strings are byte sequences; they are modelled as [list ascii].  The
    patterns of the source only name ASCII bytes next to their repetitions,
    so matching byte by byte and matching rune by rune select the same
    captures. *)

From Stdlib Require Import Ascii String DecimalString.
From Stdlib Require Import ZArith NArith Bool Arith Lia List.
Import ListNotations.

Open Scope list_scope.

(* ================================================================== *)
(** * Part I: definitions *)
(* ================================================================== *)

(** ** Byte strings *)

Definition bytes := list ascii.

Definition B (s : string) : bytes := list_ascii_of_string s.

Definition CR : ascii := "013"%char.
Definition LF : ascii := "010"%char.
Definition CRLF : bytes := [CR; LF].

Definition isEmpty (a : bytes) : bool :=
  match a with [] => true | _ :: _ => false end.

Fixpoint bytes_eqb (a b : bytes) : bool :=
  match a, b with
  | [], [] => true
  | x :: a', y :: b' => Ascii.eqb x y && bytes_eqb a' b'
  | _, _ => false
  end.

(** [strconv.Itoa] on a natural number. *)
Definition Itoa (n : nat) : bytes :=
  B (NilEmpty.string_of_uint (Nat.to_uint n)).

(** ** The fragment of Go's [regexp] package the source uses *)

Module regexp.

(** A character class: the byte ranges it accepts, both ends included. *)
Definition CharClass := list (ascii * ascii).

Definition between (lo hi c : ascii) : bool :=
  (N_of_ascii lo <=? N_of_ascii c)%N && (N_of_ascii c <=? N_of_ascii hi)%N.

Definition inClass (cl : CharClass) (c : ascii) : bool :=
  existsb (fun r => between (fst r) (snd r) c) cl.

Inductive Regexp : Type :=
| Empty
| Class (cl : CharClass)
| EndText
| Star (greedy : bool) (cl : CharClass)
| Capture (index : nat) (r : Regexp)
| Concat (r1 r2 : Regexp).

(** *** Parsing a pattern *)

Record Flags : Type := mkFlags {
  foldCase : bool;   (* i *)
  multiLine : bool;  (* m *)
  dotNL : bool       (* s *)
}.

Definition noFlags : Flags := mkFlags false false false.

Definition single (c : ascii) : CharClass := [(c, c)].

(** The Perl class of the ASCII digits. *)
Definition perlDigit : CharClass := [("0"%char, "9"%char)].

(** The dot without the [s] flag: every byte but the line feed. *)
Definition anyCharNotNL : CharClass :=
  [("000"%char, "009"%char); ("011"%char, "255"%char)].

Definition anyChar : CharClass := [("000"%char, "255"%char)].

Definition isUpperLetter (c : ascii) : bool := between "A" "Z" c.
Definition isLowerLetter (c : ascii) : bool := between "a" "z" c.
Definition isLetter (c : ascii) : bool := isUpperLetter c || isLowerLetter c.
Definition isDecimal (c : ascii) : bool := between "0" "9" c.

Definition toLower (c : ascii) : ascii :=
  if isUpperLetter c then ascii_of_N (N_of_ascii c + 32) else c.

Definition toUpper (c : ascii) : ascii :=
  if isLowerLetter c then ascii_of_N (N_of_ascii c - 32) else c.

(** The two ASCII letters whose case fold leaves ASCII (to the Kelvin sign
    and to the long s); a folded literal with one of them is outside the
    fragment. *)
Definition foldsOutsideASCII (c : ascii) : bool :=
  Ascii.eqb (toLower c) "k" || Ascii.eqb (toLower c) "s".

(** One literal byte, under the flags in force. *)
Definition literalClass (fl : Flags) (c : ascii) : option CharClass :=
  if foldCase fl && isLetter c then
    if foldsOutsideASCII c then None
    else Some [(toUpper c, toUpper c); (toLower c, toLower c)]
  else Some (single c).

(** What a backslash followed by [c] stands for. *)
Definition escapeClass (c : ascii) : option CharClass :=
  if Ascii.eqb c "d" then Some perlDigit
  else if Ascii.eqb c "r" then Some (single "013"%char)
  else if Ascii.eqb c "n" then Some (single "010"%char)
  else if isLetter c || isDecimal c then None
  else Some (single c).

(** The inside of a bracket expression, after the opening bracket: single
    bytes, escaped punctuation and [lo-hi] ranges up to the closing bracket.
    Negation is outside the fragment, and so are letters under the [i]
    flag. *)
Fixpoint parseBracket (fl : Flags) (s : bytes) (acc : CharClass)
    : option (CharClass * bytes) :=
  match s with
  | [] => None
  | c :: t =>
      if Ascii.eqb c "]" then
        match acc with [] => None | _ :: _ => Some (rev acc, t) end
      else if Ascii.eqb c "\" then
        match t with
        | e :: t' =>
            if isLetter e || isDecimal e then None
            else parseBracket fl t' ((e, e) :: acc)
        | [] => None
        end
      else if Ascii.eqb c "^" && match acc with [] => true | _ => false end
      then None
      else if foldCase fl && isLetter c then None
      else
        match t with
        | d :: hi :: t' =>
            if Ascii.eqb d "-" && negb (Ascii.eqb hi "]") then
              if Ascii.eqb hi "\" || (foldCase fl && isLetter hi) then None
              else parseBracket fl t' ((c, hi) :: acc)
            else parseBracket fl t ((c, c) :: acc)
        | _ => parseBracket fl t ((c, c) :: acc)
        end
  end.

(** The flags of a group that only sets flags, up to its closing
    parenthesis. *)
Fixpoint parseFlags (fl : Flags) (s : bytes) : option (Flags * bytes) :=
  match s with
  | [] => None
  | c :: t =>
      if Ascii.eqb c ")" then Some (fl, t)
      else if Ascii.eqb c "i" then
        parseFlags (mkFlags true (multiLine fl) (dotNL fl)) t
      else if Ascii.eqb c "m" then
        parseFlags (mkFlags (foldCase fl) true (dotNL fl)) t
      else if Ascii.eqb c "s" then
        parseFlags (mkFlags (foldCase fl) (multiLine fl) true) t
      else None
  end.

(** Skips a group name up to and including its closing angle bracket. *)
Fixpoint skipName (s : bytes) : option bytes :=
  match s with
  | [] => None
  | c :: t => if Ascii.eqb c ">" then Some t else skipName t
  end.

(** A repetition count, after the opening brace. *)
Fixpoint parseCount (s : bytes) (acc : nat) : option (nat * bytes) :=
  match s with
  | [] => None
  | c :: t =>
      if Ascii.eqb c "}" then Some (acc, t)
      else if isDecimal c then
        parseCount t (10 * acc + (N.to_nat (N_of_ascii c) - 48))
      else None
  end.

Fixpoint times (n : nat) (r : Regexp) : Regexp :=
  match n with
  | O => Empty
  | S n' => Concat r (times n' r)
  end.

(** The operator that may follow a one-byte atom. *)
Definition parseRepeat (cl : CharClass) (s : bytes)
    : option (Regexp * bytes) :=
  match s with
  | c :: t =>
      if Ascii.eqb c "*" then
        match t with
        | q :: t' =>
            if Ascii.eqb q "?" then Some (Star false cl, t')
            else Some (Star true cl, t)
        | [] => Some (Star true cl, t)
        end
      else if Ascii.eqb c "{" then
        match parseCount t 0 with
        | Some (n, t') => Some (times n (Class cl), t')
        | None => None
        end
      else if Ascii.eqb c "+" || Ascii.eqb c "?" then None
      else Some (Class cl, s)
  | [] => Some (Class cl, s)
  end.

Definition startsRepeat (s : bytes) : bool :=
  match s with
  | c :: _ =>
      Ascii.eqb c "*" || Ascii.eqb c "+" || Ascii.eqb c "?" || Ascii.eqb c "{"
  | [] => false
  end.

(** A concatenation, up to an unmatched closing parenthesis or the end of
    the pattern.  [ncap] counts the capturing groups opened so far: groups
    are numbered by their opening parenthesis, named or not.  Alternation,
    the other repetition operators, repeated groups, and [$] under the [m]
    flag do not occur in the source and are refused. *)
Fixpoint parse (fuel : nat) (fl : Flags) (ncap : nat) (s : bytes)
    : option (Regexp * nat * bytes) :=
  match fuel with
  | O => None
  | S fuel' =>
      let continue (atom : Regexp) (n : nat) (rest : bytes) :=
        match parse fuel' fl n rest with
        | Some (r, n', rest') => Some (Concat atom r, n', rest')
        | None => None
        end in
      let group (body : bytes) :=
        match parse fuel' fl (S ncap) body with
        | Some (r, n, close :: rest) =>
            if Ascii.eqb close ")" && negb (startsRepeat rest)
            then continue (Capture (S ncap) r) n rest
            else None
        | _ => None
        end in
      let oneByte (cl : option (CharClass * bytes)) :=
        match cl with
        | Some (cl, rest) =>
            match parseRepeat cl rest with
            | Some (atom, rest') => continue atom ncap rest'
            | None => None
            end
        | None => None
        end in
      match s with
      | [] => Some (Empty, ncap, [])
      | c :: t =>
          if Ascii.eqb c ")" then Some (Empty, ncap, s)
          else if Ascii.eqb c "(" then
            match t with
            | q :: p :: a :: t' =>
                if Ascii.eqb q "?" && Ascii.eqb p "P" && Ascii.eqb a "<" then
                  match skipName t' with
                  | Some body => group body
                  | None => None
                  end
                else if Ascii.eqb q "?" then
                  match parseFlags fl (p :: a :: t') with
                  | Some (fl', rest) => parse fuel' fl' ncap rest
                  | None => None
                  end
                else group t
            | _ => group t
            end
          else if Ascii.eqb c "$" then
            if multiLine fl || startsRepeat t then None
            else continue EndText ncap t
          else if Ascii.eqb c "[" then oneByte (parseBracket fl t [])
          else if Ascii.eqb c "." then
            oneByte (Some (if dotNL fl then anyChar else anyCharNotNL, t))
          else if Ascii.eqb c "\" then
            match t with
            | e :: t' =>
                oneByte (option_map (fun cl => (cl, t')) (escapeClass e))
            | [] => None
            end
          else if Ascii.eqb c "*" || Ascii.eqb c "+" || Ascii.eqb c "?"
                  || Ascii.eqb c "{" || Ascii.eqb c "|" || Ascii.eqb c "^"
          then None
          else oneByte (option_map (fun cl => (cl, t)) (literalClass fl c))
      end
  end.

(** [regexp.Compile], on the fragment. *)
Definition Compile (expr : string) : option Regexp :=
  match parse (S (length (B expr))) noFlags 0 (B expr) with
  | Some (r, _, []) => Some r
  | _ => None
  end.

(** The pattern nothing matches: what [MustCompile] stands for where Go
    would panic.  Every pattern of the source compiles. *)
Definition noMatch : Regexp := Class [].

(** [regexp.MustCompile] *)
Definition MustCompile (expr : string) : Regexp :=
  match Compile expr with
  | Some r => r
  | None => noMatch
  end.

(** *** Matching *)

(** Submatches recorded so far, the latest first. *)
Definition Caps := list (nat * bytes).

Definition Cont := bytes -> Caps -> option (bytes * Caps).

(** A greedy star: as many bytes of the class as possible first, then one
    fewer, and so on. *)
Fixpoint starGreedy (cl : CharClass) (s : bytes)
    (k : bytes -> option (bytes * Caps)) : option (bytes * Caps) :=
  match s with
  | c :: s' =>
      if inClass cl c then
        match starGreedy cl s' k with
        | Some m => Some m
        | None => k s
        end
      else k s
  | [] => k s
  end.

(** A lazy star: as few bytes of the class as possible first, then one
    more, and so on. *)
Fixpoint starLazy (cl : CharClass) (s : bytes)
    (k : bytes -> option (bytes * Caps)) : option (bytes * Caps) :=
  match k s with
  | Some m => Some m
  | None =>
      match s with
      | c :: s' => if inClass cl c then starLazy cl s' k else None
      | [] => None
      end
  end.

(** The match a backtracking search finds first from the front of [s]:
    the leftmost-first semantics of Go's [regexp] package.  [k] is the rest
    of the pattern. *)
Fixpoint backtrack (r : Regexp) (s : bytes) (cs : Caps) (k : Cont)
    : option (bytes * Caps) :=
  match r with
  | Empty => k s cs
  | Class cl =>
      match s with
      | c :: s' => if inClass cl c then k s' cs else None
      | [] => None
      end
  | EndText =>
      match s with
      | [] => k s cs
      | _ :: _ => None
      end
  | Star true cl => starGreedy cl s (fun s' => k s' cs)
  | Star false cl => starLazy cl s (fun s' => k s' cs)
  | Capture i r' =>
      backtrack r' s cs
        (fun s' cs' => k s' ((i, firstn (length s - length s') s) :: cs'))
  | Concat r1 r2 =>
      backtrack r1 s cs (fun s' cs' => backtrack r2 s' cs' k)
  end.

Definition accept : Cont := fun s cs => Some (s, cs).

Fixpoint NumSubexp (r : Regexp) : nat :=
  match r with
  | Capture i r' => Nat.max i (NumSubexp r')
  | Concat r1 r2 => Nat.max (NumSubexp r1) (NumSubexp r2)
  | _ => 0
  end.

(** The text of group [i]; empty when the group took no part. *)
Fixpoint group (i : nat) (cs : Caps) : bytes :=
  match cs with
  | [] => []
  | (j, w) :: cs' => if Nat.eqb i j then w else group i cs'
  end.

(** The slice Go returns for a match that starts at [s] and ends at [s']:
    the whole match, then every group. *)
Definition submatches (r : Regexp) (s s' : bytes) (cs : Caps) : list bytes :=
  firstn (length s - length s') s
    :: map (fun i => group i cs) (seq 1 (NumSubexp r)).

(** [Regexp.FindStringSubmatch]: the leftmost match, [nil] when there is
    none. *)
Fixpoint FindStringSubmatch (r : Regexp) (s : bytes) : list bytes :=
  match backtrack r s [] accept with
  | Some (s', cs) => submatches r s s' cs
  | None =>
      match s with
      | [] => []
      | _ :: t => FindStringSubmatch r t
      end
  end.

End regexp.

Import regexp.

(** ** The patterns of the source, as the strings it declares *)

Definition dateRegex : string := "(\d{4}-\d{2}-\d{2} \d{2}:\d{2}:\d{2})".
Definition usernameRegex : string :=
  "Member Donation.*[([](?P<Member>.*)[)\]]".
Definition quantityZeroRegex : string :=
  "(?ims)Member Donation\r\n(?P<quantity>[0-9,]*)".
Definition quantityFirstRegex : string :=
  "(?ims)Type\r\n(?P<quantity>[0-9,]*)".
Definition quantitySecondRegex : string :=
  "(?ims)Quantity\r\n(?P<quantity>[0-9,]*)".
Definition rowRegex : string := ".*:[A-Z](\d.*?)$".

(** ** Errors *)

Inductive error : Type :=
| errors_New (msg : string)
| apiError (msg : string).

Definition DateNotFound : error := errors_New "Date Not Found".
Definition UsernameNotFound : error := errors_New "Username Not Found".
Definition QuantityNotFound : error := errors_New "Quantity Not Found".
Definition RowParseError : error :=
  errors_New "Unable to parse row which was imported".

(** ** extractData *)

(** What [ioutil.ReadAll] gets out of the body of the exported document. *)
Inductive ReadCloser : Type :=
| Body (content : bytes)
| BrokenBody (e : error).

(** Go's four results [(date, username, quantity, err)]; [err = None] is
    Go's [nil]. *)
Record Extracted : Type := mkExtracted {
  date : bytes;
  username : bytes;
  quantity : bytes;
  err : option error
}.

Definition failure (e : error) : Extracted := mkExtracted [] [] [] (Some e).

(** The test the source repeats for each quantity pattern: the slice does
    not hold two strings, or it does and the second is empty. *)
Definition noQuantity (quantityResults : list bytes) : bool :=
  negb (length quantityResults =? 2)
  || ((length quantityResults =? 2) && isEmpty (nth 1 quantityResults [])).

Definition extractData (textDoc : ReadCloser) : Extracted :=
  match textDoc with
  | BrokenBody e => failure e
  | Body content =>
      let rDate := MustCompile dateRegex in
      let dateResults := FindStringSubmatch rDate content in
      if negb (length dateResults =? 2) then failure DateNotFound else
      let rUser := MustCompile usernameRegex in
      let usernameResults := FindStringSubmatch rUser content in
      if negb (length usernameResults =? 2) then failure UsernameNotFound else
      let rQuantity := MustCompile quantityZeroRegex in
      let quantityResults := FindStringSubmatch rQuantity content in
      if noQuantity quantityResults then
        let rQuantity := MustCompile quantityFirstRegex in
        let quantityResults := FindStringSubmatch rQuantity content in
        if noQuantity quantityResults then
          let rQuantity := MustCompile quantitySecondRegex in
          let quantityResults := FindStringSubmatch rQuantity content in
          if noQuantity quantityResults then failure QuantityNotFound
          else mkExtracted (nth 1 dateResults []) (nth 1 usernameResults [])
                 (nth 1 quantityResults []) None
        else mkExtracted (nth 1 dateResults []) (nth 1 usernameResults [])
               (nth 1 quantityResults []) None
      else mkExtracted (nth 1 dateResults []) (nth 1 usernameResults [])
             (nth 1 quantityResults []) None
  end.

(** ** crypto/md5 and encoding/hex *)

Module md5.

Open Scope Z_scope.

Definition mask32 (x : Z) : Z := Z.land x 0xffffffff.

Definition not32 (x : Z) : Z := Z.lxor x 0xffffffff.

Definition add32 (x y : Z) : Z := mask32 (x + y).

(** [bits.RotateLeft32] *)
Definition rotl32 (x n : Z) : Z :=
  mask32 (Z.lor (Z.shiftl x n) (Z.shiftr x (32 - n))).

(** The sine table: entry [i] is the integer part of [2^32 * |sin (i+1)|]. *)
Definition K : list Z :=
  [ 0xd76aa478; 0xe8c7b756; 0x242070db; 0xc1bdceee;
    0xf57c0faf; 0x4787c62a; 0xa8304613; 0xfd469501;
    0x698098d8; 0x8b44f7af; 0xffff5bb1; 0x895cd7be;
    0x6b901122; 0xfd987193; 0xa679438e; 0x49b40821;
    0xf61e2562; 0xc040b340; 0x265e5a51; 0xe9b6c7aa;
    0xd62f105d; 0x02441453; 0xd8a1e681; 0xe7d3fbc8;
    0x21e1cde6; 0xc33707d6; 0xf4d50d87; 0x455a14ed;
    0xa9e3e905; 0xfcefa3f8; 0x676f02d9; 0x8d2a4c8a;
    0xfffa3942; 0x8771f681; 0x6d9d6122; 0xfde5380c;
    0xa4beea44; 0x4bdecfa9; 0xf6bb4b60; 0xbebfbc70;
    0x289b7ec6; 0xeaa127fa; 0xd4ef3085; 0x04881d05;
    0xd9d4d039; 0xe6db99e5; 0x1fa27cf8; 0xc4ac5665;
    0xf4292244; 0x432aff97; 0xab9423a7; 0xfc93a039;
    0x655b59c3; 0x8f0ccc92; 0xffeff47d; 0x85845dd1;
    0x6fa87e4f; 0xfe2ce6e0; 0xa3014314; 0x4e0811a1;
    0xf7537e82; 0xbd3af235; 0x2ad7d2bb; 0xeb86d391 ].

(** The rotation of each of the 64 steps. *)
Definition shifts : list Z :=
  [ 7; 12; 17; 22; 7; 12; 17; 22; 7; 12; 17; 22; 7; 12; 17; 22;
    5; 9; 14; 20; 5; 9; 14; 20; 5; 9; 14; 20; 5; 9; 14; 20;
    4; 11; 16; 23; 4; 11; 16; 23; 4; 11; 16; 23; 4; 11; 16; 23;
    6; 10; 15; 21; 6; 10; 15; 21; 6; 10; 15; 21; 6; 10; 15; 21 ].

Record digest : Type := mkDigest { sA : Z; sB : Z; sC : Z; sD : Z }.

Definition init : digest :=
  mkDigest 0x67452301 0xefcdab89 0x98badcfe 0x10325476.

Definition byteZ (c : ascii) : Z := Z.of_N (N_of_ascii c).

Definition zByte (x : Z) : ascii := ascii_of_N (Z.to_N (Z.land x 0xff)).

(** Word [g] of a 64-byte block, little endian. *)
Definition word (block : bytes) (g : nat) : Z :=
  let b i := byteZ (nth (4 * g + i)%nat block zero) in
  Z.lor (b 0%nat)
    (Z.lor (Z.shiftl (b 1%nat) 8)
       (Z.lor (Z.shiftl (b 2%nat) 16) (Z.shiftl (b 3%nat) 24))).

(** Step [i] of the 64 steps on one block. *)
Definition step (block : bytes) (d : digest) (i : nat) : digest :=
  let a := sA d in let b := sB d in let c := sC d in let dd := sD d in
  let '(f, g) :=
    if (i <? 16)%nat then
      (Z.lor (Z.land b c) (Z.land (not32 b) dd), i)
    else if (i <? 32)%nat then
      (Z.lor (Z.land dd b) (Z.land (not32 dd) c), ((5 * i + 1) mod 16)%nat)
    else if (i <? 48)%nat then
      (Z.lxor b (Z.lxor c dd), ((3 * i + 5) mod 16)%nat)
    else
      (Z.lxor c (Z.lor b (not32 dd)), ((7 * i) mod 16)%nat) in
  let f' := add32 (add32 (add32 f a) (nth i K 0)) (word block g) in
  mkDigest dd (add32 b (rotl32 f' (nth i shifts 0))) b c.

(** One 64-byte block folded into the running state. *)
Definition block (d : digest) (blk : bytes) : digest :=
  let d' := fold_left (step blk) (seq 0 64) d in
  mkDigest (add32 (sA d) (sA d')) (add32 (sB d) (sB d'))
           (add32 (sC d) (sC d')) (add32 (sD d) (sD d')).

Fixpoint blocks (n : nat) (d : digest) (msg : bytes) : digest :=
  match n with
  | O => d
  | S n' => blocks n' (block d (firstn 64 msg)) (skipn 64 msg)
  end.

(** [n] as [k] bytes, little endian. *)
Fixpoint putLE (k : nat) (n : Z) : bytes :=
  match k with
  | O => []
  | S k' => zByte n :: putLE k' (Z.shiftr n 8)
  end.

(** The message, a 0x80 byte, zeros up to 56 modulo 64, and the length in
    bits as 8 bytes. *)
Definition pad (msg : bytes) : bytes :=
  let len := length msg in
  let zeros := ((55 + 64 - len mod 64) mod 64)%nat in
  msg ++ [ascii_of_N 128] ++ repeat zero zeros
      ++ putLE 8 (Z.land (8 * Z.of_nat len) 0xffffffffffffffff).

(** [md5.Sum]: the 16 bytes of the digest. *)
Definition Sum (data : bytes) : bytes :=
  let p := pad data in
  let d := blocks (length p / 64) init p in
  putLE 4 (sA d) ++ putLE 4 (sB d) ++ putLE 4 (sC d) ++ putLE 4 (sD d).

End md5.

Module hex.

Definition hextable : bytes := B "0123456789abcdef".

(** [hex.EncodeToString]: two characters of [hextable] per byte, the high
    half first. *)
Fixpoint EncodeToString (src : bytes) : bytes :=
  match src with
  | [] => []
  | v :: t =>
      nth (N.to_nat (N.shiftr (N_of_ascii v) 4)) hextable zero
        :: nth (N.to_nat (N.land (N_of_ascii v) 15)) hextable zero
        :: EncodeToString t
  end.

End hex.

(** ** image, image/png and github.com/oliamb/cutter *)

Module image.

Open Scope Z_scope.

Record Point : Type := mkPoint { X : Z; Y : Z }.

Record Rectangle : Type := mkRectangle { Min : Point; Max : Point }.

(** [image.Rect]: the rectangle of two corners, put in order. *)
Definition Rect (x0 y0 x1 y1 : Z) : Rectangle :=
  mkRectangle (mkPoint (Z.min x0 x1) (Z.min y0 y1))
              (mkPoint (Z.max x0 x1) (Z.max y0 y1)).

Definition ZR : Rectangle := mkRectangle (mkPoint 0 0) (mkPoint 0 0).

Definition Dx (r : Rectangle) : Z := X (Max r) - X (Min r).
Definition Dy (r : Rectangle) : Z := Y (Max r) - Y (Min r).

Definition isEmptyRect (r : Rectangle) : bool :=
  (X (Min r) >=? X (Max r)) || (Y (Min r) >=? Y (Max r)).

(** [Rectangle.Intersect] *)
Definition Intersect (r s : Rectangle) : Rectangle :=
  let r' :=
    mkRectangle
      (mkPoint (if X (Min r) <? X (Min s) then X (Min s) else X (Min r))
               (if Y (Min r) <? Y (Min s) then Y (Min s) else Y (Min r)))
      (mkPoint (if X (Max r) >? X (Max s) then X (Max s) else X (Max r))
               (if Y (Max r) >? Y (Max s) then Y (Max s) else Y (Max r))) in
  if isEmptyRect r' then ZR else r'.

(** [Point.In] *)
Definition In (x y : Z) (r : Rectangle) : bool :=
  (X (Min r) <=? x) && (x <? X (Max r)) && (Y (Min r) <=? y) && (y <? Y (Max r)).

(** A colour, as one number. *)
Definition Color := Z.

(** A decoded raster image: its bounds and its pixel store. *)
Record Image : Type := mkImage { Bounds : Rectangle; Pix : Z -> Z -> Color }.

(** [Image.At]: the zero colour outside the bounds. *)
Definition At (m : Image) (x y : Z) : Color :=
  if In x y (Bounds m) then Pix m x y else 0.

(** [SubImage] of the standard image types: the part of [m] inside [r],
    sharing the pixels; the zero image when nothing is left. *)
Definition SubImage (m : Image) (r : Rectangle) : Image :=
  let r' := Intersect r (Bounds m) in
  if isEmptyRect r' then mkImage ZR (fun _ _ => 0)
  else mkImage r' (Pix m).

(** [image.Config], what [image.DecodeConfig] reads from the header. *)
Record Config : Type := mkConfig { Width : Z; Height : Z }.

Definition DecodeConfig (m : Image) : Config :=
  mkConfig (Dx (Bounds m)) (Dy (Bounds m)).

End image.

Module cutter.

Import image.
Open Scope Z_scope.

(** The fields of [cutter.Config] the source sets.  The others keep their
    zero value: the anchor is the origin, the mode is [TopLeft] and no
    option is set. *)
Record Config : Type := mkConfig { Width : Z; Height : Z }.

(** [cutter.Crop] for such a configuration: the area of the requested size
    from the top-left corner of the bounds, cut to the bounds. *)
Definition Crop (img : Image) (c : Config) : Image :=
  let min := Min (Bounds img) in
  let cr := Rect (X min) (Y min) (X min + Width c) (Y min + Height c) in
  let cr := Intersect (Bounds img) cr in
  SubImage img cr.

End cutter.

Module png.

Import image.
Open Scope Z_scope.

(** The byte stream the encoder writes, represented by what it decodes to:
    the width and height of its header and its pixels, the first at the
    origin.  The codec itself (filtering, compression, checksums) is not
    modelled. *)
Record Stream : Type := mkStream {
  Width : Z;
  Height : Z;
  Pixel : Z -> Z -> Color
}.

(** [png.Encode]: images with an empty or oversized side are refused. *)
Definition Encode (m : Image) : option Stream :=
  let mw := Dx (Bounds m) in
  let mh := Dy (Bounds m) in
  if (mw <=? 0) || (mh <=? 0) || (mw >=? 2 ^ 32) || (mh >=? 2 ^ 32) then None
  else
    Some (mkStream mw mh
            (fun x y => At m (X (Min (Bounds m)) + x) (Y (Min (Bounds m)) + y))).

End png.

(** ** The document store and the spreadsheet *)

Module drive.

(** The fields of [drive.File] the source reads or writes; [Parents] holds
    the ids of the parent references. *)
Record File : Type := mkFile {
  Id : bytes;
  Title : bytes;
  MimeType : bytes;
  Parents : list bytes;
  DefaultOpenWithLink : bytes
}.

(** What the store keeps for a file besides its metadata: an uploaded
    picture (with the image its bytes decode to, if any), or a document
    converted from one (with the text it exports to). *)
Inductive Media : Type :=
| Picture (decoded : option image.Image)
| Document (text : ReadCloser)
| NoMedia.

Record Entry : Type := mkEntry { file : File; media : Media }.

Definition Store := list Entry.

Fixpoint mem (x : bytes) (l : list bytes) : bool :=
  match l with
  | [] => false
  | y :: l' => bytes_eqb x y || mem x l'
  end.

Fixpoint lookup (id : bytes) (st : Store) : option Entry :=
  match st with
  | [] => None
  | e :: st' => if bytes_eqb id (Id (file e)) then Some e else lookup id st'
  end.

Fixpoint replace (id : bytes) (e' : Entry) (st : Store) : Store :=
  match st with
  | [] => []
  | e :: st' =>
      if bytes_eqb id (Id (file e)) then e' :: st'
      else e :: replace id e' st'
  end.

Definition removeParent (from : option bytes) (ps : list bytes)
    : list bytes :=
  match from with
  | Some p => filter (fun q => negb (bytes_eqb p q)) ps
  | None => ps
  end.

Definition addParent (to : option bytes) (ps : list bytes) : list bytes :=
  match to with
  | Some p => if mem p ps then ps else ps ++ [p]
  | None => ps
  end.

End drive.

Module sheets.

(** One row of cell values. *)
Definition Row := list bytes.

(** The part of the append response the source reads. *)
Record AppendValuesResponse : Type := mkResponse { UpdatedRange : bytes }.

End sheets.

(** ** The process: its globals, the state of the collaborators, and a
    monad for the code that calls them *)

(** The package-level variables [init] leaves behind, and what the external
    services decide on their own: the text the store's conversion reads off
    an uploaded picture, the ids and links it hands out, the clock, and the
    spreadsheet's answer to an append. *)
Record Env : Type := mkEnv {
  UploadFolderID : bytes;
  ProcessedFolderID : bytes;
  FailedFolderID : bytes;
  SheetID : bytes;
  convert : png.Stream -> ReadCloser;
  newId : nat -> bytes;
  linkOf : bytes -> bytes;
  timeNow : bytes;
  valuesAppend :
    list sheets.Row -> sheets.Row ->
    list sheets.Row * (sheets.AppendValuesResponse + error)
}.

Record World : Type := mkWorld {
  files : drive.Store;
  rows : list sheets.Row
}.

(** A call either returns, or ends the process through [log.Fatalf]. *)
Inductive Outcome (A : Type) : Type :=
| Return (a : A) (w : World)
| Exit (msg : string) (w : World).

Arguments Return {A} a w.
Arguments Exit {A} msg w.

Definition M (A : Type) : Type := World -> Outcome A.

Definition ret {A : Type} (a : A) : M A := fun w => Return a w.

Definition bind {A C : Type} (m : M A) (k : A -> M C) : M C :=
  fun w =>
    match m w with
    | Return a w' => k a w'
    | Exit msg w' => Exit msg w'
    end.

Definition Fatalf {A : Type} (msg : string) : M A := fun w => Exit msg w.

Declare Scope go_scope.
Delimit Scope go_scope with go.

Notation "x <- m ;; k" := (bind m (fun x => k))
  (at level 61, m at next level, right associativity) : go_scope.
Notation "' p <- m ;; k" := (bind m (fun x => match x with p => k end))
  (at level 61, p pattern, m at next level, right associativity) : go_scope.
Notation "m ;; k" := (bind m (fun _ => k))
  (at level 61, right associativity) : go_scope.

Open Scope go_scope.

Definition isSome {A : Type} (o : option A) : bool :=
  match o with Some _ => true | None => false end.

(** *** Goroutines *)

(** What a goroutine has left to do.  It is done; or its next move is one
    call on a service, or [log.Fatalf], and the rest depends on the answer;
    or its next move is a [go] statement. *)
Inductive Go (A : Type) : Type :=
| Pure (a : A)
| Step (X : Type) (op : M X) (k : X -> Go A)
| Spawn (child : Go unit) (k : Go A).

Arguments Pure {A} a.
Arguments Step {A X} op k.
Arguments Spawn {A} child k.

Fixpoint bindGo {A C : Type} (t : Go A) (f : A -> Go C) : Go C :=
  match t with
  | Pure a => f a
  | Step op k => Step op (fun x => bindGo (k x) f)
  | Spawn child k => Spawn child (bindGo k f)
  end.

(** One call, as a move of its own. *)
Definition call {X : Type} (op : M X) : Go X := Step op (fun x => Pure x).

(** [log.Fatalf], as a move of its own. *)
Definition fatal {A : Type} (msg : string) : Go A :=
  Step (Fatalf (A:=A) msg) (fun x => Pure x).

(** [go child]. *)
Definition go (child : Go unit) : Go unit := Spawn child (Pure tt).

Declare Scope steps_scope.
Delimit Scope steps_scope with steps.

Notation "x <- m ;; k" := (bindGo m (fun x => k))
  (at level 61, m at next level, right associativity) : steps_scope.
Notation "' p <- m ;; k" := (bindGo m (fun x => match x with p => k end))
  (at level 61, p pattern, m at next level, right associativity)
  : steps_scope.
Notation "m ;; k" := (bindGo m (fun _ => k))
  (at level 61, right associativity) : steps_scope.

(** A goroutine run with nothing else running: every goroutine it starts
    runs to its end at the [go] statement that starts it. *)
Fixpoint run {A : Type} (t : Go A) : M A :=
  match t with
  | Pure a => ret a
  | Step op k => bind op (fun x => run (k x))
  | Spawn child k => bind (run child) (fun _ => run k)
  end.

(** The goroutines of the process, in the order they were started. *)
Definition Pool : Type := list (Go unit).

Fixpoint setNth (n : nat) (t : Go unit) (pool : Pool) {struct pool} : Pool :=
  match pool, n with
  | [], _ => []
  | _ :: rest, O => t :: rest
  | t0 :: rest, S n' => t0 :: setNth n' t rest
  end.

(** The goroutine [n] makes its next move: the pool and the state go on,
    or the move was [log.Fatalf] and the process is over, or there is no
    such goroutine or it is done. *)
Inductive Turn : Type :=
| Moved (pool : Pool) (w : World)
| Died (msg : string) (w : World)
| Skipped.

Definition turn (n : nat) (pool : Pool) (w : World) : Turn :=
  match nth_error pool n with
  | None => Skipped
  | Some (Pure _) => Skipped
  | Some (Spawn child k) => Moved (setNth n k pool ++ [child]) w
  | Some (Step op k) =>
      match op w with
      | Return x w' => Moved (setNth n (k x) pool) w'
      | Exit msg w' => Died msg w'
      end
  end.

(** Each goroutine of the pool runs to its end, one after the other. *)
Fixpoint drain (pool : Pool) : M unit :=
  match pool with
  | [] => ret tt
  | t :: rest => run t ;; drain rest
  end.

(** The process under a scheduler that lets the goroutines move in the
    order of [picks] and, when the picks are used up, lets each one run to
    its end.  It returns when every goroutine is done, which is where
    [wg.Wait] lets [Main] return; a [log.Fatalf] in any goroutine ends it at
    once.  Every interleaving of the moves is the run of some [picks]
    (lemma [schedule_covers]). *)
Fixpoint schedule (picks : list nat) (pool : Pool) : M unit :=
  fun w =>
    match picks with
    | [] => drain pool w
    | n :: picks' =>
        match turn n pool w with
        | Moved pool' w' => schedule picks' pool' w'
        | Died msg w' => Exit msg w'
        | Skipped => schedule picks' pool w
        end
    end.

(** *** The calls on the document store *)

Section Calls.

Variable E : Env.

Import drive.

(** [Files.Get(id).Do()] *)
Definition Files_Get (id : bytes) : M (File * option error) :=
  fun w =>
    match lookup id (files w) with
    | Some e => Return (file e, None) w
    | None => Return (mkFile [] [] [] [] [], Some (apiError "File not found")) w
    end.

(** [Files.Get(id).Download()], read to the end and decoded. *)
Definition Files_Download (id : bytes)
    : M (option image.Image * option error) :=
  fun w =>
    match lookup id (files w) with
    | Some (mkEntry _ (Picture decoded)) => Return (decoded, None) w
    | _ => Return (None, Some (apiError "File not found")) w
    end.

(** [Files.Insert(f).Media(img).Do()]: a new document under a fresh id, with
    the title, type and parents of [f]; its text is what the conversion
    reads off the picture. *)
Definition Files_Insert (f : File) (img : png.Stream)
    : M (File * option error) :=
  fun w =>
    let id := newId E (length (files w)) in
    let r := mkFile id (Title f) (MimeType f) (Parents f) (linkOf E id) in
    Return (r, None)
      (mkWorld (files w ++ [mkEntry r (Document (convert E img))]) (rows w)).

(** [Files.Export(id, "text/plain").Download()] *)
Definition Files_Export (id : bytes) : M (ReadCloser * option error) :=
  fun w =>
    match lookup id (files w) with
    | Some (mkEntry _ (Document text)) => Return (text, None) w
    | _ => Return (BrokenBody (apiError "File not found"),
                   Some (apiError "File not found")) w
    end.

(** [Files.Update(id, body)], with its optional [RemoveParents] and
    [AddParents]: the title becomes the body's, the parents change by the
    two parameters only.  An unknown id is an error and changes nothing. *)
Definition Files_Update (id : bytes) (body : File)
    (removeParents addParents : option bytes) : M (File * option error) :=
  fun w =>
    match lookup id (files w) with
    | Some e =>
        let f' :=
          mkFile id (Title body) (MimeType (file e))
            (addParent addParents (removeParent removeParents (Parents (file e))))
            (DefaultOpenWithLink (file e)) in
        Return (f', None)
          (mkWorld (replace id (mkEntry f' (media e)) (files w)) (rows w))
    | None => Return (body, Some (apiError "File not found")) w
    end.

(** [Files.List().Q("'folder' in parents")], every page. *)
Definition Files_List (folderID : bytes) : M (list File * option error) :=
  fun w =>
    Return (map file (filter (fun e => mem folderID (Parents (file e))) (files w)),
            None) w.

(** [Spreadsheets.Values.Append(SheetID, range, values)] with the insert-rows
    and user-entered options. *)
Definition Values_Append (row : sheets.Row)
    : M (sheets.AppendValuesResponse * option error) :=
  fun w =>
    match valuesAppend E (rows w) row with
    | (rows', inl r) => Return (r, None) (mkWorld (files w) rows')
    | (rows', inr e) =>
        Return (sheets.mkResponse [], Some e) (mkWorld (files w) rows')
    end.

(** *** The functions of the source *)

Definition getFilesFromFolder (folderID : bytes) (foldersOnly : bool)
    : M (list File * option error) :=
  '(items, err) <- Files_List folderID ;;
  match err with
  | Some e => ret ([], Some e)
  | None =>
      ret (if foldersOnly
           then filter (fun f => bytes_eqb (MimeType f)
                                   (B "application/vnd.google-apps.folder"))
                  items
           else items, None)
  end.

Definition moveFileToFolder (file : File) (fromFolder toFolder : bytes)
    : M (File * option error) :=
  Files_Update (Id file) file (Some fromFolder) (Some toFolder).

(** [renameFile] writes the title of the struct it is handed before it calls
    the store; the struct as it is afterwards is returned with the error. *)
Definition renameFile (file : File) (newName : bytes)
    : M (File * option error) :=
  let file := mkFile (Id file) newName (MimeType file) (Parents file)
                (DefaultOpenWithLink file) in
  '(_, err) <- Files_Update (Id file) file None None ;;
  ret (file, err).

Definition appendDataToSheet (date name amount link : bytes)
    : M (bytes * bytes * option error) :=
  let cs := md5.Sum (date ++ name ++ amount) in
  let css := hex.EncodeToString cs in
  let now := timeNow E in
  let values := [css; now; date; name; amount; link] in
  '(r, err) <- Values_Append values ;;
  match err with
  | Some e => ret ([], css, Some e)
  | None =>
      let regex := MustCompile rowRegex in
      let regexResults := FindStringSubmatch regex (sheets.UpdatedRange r) in
      if negb (length regexResults =? 2)
      then ret ([], css, Some RowParseError)
      else ret (nth 1 regexResults [], css, None)
  end.

Definition cropImage (file : File) : M (png.Stream * option error) :=
  '(decoded, err) <- Files_Download (Id file) ;;
  match err with
  | Some _ => Fatalf "Download image"
  | None =>
      match decoded with
      | None => Fatalf "image.Decode"
      | Some img =>
          let imageDetails := image.DecodeConfig img in
          let croppedImg :=
            cutter.Crop img
              (cutter.mkConfig (Z.quot (image.Width imageDetails) 2)
                               (image.Height imageDetails)) in
          match png.Encode croppedImg with
          | None => Fatalf "png.Encode"
          | Some buf => ret (buf, None)
          end
      end
  end.

(** The function literal [Main] starts for each file, from the results of
    [extractData] on: [f] is the struct the document was created from, [r]
    the one the store answered with. *)
Definition Main_func1_settle (fileDetails f r : File) (x : Extracted)
    : M unit :=
  let '(mkExtracted date username quantity err) := x in
  (if isSome err then
     '(_, err2) <- moveFileToFolder fileDetails (UploadFolderID E)
                     (FailedFolderID E) ;;
     if isSome err2 then Fatalf "Unable to move file to Failed" else
     '(_, err2) <- moveFileToFolder r (UploadFolderID E) (FailedFolderID E) ;;
     if isSome err2 then Fatalf "Unable to move file to Failed" else ret tt
   else
     '(_, err) <- moveFileToFolder fileDetails (UploadFolderID E)
                    (ProcessedFolderID E) ;;
     if isSome err then Fatalf "Unable to move file to Failed" else ret tt) ;;
  '(rowID, cs, err) <- appendDataToSheet date username quantity
                         (DefaultOpenWithLink r) ;;
  if isEmpty cs && isSome err then Fatalf "Unable to update spreadsheet" else
  if isSome err then Fatalf "Couldn't Get RowID" else
  (* [r] and [f] are pointers: the first call writes [r.Title], and the
     argument of the second is evaluated after it. *)
  '(r, _) <- renameFile r (rowID ++ B "-" ++ Title r ++ B "-" ++ cs) ;;
  '(f, _) <- renameFile f (rowID ++ B "-" ++ Title r ++ B "-" ++ cs) ;;
  ret tt.

(** The function literal [Main] starts for each file, with no other
    goroutine making a move in between. *)
Definition Main_func1 (fileDetails : File) : M unit :=
  let mime := B "application/vnd.google-apps.document" in
  '(img, _) <- cropImage fileDetails ;;
  let f := mkFile [] (Title fileDetails ++ B "_results") mime
             [ProcessedFolderID E] [] in
  '(r, err) <- Files_Insert f img ;;
  if isSome err then Fatalf "Failed to create document" else
  '(textDoc, err) <- Files_Export (Id r) ;;
  if isSome err then Fatalf "Failed to download document" else
  Main_func1_settle fileDetails f r (extractData textDoc).

(** *** The same functions move by move, for the goroutines of [Main]

    [moveFileToFolder], [renameFile] and [appendDataToSheet] make one call
    each and are one move; [cropImage] and the function literal are written
    out with a move for each call and each [log.Fatalf]. *)

Definition cropImage_steps (file : File) : Go (png.Stream * option error) :=
  ('(decoded, err) <- call (Files_Download (Id file)) ;;
   match err with
   | Some _ => fatal "Download image"
   | None =>
       match decoded with
       | None => fatal "image.Decode"
       | Some img =>
           let imageDetails := image.DecodeConfig img in
           let croppedImg :=
             cutter.Crop img
               (cutter.mkConfig (Z.quot (image.Width imageDetails) 2)
                                (image.Height imageDetails)) in
           match png.Encode croppedImg with
           | None => fatal "png.Encode"
           | Some buf => Pure (buf, None)
           end
       end
   end)%steps.

Definition Main_func1_settle_steps (fileDetails f r : File) (x : Extracted)
    : Go unit :=
  let '(mkExtracted date username quantity err) := x in
  ((if isSome err then
      '(_, err2) <- call (moveFileToFolder fileDetails (UploadFolderID E)
                            (FailedFolderID E)) ;;
      if isSome err2 then fatal "Unable to move file to Failed" else
      '(_, err2) <- call (moveFileToFolder r (UploadFolderID E)
                            (FailedFolderID E)) ;;
      if isSome err2 then fatal "Unable to move file to Failed" else Pure tt
    else
      '(_, err) <- call (moveFileToFolder fileDetails (UploadFolderID E)
                           (ProcessedFolderID E)) ;;
      if isSome err then fatal "Unable to move file to Failed" else Pure tt) ;;
   '(rowID, cs, err) <- call (appendDataToSheet date username quantity
                                (DefaultOpenWithLink r)) ;;
   if isEmpty cs && isSome err then fatal "Unable to update spreadsheet" else
   if isSome err then fatal "Couldn't Get RowID" else
   '(r, _) <- call (renameFile r (rowID ++ B "-" ++ Title r ++ B "-" ++ cs)) ;;
   '(f, _) <- call (renameFile f (rowID ++ B "-" ++ Title r ++ B "-" ++ cs)) ;;
   Pure tt)%steps.

Definition Main_func1_steps (fileDetails : File) : Go unit :=
  let mime := B "application/vnd.google-apps.document" in
  ('(img, _) <- cropImage_steps fileDetails ;;
   let f := mkFile [] (Title fileDetails ++ B "_results") mime
              [ProcessedFolderID E] [] in
   '(r, err) <- call (Files_Insert f img) ;;
   if isSome err then fatal "Failed to create document" else
   '(textDoc, err) <- call (Files_Export (Id r)) ;;
   if isSome err then fatal "Failed to download document" else
   Main_func1_settle_steps fileDetails f r (extractData textDoc))%steps.

(** The loop of [Main]: it gets each file and starts a goroutine for it,
    and goes on to the next file without waiting. *)
Fixpoint Main_loop (cs : list File) : Go unit :=
  match cs with
  | [] => Pure tt
  | c :: cs' =>
      ('(fileDetails, err) <- call (Files_Get (Id c)) ;;
       if isSome err then fatal "Failed to get file" else
       go (Main_func1_steps fileDetails) ;;
       Main_loop cs')%steps
  end.

(** The goroutine of [Main].  The listing is done before any other
    goroutine exists and counts as one move. *)
Definition Main_steps : Go unit :=
  ('(cs, err) <- call (getFilesFromFolder (UploadFolderID E) false) ;;
   if isSome err then fatal "Failed to get files from folder" else
   Main_loop cs)%steps.

(** [Main] under the scheduler of [picks]. *)
Definition Main (picks : list nat) : M unit :=
  schedule picks [Main_steps].

End Calls.

(** ** A concrete run: one screenshot in the upload folder *)

Module Sample.

Import drive.

(** The spreadsheet service as the real one answers: the row goes below the
    last one and the reference names its six cells. *)
Definition appendBelow (rows : list sheets.Row) (row : sheets.Row)
    : list sheets.Row * (sheets.AppendValuesResponse + error) :=
  let n := Itoa (S (length rows)) in
  (rows ++ [row],
   inl (sheets.mkResponse (B "Sheet1!A" ++ n ++ B ":F" ++ n))).

(** An environment whose conversion reads [text] off every picture. *)
Definition env (text : bytes) : Env :=
  mkEnv (B "upload") (B "processed") (B "failed") (B "sheet")
    (fun _ => Body text)
    (fun n => B "doc" ++ Itoa n)
    (fun id => B "https://docs.example/" ++ id)
    (B "05-02-2021 09:30:00")
    appendBelow.

Definition headers : sheets.Row :=
  [B "ID"; B "Import Date"; B "Echoes Date"; B "Name"; B "Amount"; B "Link"].

(** A picture of [w] by [h] pixels; the colour of a pixel tells its place. *)
Definition picture (w h : Z) : image.Image :=
  image.mkImage (image.Rect 0 0 w h) (fun x y => (1000 * y + x)%Z).

Definition shot : File :=
  mkFile (B "img1") (B "shot.png") (B "image/png") [B "upload"] [].

Definition world (w h : Z) : World :=
  mkWorld [mkEntry shot (Picture (Some (picture w h)))] [headers].

(** The export of a screenshot of the common layout, lines ended by a
    carriage return and a line feed. *)
Definition goodText : bytes :=
  B "2021-05-01 12:00:00" ++ CRLF
  ++ B "Member Donation - Screenshot (Jane Doe)" ++ CRLF
  ++ B "Type" ++ CRLF ++ B "1,234" ++ CRLF.

(** The same lines, each ended by a line feed alone. *)
Definition lfText : bytes :=
  B "2021-05-01 12:00:00" ++ [LF]
  ++ B "Member Donation - Screenshot (Jane Doe)" ++ [LF]
  ++ B "Type" ++ [LF] ++ B "1,234" ++ [LF].

(** An export with no date in it. *)
Definition noDateText : bytes :=
  B "Member Donation - Screenshot (Jane Doe)" ++ CRLF
  ++ B "Type" ++ CRLF ++ B "1,234" ++ CRLF.

(** The struct the unit of work creates the document from, the struct the
    store answers with, and the state once the document is created. *)
Definition template : File :=
  mkFile [] (B "shot.png_results") (B "application/vnd.google-apps.document")
    [B "processed"] [].

Definition created : File :=
  mkFile (B "doc1") (B "shot.png_results")
    (B "application/vnd.google-apps.document") [B "processed"]
    (B "https://docs.example/doc1").

Definition world_created (text : bytes) : World :=
  mkWorld [mkEntry shot (Picture (Some (picture 4 2)));
           mkEntry created (Document (Body text))]
          [headers].

(** A lowercase label on the member line. *)
Definition lowercaseText : bytes :=
  B "2021-05-01 12:00:00" ++ CRLF
  ++ B "member donation (Jane)" ++ CRLF
  ++ B "Type" ++ CRLF ++ B "1,234" ++ CRLF.

(** The label as the pattern writes it. *)
Definition janeText : bytes :=
  B "2021-05-01 12:00:00" ++ CRLF
  ++ B "Member Donation (Jane)" ++ CRLF
  ++ B "Type" ++ CRLF ++ B "1,234" ++ CRLF.

(** All three quantity layouts in one export. *)
Definition allLayoutsText : bytes :=
  B "2021-05-01 12:00:00" ++ CRLF
  ++ B "Member Donation - Screenshot (Jane Doe)" ++ CRLF
  ++ B "Member Donation" ++ CRLF ++ B "7" ++ CRLF
  ++ B "Type" ++ CRLF ++ B "8" ++ CRLF
  ++ B "Quantity" ++ CRLF ++ B "9" ++ CRLF.

(** A spreadsheet service that writes the row and answers with the
    reference [ref], whatever it is. *)
Definition env_answering (ref : bytes) : Env :=
  mkEnv (B "upload") (B "processed") (B "failed") (B "sheet")
    (fun _ => Body goodText)
    (fun n => B "doc" ++ Itoa n)
    (fun id => B "https://docs.example/" ++ id)
    (B "05-02-2021 09:30:00")
    (fun rows row => (rows ++ [row], inl (sheets.mkResponse ref))).

End Sample.

(** ** Notions the statements below are written in *)

(** *** What the five patterns compile to *)

Definition seqOf (rs : list Regexp) : Regexp := fold_right Concat Empty rs.

Definition lit (s : string) : list Regexp :=
  map (fun c => Class (single c)) (B s).

(** The class of a literal byte under the [i] flag. *)
Definition foldClassOf (c : ascii) : CharClass :=
  if isLetter c then [(toUpper c, toUpper c); (toLower c, toLower c)]
  else single c.

Definition litFold (s : string) : list Regexp :=
  map (fun c => Class (foldClassOf c)) (B s).

Definition digits (n : nat) : Regexp := times n (Class perlDigit).

Definition dateProg : Regexp :=
  seqOf [Capture 1
           (seqOf [digits 4; Class (single "-"); digits 2; Class (single "-");
                   digits 2; Class (single " "); digits 2; Class (single ":");
                   digits 2; Class (single ":"); digits 2])].

Definition openers : CharClass := [("("%char, "("%char); ("["%char, "["%char)].
Definition closers : CharClass := [(")"%char, ")"%char); ("]"%char, "]"%char)].

Definition usernameProg : Regexp :=
  seqOf (lit "Member Donation"
         ++ [Star true anyCharNotNL; Class openers;
             Capture 1 (seqOf [Star true anyCharNotNL]); Class closers]).

Definition quantityChars : CharClass :=
  [("0"%char, "9"%char); (","%char, ","%char)].

Definition quantityProg (label : string) : Regexp :=
  seqOf (litFold label
         ++ [Class (single CR); Class (single LF);
             Capture 1 (seqOf [Star true quantityChars])]).

Definition upperLetters : CharClass := [("A"%char, "Z"%char)].

(** The row pattern after its leading star. *)
Definition rowCellProg : Regexp :=
  seqOf [Class (single ":"); Class upperLetters;
         Capture 1 (seqOf [Class perlDigit; Star false anyCharNotNL]);
         EndText].

Definition rowProg : Regexp := Concat (Star true anyCharNotNL) rowCellProg.

(** *** The matches of a pattern, without the search order *)

(** [Matches r w rest cs]: at the front of [w ++ rest] the pattern [r] can
    match exactly [w], recording the submatches [cs], the latest first. *)
Inductive Matches : Regexp -> bytes -> bytes -> Caps -> Prop :=
| MEmpty rest : Matches Empty [] rest []
| MClass cl c rest :
    inClass cl c = true -> Matches (Class cl) [c] rest []
| MEndText : Matches EndText [] [] []
| MStar g cl w rest :
    Forall (fun c => inClass cl c = true) w -> Matches (Star g cl) w rest []
| MCapture i r w rest cs :
    Matches r w rest cs -> Matches (Capture i r) w rest ((i, w) :: cs)
| MConcat r1 r2 w1 w2 rest cs1 cs2 :
    Matches r1 w1 (w2 ++ rest) cs1 ->
    Matches r2 w2 rest cs2 ->
    Matches (Concat r1 r2) (w1 ++ w2) rest (cs2 ++ cs1).


(** *** Predicates on bytes and texts *)

Definition isDigit (c : ascii) : bool := inClass perlDigit c.
Definition isQuantityChar (c : ascii) : bool := inClass quantityChars c.
Definition notNL (c : ascii) : bool := inClass anyCharNotNL c.

(** [label] and [w] are the same up to the case of ASCII letters. *)
Definition sameFold (label w : bytes) : Prop :=
  Forall2 (fun c x => toLower c = toLower x) label w.

(** [w] has one byte per class of [shape], each within its class. *)
Definition hasShape (shape : list CharClass) (w : bytes) : Prop :=
  Forall2 (fun cl c => inClass cl c = true) shape w.

(** The date shape [dddd-dd-dd dd:dd:dd]. *)
Definition dateShape : list CharClass :=
  let d := perlDigit in
  [d; d; d; d; single "-"; d; d; single "-"; d; d; single " ";
   d; d; single ":"; d; d; single ":"; d; d]%char.

(** The shape of a pattern made of classes only. *)
Fixpoint shapeOf (r : Regexp) : option (list CharClass) :=
  match r with
  | Empty => Some []
  | Class cl => Some [cl]
  | Concat r1 r2 =>
      match shapeOf r1, shapeOf r2 with
      | Some s1, Some s2 => Some (s1 ++ s2)
      | _, _ => None
      end
  | _ => None
  end.

(** The pattern has a match somewhere in the text. *)
Definition found (pattern : string) (content : bytes) : Prop :=
  FindStringSubmatch (MustCompile pattern) content <> [].

(** The text holds the label [Member Donation] as written and, further on
    the same line, [name] between an opening and a closing bracket. *)
Definition memberLayout (content name : bytes) : Prop :=
  exists pre a o c rest,
    content = pre ++ B "Member Donation" ++ a ++ [o] ++ name ++ [c] ++ rest /\
    Forall (fun x => notNL x = true) a /\
    Forall (fun x => notNL x = true) name /\
    inClass openers o = true /\ inClass closers c = true.

(** The text holds [label] in some case, a carriage return, a line feed,
    and then the run [q] of digits and commas. *)
Definition quantityLayout (label : string) (content q : bytes) : Prop :=
  exists pre lab rest,
    content = pre ++ lab ++ CRLF ++ q ++ rest /\
    sameFold (B label) lab /\
    Forall (fun c => isQuantityChar c = true) q.

(** The three quantity patterns with their labels, in the order tried. *)
Definition quantityTable : list (string * string) :=
  [(quantityZeroRegex, "Member Donation"%string);
   (quantityFirstRegex, "Type"%string);
   (quantitySecondRegex, "Quantity"%string)].

(** The reference ends in a colon, an upper-case letter and the digits
    [ds]. *)
Definition endsInCell (ref ds : bytes) : Prop :=
  exists pre L,
    ref = pre ++ B ":" ++ [L] ++ ds /\ inClass upperLetters L = true /\
    ds <> [] /\ Forall (fun c => isDigit c = true) ds.

(** The reference ends in a colon, an upper-case letter and [id], which is
    a digit followed by any bytes but a line feed. *)
Definition rowCell (ref id : bytes) : Prop :=
  exists pre L d tl,
    ref = pre ++ B ":" ++ [L] ++ id /\ id = d :: tl /\
    inClass upperLetters L = true /\ isDigit d = true /\
    Forall (fun c => notNL c = true) tl.

(** The state a run ends in, and whether it ended by returning. *)
Definition worldOf {A : Type} (o : Outcome A) : World :=
  match o with Return _ w => w | Exit _ w => w end.

Definition returned {A : Type} (o : Outcome A) : bool :=
  match o with Return _ _ => true | Exit _ _ => false end.

(** The title and the parents the store holds for a file. *)
Definition titleOf (id : bytes) (w : World) : bytes :=
  match drive.lookup id (files w) with
  | Some e => drive.Title (drive.file e)
  | None => []
  end.

Definition parentsOf (id : bytes) (w : World) : list bytes :=
  match drive.lookup id (files w) with
  | Some e => drive.Parents (drive.file e)
  | None => []
  end.

(** The lower-case hexadecimal digits. *)
Definition isLowerHex (c : ascii) : bool :=
  inClass [("0"%char, "9"%char); ("a"%char, "f"%char)] c.

(** The checksum a call of [appendDataToSheet] returned. *)
Definition checksumOf (o : Outcome (bytes * bytes * option error))
    : option bytes :=
  match o with
  | Return (_, cs, _) _ => Some cs
  | Exit _ _ => None
  end.

(** *** The quantity fallback as the specification words it: the first of
    the three patterns, in order, with a non-empty capture *)

Definition capture (pattern : string) (content : bytes) : option bytes :=
  match FindStringSubmatch (MustCompile pattern) content with
  | [_; q] => if isEmpty q then None else Some q
  | _ => None
  end.

Fixpoint firstCapture (patterns : list string) (content : bytes)
    : option bytes :=
  match patterns with
  | [] => None
  | p :: ps =>
      match capture p content with
      | Some q => Some q
      | None => firstCapture ps content
      end
  end.

Definition quantityPatterns : list string :=
  [quantityZeroRegex; quantityFirstRegex; quantitySecondRegex].

(** *** Further notions: shapes read byte by byte *)

(** What is left of [s] after one byte per class of [shape], when [s]
    begins with such bytes. *)
Fixpoint stripShape (shape : list CharClass) (s : bytes) : option bytes :=
  match shape, s with
  | [], _ => Some s
  | cl :: shape', c :: s' =>
      if inClass cl c then stripShape shape' s' else None
  | _ :: _, [] => None
  end.

(** The byte [s] begins with, if any, is outside the class. *)
Definition stopsAt (cl : CharClass) (s : bytes) : Prop :=
  match s with
  | [] => True
  | c :: _ => inClass cl c = false
  end.

(** *** Further notions: what a text holds *)

(** Some part of the text has the date shape. *)
Definition holdsDate (content : bytes) : Prop :=
  exists pre d rest, content = pre ++ d ++ rest /\ hasShape dateShape d.

(** Some part of the text has the member layout. *)
Definition holdsMember (content : bytes) : Prop :=
  exists name, memberLayout content name.

(** [pre] is what comes before the first place of the text where [label],
    in any case, is followed by a carriage return and a line feed, and
    [rest] what comes after that place. *)
Definition firstLabel (label : string) (content pre rest : bytes) : Prop :=
  (exists lab,
     content = pre ++ lab ++ CRLF ++ rest /\ sameFold (B label) lab) /\
  forall pre' lab' rest',
    content = pre' ++ lab' ++ CRLF ++ rest' -> sameFold (B label) lab' ->
    length pre <= length pre'.

(** No digit or comma follows the first such place, if there is one. *)
Definition noQuantityAt (label : string) (content : bytes) : Prop :=
  forall pre rest,
    firstLabel label content pre rest -> stopsAt quantityChars rest.

(** *** Further notions: goroutines *)

Definition isPure {A : Type} (t : Go A) : Prop :=
  match t with Pure _ => True | _ => False end.

(** The goroutine starts no other. *)
Fixpoint noSpawn {A : Type} (t : Go A) : Prop :=
  match t with
  | Pure _ => True
  | Step op k => forall x, noSpawn (k x)
  | Spawn _ _ => False
  end.

(** Run from the state [w] with nothing else running, the goroutine has at
    most one [go] statement, which is its last move and starts a goroutine
    that starts no other: at no time are two goroutines at work. *)
Fixpoint serialAt {A : Type} (t : Go A) (w : World) : Prop :=
  match t with
  | Pure _ => True
  | Step op k =>
      match op w with
      | Return x w' => serialAt (k x) w'
      | Exit _ _ => True
      end
  | Spawn child k => isPure k /\ noSpawn child
  end.

(** No move of the goroutine, or of one it starts, ends the process with
    the message, whatever the state it is made in. *)
Fixpoint never {A : Type} (msg : string) (t : Go A) : Prop :=
  match t with
  | Pure _ => True
  | Step op k =>
      forall w,
        match op w with
        | Return x _ => never msg (k x)
        | Exit m _ => m <> msg
        end
  | Spawn child k => never msg child /\ never msg k
  end.

(** The runs of a pool, move by move: any goroutine that has a move may
    make the next one; the process returns when all are done, and ends with
    the first [log.Fatalf]. *)
Inductive runs : Pool -> World -> Outcome unit -> Prop :=
| runs_done pool w :
    Forall isPure pool -> runs pool w (Return tt w)
| runs_move n pool w pool' w' o :
    turn n pool w = Moved pool' w' -> runs pool' w' o -> runs pool w o
| runs_exit n pool w msg w' :
    turn n pool w = Died msg w' -> runs pool w (Exit msg w').




(** *** Further notions: the first place of each part *)

(** [d] is the first part of the text that has the date shape. *)
Definition firstDate (content d : bytes) : Prop :=
  exists pre rest,
    content = pre ++ d ++ rest /\ hasShape dateShape d /\
    forall p d' r,
      content = p ++ d' ++ r -> hasShape dateShape d' ->
      length pre <= length p.

(** What follows ends a line: nothing, a line feed, or a carriage return
    and a line feed. *)
Definition endsLine (rest : bytes) : Prop :=
  rest = [] \/ (exists r, rest = LF :: r) \/ (exists r, rest = CR :: LF :: r).

(** The text holds [line] up to the end of a line, and no part of the
    member layout begins before it. *)
Definition firstMemberLine (content line : bytes) : Prop :=
  exists pre rest,
    content = pre ++ line ++ rest /\ endsLine rest /\
    forall p a o name c r,
      content = p ++ B "Member Donation" ++ a ++ [o] ++ name ++ [c] ++ r ->
      Forall (fun x => notNL x = true) a ->
      Forall (fun x => notNL x = true) name ->
      inClass openers o = true -> inClass closers c = true ->
      length pre <= length p.

(** The text holds [label], a carriage return, a line feed and [q], with no
    digit or comma after [q], and nowhere before that place is the label,
    in any case, followed by a carriage return and a line feed. *)
Definition firstBlock (label : string) (content q : bytes) : Prop :=
  exists pre rest,
    content = pre ++ B label ++ CRLF ++ q ++ rest /\
    stopsAt quantityChars rest /\
    forall pre' lab' rest',
      content = pre' ++ lab' ++ CRLF ++ rest' -> sameFold (B label) lab' ->
      length pre <= length pre'.

(** How many bytes of [s] come before the first match of [r]. *)
Fixpoint firstStart (r : Regexp) (s : bytes) : option nat :=
  match backtrack r s [] accept with
  | Some _ => Some 0
  | None =>
      match s with
      | [] => None
      | _ :: s' => option_map S (firstStart r s')
      end
  end.

(** *** Further notions: the store *)

(** The store has a file under this id. *)
Definition hasFile (id : bytes) (st : drive.Store) : bool :=
  isSome (drive.lookup id st).

(** The message a run ended the process with, if it did. *)
Definition exitMessage {A : Type} (o : Outcome A) : option string :=
  match o with
  | Return _ _ => None
  | Exit msg _ => Some msg
  end.

(** ** Start-up: the folders and the sheet *)

Module Startup.

Import drive.

Definition UploadFolderName : bytes := B "UploadHere".
Definition ProcessedFolderName : bytes := B "Processed".
Definition FailedFolderName : bytes := B "Failed".
Definition ReportFolderName : bytes := B "Report".
Definition SheetName : bytes := B "ISK Import Report".

(** The package variables the start-up writes. *)
Record Globals : Type := mkGlobals {
  UploadFolderID : bytes;
  ProcessedFolderID : bytes;
  FailedFolderID : bytes;
  ReportFolderID : bytes;
  SheetID : bytes
}.

(** The parts of [drive.FileList] and [sheets.Spreadsheet] the source
    reads. *)
Record FileList : Type := mkFileList {
  Items : list File;
  NextPageToken : bytes
}.

Record Spreadsheet : Type := mkSpreadsheet { SpreadsheetId : bytes }.

(** The requests the start-up sends.  A listing without page token carries
    the empty one. *)
Inductive Call : Type :=
| Files_List (q pageToken : bytes)
| Files_Insert (f : File)
| Spreadsheets_Get (spreadsheetId : bytes)
| Values_Update (spreadsheetId range : bytes) (values : list sheets.Row)
    (valueInputOption : bytes).

(** The two services: what each request is answered with, given the
    requests sent before it.  An answer [inr] is Go's [nil, err]. *)
Record Service : Type := mkService {
  listDo : list Call -> bytes -> bytes -> FileList + error;
  insertDo : list Call -> File -> File + error;
  getDo : list Call -> bytes -> Spreadsheet + error;
  updateDo :
    list Call -> bytes -> bytes -> list sheets.Row -> bytes -> option error
}.

Record State : Type := mkState {
  globals : Globals;
  calls : list Call
}.

(** A call returns, or panics on a nil pointer, or is still in the listing
    loop when the steps allowed to it are used up. *)
Inductive Run (A : Type) : Type :=
| Done (a : A) (s : State)
| Panic (s : State)
| Spin.

Arguments Done {A} a s.
Arguments Panic {A} s.
Arguments Spin {A}.

Definition R (A : Type) : Type := State -> Run A.

Definition ret {A : Type} (a : A) : R A := fun s => Done a s.

Definition bind {A C : Type} (m : R A) (k : A -> R C) : R C :=
  fun s =>
    match m s with
    | Done a s' => k a s'
    | Panic s' => Panic s'
    | Spin => Spin
    end.

Definition panic {A : Type} : R A := fun s => Panic s.

(** [if err != nil { return err }] after a step. *)
Definition orReturn (m : R (option error)) (k : R (option error))
    : R (option error) :=
  bind m (fun err =>
    match err with
    | Some e => ret (Some e)
    | None => k
    end).

Declare Scope startup_scope.
Delimit Scope startup_scope with startup.

Notation "x <- m ;; k" := (bind m (fun x => k))
  (at level 61, m at next level, right associativity) : startup_scope.
Notation "' p <- m ;; k" := (bind m (fun x => match x with p => k end))
  (at level 61, p pattern, m at next level, right associativity)
  : startup_scope.
Notation "m ;; k" := (bind m (fun _ => k))
  (at level 61, right associativity) : startup_scope.

Local Open Scope startup_scope.

Definition assign (f : Globals -> Globals) : R unit :=
  fun s => Done tt (mkState (f (globals s)) (calls s)).

Definition read : R Globals := fun s => Done (globals s) s.

Definition setUploadFolderID (id : bytes) (g : Globals) : Globals :=
  mkGlobals id (ProcessedFolderID g) (FailedFolderID g) (ReportFolderID g)
    (SheetID g).

Definition setProcessedFolderID (id : bytes) (g : Globals) : Globals :=
  mkGlobals (UploadFolderID g) id (FailedFolderID g) (ReportFolderID g)
    (SheetID g).

Definition setFailedFolderID (id : bytes) (g : Globals) : Globals :=
  mkGlobals (UploadFolderID g) (ProcessedFolderID g) id (ReportFolderID g)
    (SheetID g).

Definition setReportFolderID (id : bytes) (g : Globals) : Globals :=
  mkGlobals (UploadFolderID g) (ProcessedFolderID g) (FailedFolderID g) id
    (SheetID g).

Definition setSheetID (id : bytes) (g : Globals) : Globals :=
  mkGlobals (UploadFolderID g) (ProcessedFolderID g) (FailedFolderID g)
    (ReportFolderID g) id.

Definition headers : sheets.Row :=
  [B "ID"; B "Import Date"; B "Echoes Date"; B "Name"; B "Amount"; B "Link"].

Section Calls.

Variable svc : Service.

Definition send (c : Call) (s : State) : State :=
  mkState (globals s) (calls s ++ [c]).

Definition Files_List_Do (q pageToken : bytes) : R (FileList + error) :=
  fun s =>
    Done (listDo svc (calls s) q pageToken) (send (Files_List q pageToken) s).

Definition Files_Insert_Do (f : File) : R (File + error) :=
  fun s => Done (insertDo svc (calls s) f) (send (Files_Insert f) s).

Definition Spreadsheets_Get_Do (spreadsheetId : bytes)
    : R (Spreadsheet + error) :=
  fun s =>
    Done (getDo svc (calls s) spreadsheetId)
      (send (Spreadsheets_Get spreadsheetId) s).

Definition Values_Update_Do (spreadsheetId range : bytes)
    (values : list sheets.Row) (valueInputOption : bytes)
    : R (option error) :=
  fun s =>
    Done (updateDo svc (calls s) spreadsheetId range values valueInputOption)
      (send (Values_Update spreadsheetId range values valueInputOption) s).

(** The loop of [getFilesFromFolder], one round per step allowed.  What it
    prints is not part of the state. *)
Fixpoint getFilesFromFolder_for (fuel : nat) (query pageToken : bytes)
    (cs : list File) : R (list File * option error) :=
  match fuel with
  | O => fun _ => Spin
  | S fuel' =>
      r <- Files_List_Do query pageToken ;;
      match r with
      | inr err => ret (cs, Some err)
      | inl r =>
          let cs := cs ++ Items r in
          let pageToken := NextPageToken r in
          if isEmpty pageToken then ret (cs, None)
          else getFilesFromFolder_for fuel' query pageToken cs
      end
  end.

Definition getFilesFromFolder (fuel : nat) (folderID : bytes)
    (foldersOnly : bool) : R (list File * option error) :=
  let query := B "'" ++ folderID ++ B "' in parents" in
  let query :=
    if foldersOnly
    then query ++ B " AND mimeType = 'application/vnd.google-apps.folder'"
    else query in
  getFilesFromFolder_for fuel query [] [].

Definition createEntity (name parentID mime : bytes) : R (File + error) :=
  let f := mkFile [] name mime [parentID] [] in
  Files_Insert_Do f.

Definition createSheet (name parentID : bytes) : R (File + error) :=
  let mime := B "application/vnd.google-apps.spreadsheet" in
  createEntity name parentID mime.

Definition createFolder (name parentID : bytes) : R (File + error) :=
  let mime := B "application/vnd.google-apps.folder" in
  createEntity name parentID mime.

(** The loop of [setupFolders] over the listing. *)
Fixpoint setupFolders_range (folders : list File) (check : Z) : R Z :=
  match folders with
  | [] => ret check
  | folder :: rest =>
      check <- (if bytes_eqb (Title folder) UploadFolderName
                then assign (setUploadFolderID (Id folder)) ;;
                     ret (Z.lor check 1)
                else ret check) ;;
      check <- (if bytes_eqb (Title folder) ProcessedFolderName
                then assign (setProcessedFolderID (Id folder)) ;;
                     ret (Z.lor check 2)
                else ret check) ;;
      check <- (if bytes_eqb (Title folder) FailedFolderName
                then assign (setFailedFolderID (Id folder)) ;;
                     ret (Z.lor check 4)
                else ret check) ;;
      check <- (if bytes_eqb (Title folder) ReportFolderName
                then assign (setReportFolderID (Id folder)) ;;
                     ret (Z.lor check 8)
                else ret check) ;;
      setupFolders_range rest check
  end.

(** The error of the listing is printed and nothing else. *)
Definition setupFolders (fuel : nat) (masterFolderID : bytes)
    : R (option error) :=
  '(folders, _) <- getFilesFromFolder fuel masterFolderID true ;;
  check <- setupFolders_range folders 0 ;;
  if negb (check =? 15)%Z then
    orReturn
      (if (Z.land check 1 =? 0)%Z then
         r <- createFolder UploadFolderName masterFolderID ;;
         match r with
         | inr err => ret (Some err)
         | inl f => assign (setUploadFolderID (Id f)) ;; ret None
         end
       else ret None)
   (orReturn
      (if (Z.land check 2 =? 0)%Z then
         r <- createFolder ProcessedFolderName masterFolderID ;;
         match r with
         | inr err => ret (Some err)
         | inl f => assign (setProcessedFolderID (Id f)) ;; ret None
         end
       else ret None)
   (orReturn
      (if (Z.land check 4 =? 0)%Z then
         r <- createFolder FailedFolderName masterFolderID ;;
         match r with
         | inr err => ret (Some err)
         | inl f => assign (setFailedFolderID (Id f)) ;; ret None
         end
       else ret None)
   (orReturn
      (if (Z.land check 8 =? 0)%Z then
         r <- createFolder ReportFolderName masterFolderID ;;
         match r with
         | inr err => ret (Some err)
         | inl f => assign (setReportFolderID (Id f)) ;; ret None
         end
       else ret None)
      (ret None))))
  else ret None.

(** The loop of [setupSheet] over the listing; it stops at the first file
    of the name. *)
Fixpoint setupSheet_range (files : list File) : R unit :=
  match files with
  | [] => ret tt
  | file :: rest =>
      if bytes_eqb (Title file) SheetName
      then assign (setSheetID (Id file))
      else setupSheet_range rest
  end.

(** The error of [Spreadsheets.Get] is not looked at, and the field of its
    result is read: on an error the result is nil. *)
Definition setupSheet (fuel : nat) (folderID : bytes) : R (option error) :=
  '(files, err) <- getFilesFromFolder fuel folderID false ;;
  match err with
  | Some e => ret (Some e)
  | None =>
      setupSheet_range files ;;
      g <- read ;;
      if isEmpty (SheetID g) then
        r <- createSheet SheetName folderID ;;
        match r with
        | inr err => ret (Some err)
        | inl file =>
            ss <- Spreadsheets_Get_Do (Id file) ;;
            match ss with
            | inr _ => panic
            | inl ss =>
                assign (setSheetID (SpreadsheetId ss)) ;;
                g <- read ;;
                let values := [headers] in
                let readRange := B "Sheet1!A1:F1" in
                err <- Values_Update_Do (SheetID g) readRange values
                         (B "USER_ENTERED") ;;
                match err with
                | Some e => ret (Some e)
                | None => ret None
                end
            end
        end
      else ret None
  end.

End Calls.

(** *** Notions for the statements *)

(** The requests a listing sends from a token on, when the answers are
    [rs]: each answer with a token is followed by a request with it. *)
Fixpoint requests (q tok : bytes) (rs : list FileList) : list Call :=
  Files_List q tok ::
  match rs with
  | [] => []
  | r :: rs' =>
      if isEmpty (NextPageToken r) then []
      else requests q (NextPageToken r) rs'
  end.

(** The service answers a listing that starts at [tok], after the requests
    of [log], with the pages [rs] one after the other, and then with [fin]:
    no further page, or an error. *)
Fixpoint pagesFrom (svc : Service) (log : list Call) (q tok : bytes)
    (rs : list FileList) (fin : option error) : Prop :=
  match rs with
  | [] =>
      match fin with
      | Some e => listDo svc log q tok = inr e
      | None => False
      end
  | r :: rs' =>
      listDo svc log q tok = inl r /\
      if isEmpty (NextPageToken r) then rs' = [] /\ fin = None
      else pagesFrom svc (log ++ [Files_List q tok]) q (NextPageToken r)
             rs' fin
  end.

(** The query [getFilesFromFolder] sends. *)
Definition queryOf (folderID : bytes) (foldersOnly : bool) : bytes :=
  if foldersOnly
  then B "'" ++ folderID
       ++ B "' in parents AND mimeType = 'application/vnd.google-apps.folder'"
  else B "'" ++ folderID ++ B "' in parents".

(** Some folder of the listing has the title. *)
Definition listed (name : bytes) (folders : list File) : bool :=
  existsb (fun f => bytes_eqb (Title f) name) folders.

(** [id] is the id of the last file of the listing with the title. *)
Definition lastOf (name : bytes) (folders : list File) (id : bytes) : Prop :=
  exists pre f post,
    folders = pre ++ f :: post /\ Title f = name /\ Id f = id /\
    Forall (fun f' => Title f' <> name) post.

(** The request that creates a folder of the name under [parentID]. *)
Definition folderRequest (parentID name : bytes) : Call :=
  Files_Insert
    (mkFile [] name (B "application/vnd.google-apps.folder") [parentID] []).

Definition folderNames : list bytes :=
  [UploadFolderName; ProcessedFolderName; FailedFolderName; ReportFolderName].

(** The request that creates the sheet under [parentID]. *)
Definition sheetRequest (parentID : bytes) : Call :=
  Files_Insert
    (mkFile [] SheetName (B "application/vnd.google-apps.spreadsheet")
       [parentID] []).

(** The value of [check] for the folders found. *)
Definition checkOf (b1 b2 b3 b4 : bool) : Z :=
  ((if b1 then 1 else 0) + (if b2 then 2 else 0) + (if b3 then 4 else 0)
   + (if b4 then 8 else 0))%Z.

(** What the loop of [setupFolders] leaves in a variable that held [old]. *)
Definition pick (name : bytes) (folders : list File) (old : bytes) : bytes :=
  fold_left (fun acc f => if bytes_eqb (Title f) name then Id f else acc)
    folders old.

(** [id] is the id the store gave a folder of the name it was asked to
    create under [parentID]. *)
Definition createdAs (svc : Service) (parentID name id : bytes) : Prop :=
  exists log r,
    insertDo svc log
      (mkFile [] name (B "application/vnd.google-apps.folder") [parentID] [])
    = inl r /\ Id r = id.

(** *** Services to run the start-up against *)

Definition folder (id name : bytes) : File :=
  mkFile id name (B "application/vnd.google-apps.folder") [B "root"] [].

(** A store that lists the four folders on two pages, and hands out ids by
    the number of requests it has seen. *)
Definition twoPages : Service :=
  mkService
    (fun _ _ tok =>
       if isEmpty tok
       then inl (mkFileList [folder (B "f1") UploadFolderName;
                             folder (B "f2") ProcessedFolderName]
                   (B "page2"))
       else if bytes_eqb tok (B "page2")
       then inl (mkFileList [folder (B "f3") FailedFolderName;
                             folder (B "f4") ReportFolderName;
                             folder (B "f5") UploadFolderName] [])
       else inr (apiError "Invalid page token"))
    (fun log f =>
       inl (mkFile (B "new" ++ Itoa (length log)) (Title f) (MimeType f)
              (Parents f) []))
    (fun _ id => inl (mkSpreadsheet id))
    (fun _ _ _ _ _ => None).

(** A store that answers every listing with one more token. *)
Definition endless : Service :=
  mkService
    (fun _ _ _ => inl (mkFileList [] (B "more")))
    (fun _ _ => inr (apiError "Forbidden"))
    (fun _ _ => inr (apiError "Forbidden"))
    (fun _ _ _ _ _ => Some (apiError "Forbidden")).

(** A store with the upload folder only, listed on one page, and a sheet
    service that is [working] or not. *)
Definition bare (working : bool) : Service :=
  mkService
    (fun _ q _ =>
       if bytes_eqb q (queryOf (B "root") true)
       then inl (mkFileList [folder (B "f1") UploadFolderName] [])
       else inl (mkFileList [] []))
    (fun log f =>
       inl (mkFile (B "new" ++ Itoa (length log)) (Title f) (MimeType f)
              (Parents f) []))
    (fun _ id =>
       if working then inl (mkSpreadsheet id)
       else inr (apiError "Service unavailable"))
    (fun _ _ _ _ _ => None).

(** A report folder that holds a file of notes and two sheets of the
    name. *)
Definition sheet (id name : bytes) : File :=
  mkFile id name (B "application/vnd.google-apps.spreadsheet") [B "f4"] [].

Definition withSheets : Service :=
  mkService
    (fun _ _ _ =>
       inl (mkFileList [sheet (B "n1") (B "Notes"); sheet (B "s1") SheetName;
                        sheet (B "s2") SheetName] []))
    (fun _ _ => inr (apiError "Forbidden"))
    (fun _ _ => inr (apiError "Forbidden"))
    (fun _ _ _ _ _ => Some (apiError "Forbidden")).

Definition start : State := mkState (mkGlobals [] [] [] [] []) [].

End Startup.

(** ** Proof automation *)

(** Decides every [Z.max] and [Z.min] of the goal by arithmetic. *)
Ltac order_bounds :=
  repeat match goal with
  | |- context [Z.max ?a ?b] =>
      first [rewrite (Z.max_l a b) by lia | rewrite (Z.max_r a b) by lia]
  | |- context [Z.min ?a ?b] =>
      first [rewrite (Z.min_l a b) by lia | rewrite (Z.min_r a b) by lia]
  end.

(** The number of bytes of [s] before its suffix [s']. *)
Ltac count_to s s' :=
  match s with
  | s' => constr:(0)
  | _ :: ?t => let n := count_to t s' in constr:(S n)
  end.

(** Replaces the length of a match, written as a difference of lengths of
    a text and a suffix of it, by its value. *)
Ltac settle_lengths :=
  repeat match goal with
  | |- context [length ?s - length ?s'] =>
      let n := count_to s s' in
      replace (length s - length s') with n by (cbn [length]; lia)
  end.

(* ================================================================== *)
(** * Part II: lemmas and theorems *)
(* ================================================================== *)

(** ** The patterns compile, to what was written out above *)

Lemma compile_dateRegex : MustCompile dateRegex = dateProg.
Proof. reflexivity. Qed.

Lemma compile_usernameRegex : MustCompile usernameRegex = usernameProg.
Proof. reflexivity. Qed.

Lemma compile_quantityZeroRegex :
  MustCompile quantityZeroRegex = quantityProg "Member Donation".
Proof. reflexivity. Qed.

Lemma compile_quantityFirstRegex :
  MustCompile quantityFirstRegex = quantityProg "Type".
Proof. reflexivity. Qed.

Lemma compile_quantitySecondRegex :
  MustCompile quantitySecondRegex = quantityProg "Quantity".
Proof. reflexivity. Qed.

Lemma compile_rowRegex : MustCompile rowRegex = rowProg.
Proof. reflexivity. Qed.

(** ** The backtracking search against the matches of a pattern *)

Section Search.

Lemma firstn_app_sub (w rest : bytes) :
  firstn (length (w ++ rest) - length rest) (w ++ rest) = w.
Proof.
  rewrite length_app, Nat.add_sub.
  rewrite firstn_app, Nat.sub_diag, firstn_all. simpl.
  apply app_nil_r.
Qed.

Lemma starGreedy_sound cl s k m :
  starGreedy cl s k = Some m ->
  exists w rest, s = w ++ rest /\ Forall (fun c => inClass cl c = true) w /\ k rest = Some m.
Proof.
  revert m. induction s as [|c s IH]; simpl; intros m H.
  - exists [], []. auto.
  - destruct (inClass cl c) eqn:Hc.
    + destruct (starGreedy cl s k) as [m'|] eqn:Hs.
      * inversion H; subst m'.
        destruct (IH m eq_refl) as (w & rest & -> & Hw & Hk).
        exists (c :: w), rest. auto.
      * exists [], (c :: s). auto.
    + exists [], (c :: s). auto.
Qed.

Lemma starGreedy_none cl s k :
  starGreedy cl s k = None ->
  forall w rest, s = w ++ rest -> Forall (fun c => inClass cl c = true) w -> k rest = None.
Proof.
  induction s as [|c s IH]; simpl; intros H w rest Hs Hw.
  - destruct w; [simpl in Hs; subst rest; exact H | discriminate].
  - destruct w as [|x w]; simpl in Hs.
    + subst rest. destruct (inClass cl c); [|exact H].
      destruct (starGreedy cl s k); [discriminate | exact H].
    + inversion Hs; subst x s. inversion Hw; subst.
      match goal with Hx : inClass cl c = true |- _ => rewrite Hx in H end.
      destruct (starGreedy cl (w ++ rest) k) eqn:Hg; [discriminate|].
      eapply IH; eauto.
Qed.

Lemma starLazy_sound cl s k m :
  starLazy cl s k = Some m ->
  exists w rest, s = w ++ rest /\ Forall (fun c => inClass cl c = true) w /\ k rest = Some m.
Proof.
  revert m. induction s as [|c s IH]; simpl; intros m H.
  - destruct (k []) eqn:Hk; [|discriminate].
    exists [], []. inversion H; subst. auto.
  - destruct (k (c :: s)) eqn:Hk.
    + inversion H; subst. exists [], (c :: s). auto.
    + destruct (inClass cl c) eqn:Hc; [|discriminate].
      destruct (IH m H) as (w & rest & -> & Hw & Hr).
      exists (c :: w), rest. auto.
Qed.

Lemma starLazy_none cl s k :
  starLazy cl s k = None ->
  forall w rest, s = w ++ rest -> Forall (fun c => inClass cl c = true) w -> k rest = None.
Proof.
  induction s as [|c s IH]; simpl; intros H w rest Hs Hw.
  - destruct w; [simpl in Hs; subst rest | discriminate].
    destruct (k []); [discriminate | reflexivity].
  - destruct (k (c :: s)) eqn:Hk; [discriminate|].
    destruct w as [|x w]; simpl in Hs.
    + subst rest. exact Hk.
    + inversion Hs; subst x s. inversion Hw; subst.
      match goal with Hx : inClass cl c = true |- _ => rewrite Hx in H end.
      eapply IH; eauto.
Qed.

(** Whatever the search returns comes from a match of the pattern, followed
    by a success of the rest. *)
Lemma backtrack_sound r : forall s cs k m,
  backtrack r s cs k = Some m ->
  exists w rest cs',
    s = w ++ rest /\ Matches r w rest cs' /\ k rest (cs' ++ cs) = Some m.
Proof.
  induction r as [|cl| |g cl|i r IH|r1 IH1 r2 IH2]; simpl; intros s cs k m H.
  - exists [], s, []. repeat split; auto. constructor.
  - destruct s as [|c s]; [discriminate|].
    destruct (inClass cl c) eqn:Hc; [|discriminate].
    exists [c], s, []. repeat split; auto. constructor; auto.
  - destruct s; [|discriminate].
    exists [], [], []. repeat split; auto. constructor.
  - destruct g.
    + apply starGreedy_sound in H. destruct H as (w & rest & -> & Hw & Hk).
      exists w, rest, []. repeat split; auto. constructor; auto.
    + apply starLazy_sound in H. destruct H as (w & rest & -> & Hw & Hk).
      exists w, rest, []. repeat split; auto. constructor; auto.
  - apply IH in H. destruct H as (w & rest & cs' & -> & Hm & Hk).
    rewrite firstn_app_sub in Hk.
    exists w, rest, ((i, w) :: cs'). repeat split; auto. constructor; auto.
  - apply IH1 in H. destruct H as (w1 & rest1 & cs1 & -> & Hm1 & Hk).
    apply IH2 in Hk. destruct Hk as (w2 & rest & cs2 & -> & Hm2 & Hk).
    exists (w1 ++ w2), rest, (cs2 ++ cs1).
    rewrite <- !app_assoc. repeat split; auto. constructor; auto.
Qed.

(** When the search fails, every match of the pattern is followed by a
    failure of the rest. *)
Lemma backtrack_none r : forall s cs k,
  backtrack r s cs k = None ->
  forall w rest cs',
    s = w ++ rest -> Matches r w rest cs' -> k rest (cs' ++ cs) = None.
Proof.
  induction r as [|cl| |g cl|i r IH|r1 IH1 r2 IH2]; simpl;
    intros s cs k H w rest cs' Hs Hm; inversion Hm; subst; simpl in *.
  - exact H.
  - match goal with Hx : inClass cl _ = true |- _ => rewrite Hx in H end.
    exact H.
  - exact H.
  - destruct g.
    + eapply (starGreedy_none _ _ _ H); eauto.
    + eapply (starLazy_none _ _ _ H); eauto.
  - specialize (IH _ _ _ H _ _ _ eq_refl ltac:(eassumption)).
    simpl in IH. rewrite firstn_app_sub in IH. exact IH.
  - rewrite <- app_assoc in H.
    specialize (IH1 _ _ _ H _ _ _ eq_refl ltac:(eassumption)).
    simpl in IH1.
    specialize (IH2 _ _ _ IH1 _ _ _ eq_refl ltac:(eassumption)).
    rewrite <- app_assoc. exact IH2.
Qed.

(** The result of [FindStringSubmatch] is a match somewhere in the text,
    reported as the whole match and the groups. *)
Lemma FindStringSubmatch_sound r : forall s res,
  FindStringSubmatch r s = res -> res <> [] ->
  exists pre w rest cs,
    s = pre ++ w ++ rest /\ Matches r w rest cs /\
    res = w :: map (fun i => group i cs) (seq 1 (NumSubexp r)).
Proof.
  induction s as [|c s IH]; simpl; intros res H Hne.
  - destruct (backtrack r [] [] accept) as [[s' cs]|] eqn:Hb.
    + apply backtrack_sound in Hb.
      destruct Hb as (w & rest & cs' & Hs & Hm & Hk).
      unfold accept in Hk. rewrite app_nil_r in Hk.
      inversion Hk; subst s' cs.
      exists [], w, rest, cs'. repeat split; auto.
      subst res. unfold submatches. rewrite Hs, firstn_app_sub. reflexivity.
    + congruence.
  - destruct (backtrack r (c :: s) [] accept) as [[s' cs]|] eqn:Hb.
    + apply backtrack_sound in Hb.
      destruct Hb as (w & rest & cs' & Hs & Hm & Hk).
      unfold accept in Hk. rewrite app_nil_r in Hk.
      inversion Hk; subst s' cs.
      exists [], w, rest, cs'. repeat split; auto.
      subst res. unfold submatches. rewrite Hs, firstn_app_sub. reflexivity.
    + destruct (IH res H Hne) as (pre & w & rest & cs & -> & Hm & Hr).
      exists (c :: pre), w, rest, cs. auto.
Qed.

(** No result means no match anywhere in the text. *)
Lemma FindStringSubmatch_nil r : forall s,
  FindStringSubmatch r s = [] ->
  forall pre w rest cs, s = pre ++ w ++ rest -> ~ Matches r w rest cs.
Proof.
  induction s as [|c s IH]; simpl; intros H pre w rest cs Hs Hm.
  - destruct pre; [|discriminate]. simpl in Hs.
    destruct (backtrack r [] [] accept) as [[s' cs0]|] eqn:Hb.
    + discriminate.
    + pose proof (backtrack_none _ _ _ _ Hb _ _ _ Hs Hm) as Hk.
      discriminate.
  - destruct (backtrack r (c :: s) [] accept) as [[s' cs0]|] eqn:Hb.
    + discriminate.
    + destruct pre as [|x pre]; simpl in Hs.
      * pose proof (backtrack_none _ _ _ _ Hb _ _ _ Hs Hm) as Hk.
        discriminate.
      * inversion Hs; subst. eapply IH; eauto.
Qed.

Lemma FindStringSubmatch_length r s :
  FindStringSubmatch r s = [] \/
  length (FindStringSubmatch r s) = S (NumSubexp r).
Proof.
  induction s as [|c s IH]; simpl.
  - destruct (backtrack r [] [] accept) as [[s' cs]|]; auto.
    right. unfold submatches. simpl. now rewrite length_map, length_seq.
  - destruct (backtrack r (c :: s) [] accept) as [[s' cs]|]; auto.
    right. unfold submatches. simpl. now rewrite length_map, length_seq.
Qed.

End Search.

(** ** Reading a match of a sequence *)

Section Inversion.

Lemma Matches_Empty_inv w rest cs :
  Matches Empty w rest cs -> w = [] /\ cs = [].
Proof. intros H; inversion H; auto. Qed.

Lemma Matches_Class_inv cl w rest cs :
  Matches (Class cl) w rest cs ->
  exists c, w = [c] /\ inClass cl c = true /\ cs = [].
Proof. intros H; inversion H; subst; eauto. Qed.

Lemma Matches_Star_inv g cl w rest cs :
  Matches (Star g cl) w rest cs ->
  Forall (fun c => inClass cl c = true) w /\ cs = [].
Proof. intros H; inversion H; subst; auto. Qed.

Lemma Matches_Capture_inv i r w rest cs :
  Matches (Capture i r) w rest cs ->
  exists cs', cs = (i, w) :: cs' /\ Matches r w rest cs'.
Proof. intros H; inversion H; subst; eauto. Qed.

Lemma Matches_EndText_inv w rest cs :
  Matches EndText w rest cs -> w = [] /\ rest = [] /\ cs = [].
Proof. intros H; inversion H; auto. Qed.

Lemma Matches_cons_inv r rs w rest cs :
  Matches (seqOf (r :: rs)) w rest cs ->
  exists w1 w2 cs1 cs2,
    w = w1 ++ w2 /\ cs = cs2 ++ cs1 /\
    Matches r w1 (w2 ++ rest) cs1 /\ Matches (seqOf rs) w2 rest cs2.
Proof.
  simpl. intros H; inversion H; subst.
  do 4 eexists; repeat split; eauto.
Qed.

(** A run of classes at the head of a sequence takes one byte each. *)
Lemma Matches_classes_inv cls : forall rs w rest cs,
  Matches (seqOf (map Class cls ++ rs)) w rest cs ->
  exists w1 w2,
    w = w1 ++ w2 /\ Forall2 (fun cl c => inClass cl c = true) cls w1 /\
    Matches (seqOf rs) w2 rest cs.
Proof.
  induction cls as [|cl cls IH]; intros rs w rest cs H.
  - exists [], w. repeat split; auto.
  - change (map Class (cl :: cls) ++ rs)
      with (Class cl :: (map Class cls ++ rs)) in H.
    apply Matches_cons_inv in H.
    destruct H as (w1 & w2 & cs1 & cs2 & -> & -> & H1 & H2).
    apply Matches_Class_inv in H1. destruct H1 as (c & -> & Hc & ->).
    apply IH in H2. destruct H2 as (v1 & v2 & -> & Hv & Hm).
    exists (c :: v1), v2. rewrite app_nil_r. repeat split; auto.
Qed.

Lemma Matches_classes_intro cls : forall rs w1 w2 rest cs,
  Forall2 (fun cl c => inClass cl c = true) cls w1 ->
  Matches (seqOf rs) w2 rest cs ->
  Matches (seqOf (map Class cls ++ rs)) (w1 ++ w2) rest cs.
Proof.
  induction cls as [|cl cls IH]; intros rs w1 w2 rest cs Hf Hm;
    inversion Hf; subst; simpl.
  - exact Hm.
  - rewrite <- (app_nil_r cs).
    change (Matches (Concat (Class cl) (seqOf (map Class cls ++ rs)))
              ([y] ++ (l' ++ w2)) rest (cs ++ [])).
    constructor.
    + constructor. assumption.
    + apply IH; assumption.
Qed.

Lemma Matches_times_inv cl n : forall w rest cs,
  Matches (times n (Class cl)) w rest cs ->
  Forall2 (fun cl c => inClass cl c = true) (repeat cl n) w /\ cs = [].
Proof.
  induction n as [|n IH]; simpl; intros w rest cs H.
  - apply Matches_Empty_inv in H. destruct H as [-> ->]. auto.
  - inversion H; subst.
    match goal with
    | H1 : Matches (Class _) _ _ _, H2 : Matches (times _ _) _ _ _ |- _ =>
        apply Matches_Class_inv in H1; destruct H1 as (c & -> & Hc & ->);
        apply IH in H2; destruct H2 as [Hf ->]
    end.
    split; [constructor; assumption | reflexivity].
Qed.

End Inversion.

(** ** Facts on classes and case *)

Section Classes.

Lemma between_same c x : between c c x = true -> x = c.
Proof.
  unfold between. rewrite andb_true_iff, !N.leb_le. intros [H1 H2].
  assert (He : N_of_ascii x = N_of_ascii c) by lia.
  rewrite <- (ascii_N_embedding x), He. apply ascii_N_embedding.
Qed.

Lemma inClass_single c x : inClass (single c) x = true <-> x = c.
Proof.
  unfold inClass, single. simpl. rewrite orb_false_r. split.
  - apply between_same.
  - intros ->. unfold between. rewrite N.leb_refl. reflexivity.
Qed.

Lemma inClass_two a b x :
  inClass [(a, a); (b, b)] x = true -> x = a \/ x = b.
Proof.
  unfold inClass. simpl. rewrite orb_false_r, orb_true_iff.
  intros [H|H]; apply between_same in H; auto.
Qed.

Lemma toLower_toUpper c : toLower (toUpper c) = toLower c.
Proof.
  destruct c as [[] [] [] [] [] [] [] []]; vm_compute; reflexivity.
Qed.

Lemma toLower_idem c : toLower (toLower c) = toLower c.
Proof.
  destruct c as [[] [] [] [] [] [] [] []]; vm_compute; reflexivity.
Qed.

(** The class a literal byte compiles to under the [i] flag accepts only
    that byte, up to case. *)
Lemma foldClass_sound c x :
  inClass (foldClassOf c) x = true -> toLower c = toLower x.
Proof.
  unfold foldClassOf. destruct (isLetter c).
  - intros H. apply inClass_two in H. destruct H as [-> | ->].
    + now rewrite toLower_toUpper.
    + now rewrite toLower_idem.
  - intros H. apply inClass_single in H. now subst.
Qed.

Lemma inClass_anyCharNotNL c : inClass anyCharNotNL c = true <-> c <> LF.
Proof.
  destruct c as [[] [] [] [] [] [] [] []]; vm_compute;
    split; intros H; try reflexivity; try discriminate; try congruence.
Qed.

End Classes.

(** ** What a result of each pattern looks like *)

Section Results.

Lemma Matches_shapeOf r : forall cls w rest cs,
  shapeOf r = Some cls -> Matches r w rest cs -> hasShape cls w /\ cs = [].
Proof.
  induction r as [|cl| |g cl|i r IH|r1 IH1 r2 IH2]; simpl;
    intros cls w rest cs Hs Hm; try discriminate.
  - inversion Hs; subst. apply Matches_Empty_inv in Hm.
    destruct Hm as [-> ->]. split; [constructor | reflexivity].
  - inversion Hs; subst. apply Matches_Class_inv in Hm.
    destruct Hm as (c & -> & Hc & ->).
    split; [repeat constructor; assumption | reflexivity].
  - destruct (shapeOf r1) as [s1|]; [|discriminate].
    destruct (shapeOf r2) as [s2|]; [|discriminate].
    inversion Hs; subst. inversion Hm; subst.
    match goal with
    | H1 : Matches r1 _ _ _, H2 : Matches r2 _ _ _ |- _ =>
        destruct (IH1 _ _ _ _ eq_refl H1) as [Hf1 ->];
        destruct (IH2 _ _ _ _ eq_refl H2) as [Hf2 ->]
    end.
    split; [apply Forall2_app; assumption | reflexivity].
Qed.

Lemma hasShape_length cls w : hasShape cls w -> length w = length cls.
Proof. intros H. symmetry. eapply Forall2_length; eauto. Qed.

Lemma hasShape_singles l w : hasShape (map single l) w -> w = l.
Proof.
  revert w. induction l as [|c l IH]; intros w H; inversion H; subst.
  - reflexivity.
  - f_equal; [now apply inClass_single | now apply IH].
Qed.

Lemma singles_hasShape l : hasShape (map single l) l.
Proof.
  induction l as [|c l IH]; constructor; auto.
  now apply inClass_single.
Qed.

Lemma hasShape_fold l w : hasShape (map foldClassOf l) w -> sameFold l w.
Proof.
  unfold sameFold.
  revert w. induction l as [|c l IH]; intros w H; inversion H; subst.
  - constructor.
  - constructor; [now apply foldClass_sound | now apply IH].
Qed.

Lemma NumSubexp_classes cls rs :
  NumSubexp (seqOf (map Class cls ++ rs)) = NumSubexp (seqOf rs).
Proof. induction cls; simpl; auto. Qed.

(** A date result holds the date twice: the whole match is the group. *)
Lemma date_result s res :
  FindStringSubmatch dateProg s = res -> res <> [] ->
  exists pre d rest,
    s = pre ++ d ++ rest /\ hasShape dateShape d /\ res = [d; d].
Proof.
  intros H Hne. apply FindStringSubmatch_sound in H; auto.
  destruct H as (pre & w & rest & cs & -> & Hm & ->).
  unfold dateProg in Hm. apply Matches_cons_inv in Hm.
  destruct Hm as (w1 & w2 & cs1 & cs2 & -> & -> & H1 & H2).
  apply Matches_Empty_inv in H2. destruct H2 as [-> ->].
  apply Matches_Capture_inv in H1. destruct H1 as (cs' & -> & H1).
  eapply Matches_shapeOf in H1; [|reflexivity]. destruct H1 as [Hs ->].
  exists pre, w1, rest. rewrite !app_nil_r. repeat split; auto.
Qed.

(** A quantity result: the label up to case, a carriage return and a line
    feed, then the captured run of digits and commas. *)
Lemma quantity_result label s res :
  FindStringSubmatch (quantityProg label) s = res -> res <> [] ->
  exists pre lab q rest,
    s = pre ++ lab ++ CRLF ++ q ++ rest /\ sameFold (B label) lab /\
    Forall (fun c => isQuantityChar c = true) q /\
    res = [lab ++ CRLF ++ q; q].
Proof.
  intros H Hne. apply FindStringSubmatch_sound in H; auto.
  destruct H as (pre & w & rest & cs & -> & Hm & ->).
  unfold quantityProg, litFold in *.
  rewrite <- (map_map foldClassOf Class) in *.
  rewrite NumSubexp_classes.
  apply Matches_classes_inv in Hm.
  destruct Hm as (lab & w2 & -> & Hlab & Hm).
  apply (Matches_classes_inv [single CR; single LF]) in Hm.
  destruct Hm as (crlf & w3 & -> & Hcrlf & Hm).
  apply (hasShape_singles [CR; LF]) in Hcrlf. subst crlf.
  apply Matches_cons_inv in Hm.
  destruct Hm as (q & w4 & cs1 & cs2 & -> & -> & H1 & H2).
  apply Matches_Empty_inv in H2. destruct H2 as [-> ->].
  apply Matches_Capture_inv in H1. destruct H1 as (cs' & -> & H1).
  apply Matches_cons_inv in H1.
  destruct H1 as (q1 & q2 & cs3 & cs4 & -> & -> & H3 & H4).
  apply Matches_Empty_inv in H4. destruct H4 as [-> ->].
  apply Matches_Star_inv in H3. destruct H3 as [Hq ->].
  rewrite !app_nil_r in *.
  exists pre, lab, q1, rest. repeat split; auto.
  - now rewrite <- !app_assoc.
  - now apply hasShape_fold.
Qed.

(** A member result: the label as written, then on the same line an opening
    bracket, the captured name and a closing bracket. *)
Lemma username_result s res :
  FindStringSubmatch usernameProg s = res -> res <> [] ->
  exists pre a o name c rest,
    s = pre ++ B "Member Donation" ++ a ++ [o] ++ name ++ [c] ++ rest /\
    Forall (fun x => notNL x = true) a /\
    Forall (fun x => notNL x = true) name /\
    inClass openers o = true /\ inClass closers c = true /\
    res = [B "Member Donation" ++ a ++ [o] ++ name ++ [c]; name].
Proof.
  intros H Hne. apply FindStringSubmatch_sound in H; auto.
  destruct H as (pre & w & rest & cs & -> & Hm & ->).
  unfold usernameProg, lit in *.
  rewrite <- (map_map single Class) in *.
  rewrite NumSubexp_classes.
  apply Matches_classes_inv in Hm.
  destruct Hm as (lab & w2 & -> & Hlab & Hm).
  apply hasShape_singles in Hlab. subst lab.
  apply Matches_cons_inv in Hm.
  destruct Hm as (a & w3 & cs1 & cs2 & -> & -> & H1 & Hm).
  apply Matches_Star_inv in H1. destruct H1 as [Ha ->].
  apply Matches_cons_inv in Hm.
  destruct Hm as (o1 & w4 & cs1 & cs3 & -> & -> & H1 & Hm).
  apply Matches_Class_inv in H1. destruct H1 as (o & -> & Ho & ->).
  apply Matches_cons_inv in Hm.
  destruct Hm as (name & w5 & cs1 & cs4 & -> & -> & H1 & Hm).
  apply Matches_Capture_inv in H1. destruct H1 as (cs' & -> & H1).
  apply Matches_cons_inv in H1.
  destruct H1 as (n1 & n2 & cs5 & cs6 & -> & -> & H3 & H4).
  apply Matches_Empty_inv in H4. destruct H4 as [-> ->].
  apply Matches_Star_inv in H3. destruct H3 as [Hn ->].
  apply Matches_cons_inv in Hm.
  destruct Hm as (c1 & w6 & cs1 & cs7 & -> & -> & H1 & Hm).
  apply Matches_Class_inv in H1. destruct H1 as (c & -> & Hc & ->).
  apply Matches_Empty_inv in Hm. destruct Hm as [-> ->].
  rewrite !app_nil_r in *.
  exists pre, a, o, n1, c, rest. repeat split; auto.
  now rewrite <- !app_assoc.
Qed.

End Results.

(** ** extractData, read as a whole *)

Section ExtractData.

Lemma noQuantity_spec (res : list bytes) :
  noQuantity res = match res with [_; q] => isEmpty q | _ => true end.
Proof. destruct res as [|a [|b [|c l]]]; reflexivity. Qed.

Lemma capture_spec p text :
  capture p text =
  if noQuantity (FindStringSubmatch (MustCompile p) text) then None
  else Some (nth 1 (FindStringSubmatch (MustCompile p) text) []).
Proof.
  unfold capture. rewrite noQuantity_spec.
  destruct (FindStringSubmatch (MustCompile p) text) as [|a [|b [|c l]]];
    reflexivity.
Qed.

(** Every pattern of the source has one group: a result is [nil] or holds
    two strings. *)
Lemma one_group_results r text :
  NumSubexp r = 1 ->
  FindStringSubmatch r text = [] \/
  exists w g, FindStringSubmatch r text = [w; g].
Proof.
  intros Hn. destruct (FindStringSubmatch_length r text) as [H|H]; auto.
  right. rewrite Hn in H.
  destruct (FindStringSubmatch r text) as [|a [|b [|c l]]];
    try discriminate. eauto.
Qed.

(** The nested tests of [extractData] as one decision list. *)
Lemma extractData_unfold text :
  extractData (Body text) =
  match FindStringSubmatch (MustCompile dateRegex) text with
  | [] => failure DateNotFound
  | dateResults =>
      match FindStringSubmatch (MustCompile usernameRegex) text with
      | [] => failure UsernameNotFound
      | usernameResults =>
          match firstCapture quantityPatterns text with
          | None => failure QuantityNotFound
          | Some q =>
              mkExtracted (nth 1 dateResults []) (nth 1 usernameResults [])
                q None
          end
      end
  end.
Proof.
  unfold extractData. cbv zeta.
  destruct (one_group_results (MustCompile dateRegex) text eq_refl)
    as [Hd | (dw & dg & Hd)]; rewrite Hd; [reflexivity|].
  destruct (one_group_results (MustCompile usernameRegex) text eq_refl)
    as [Hu | (uw & ug & Hu)]; rewrite Hu; [reflexivity|].
  unfold firstCapture, quantityPatterns. rewrite !capture_spec.
  simpl (negb _). cbv iota.
  destruct (noQuantity (FindStringSubmatch (MustCompile quantityZeroRegex) text));
    [|reflexivity].
  destruct (noQuantity (FindStringSubmatch (MustCompile quantityFirstRegex) text));
    [|reflexivity].
  destruct (noQuantity (FindStringSubmatch (MustCompile quantitySecondRegex) text));
    reflexivity.
Qed.

(** On failure the three strings are empty. *)
Lemma extractData_failure textDoc e :
  err (extractData textDoc) = Some e -> extractData textDoc = failure e.
Proof.
  destruct textDoc as [text|e0]; [|simpl; congruence].
  rewrite extractData_unfold.
  destruct (FindStringSubmatch (MustCompile dateRegex) text);
    [simpl; congruence|].
  destruct (FindStringSubmatch (MustCompile usernameRegex) text);
    [simpl; congruence|].
  destruct (firstCapture quantityPatterns text); simpl; congruence.
Qed.

Lemma capture_some p text q :
  capture p text = Some q ->
  q <> [] /\ exists w, FindStringSubmatch (MustCompile p) text = [w; q].
Proof.
  unfold capture.
  destruct (FindStringSubmatch (MustCompile p) text) as [|a [|b [|c l]]];
    try discriminate.
  destruct b; simpl; [discriminate|].
  intros H; inversion H; subst. split; [discriminate | eauto].
Qed.

Lemma firstCapture_some text q :
  firstCapture quantityPatterns text = Some q ->
  exists p, In p quantityPatterns /\ capture p text = Some q.
Proof.
  unfold quantityPatterns. simpl.
  destruct (capture quantityZeroRegex text) eqn:H0.
  { intros H; inversion H; subst. eauto. }
  destruct (capture quantityFirstRegex text) eqn:H1.
  { intros H; inversion H; subst. eauto 6. }
  destruct (capture quantitySecondRegex text) eqn:H2; [|discriminate].
  intros H; inversion H; subst. eauto 6.
Qed.

End ExtractData.

(** ** The text extractor *)

Section Extractor.

Lemma MConcat_eq r1 r2 w w1 w2 rest cs cs1 cs2 :
  w = w1 ++ w2 -> cs = cs2 ++ cs1 ->
  Matches r1 w1 (w2 ++ rest) cs1 -> Matches r2 w2 rest cs2 ->
  Matches (Concat r1 r2) w rest cs.
Proof. intros -> ->. apply MConcat. Qed.

(** Every text of the member layout is a match of the member pattern. *)
Lemma username_matches a o name c rest :
  Forall (fun x => notNL x = true) a ->
  Forall (fun x => notNL x = true) name ->
  inClass openers o = true -> inClass closers c = true ->
  Matches usernameProg (B "Member Donation" ++ a ++ [o] ++ name ++ [c]) rest
    [(1, name)].
Proof.
  intros Ha Hn Ho Hc. unfold usernameProg, lit.
  rewrite <- (map_map single Class).
  apply Matches_classes_intro; [apply singles_hasShape|].
  simpl seqOf.
  eapply (MConcat_eq _ _ _ a ([o] ++ name ++ [c]) rest _ [] [(1, name)]);
    [reflexivity | reflexivity | constructor; exact Ha |].
  eapply (MConcat_eq _ _ _ [o] (name ++ [c]) rest _ [] [(1, name)]);
    [reflexivity | reflexivity | constructor; exact Ho |].
  eapply (MConcat_eq _ _ _ name [c] rest _ [(1, name)] []);
    [reflexivity | reflexivity | |].
  - constructor.
    eapply (MConcat_eq _ _ _ name [] _ _ [] []);
      [symmetry; apply app_nil_r | reflexivity | constructor; exact Hn
      | constructor].
  - eapply (MConcat_eq _ _ _ [c] [] rest _ [] []);
      [reflexivity | reflexivity | constructor; exact Hc | constructor].
Qed.

Lemma memberLayout_found text name :
  memberLayout text name -> found usernameRegex text.
Proof.
  intros (pre & a & o & c & rest & Ht & Ha & Hn & Ho & Hc) Hnil.
  unfold found in *. rewrite compile_usernameRegex in Hnil.
  eapply (FindStringSubmatch_nil _ _ Hnil pre
            (B "Member Donation" ++ a ++ [o] ++ name ++ [c]) rest).
  - rewrite Ht. now rewrite <- !app_assoc.
  - apply username_matches; assumption.
Qed.

Lemma found_memberLayout text w name :
  FindStringSubmatch (MustCompile usernameRegex) text = [w; name] ->
  memberLayout text name.
Proof.
  intros H. rewrite compile_usernameRegex in H.
  apply username_result in H; [|discriminate].
  destruct H as (pre & a & o & n & c & rest & Ht & Ha & Hn & Ho & Hc & He).
  inversion He; subst n. exists pre, a, o, c, rest. auto.
Qed.

(** C6 (as amended).  Once the date is found, [extractData] fails with
    [UsernameNotFound] exactly when the text nowhere holds the label
    [Member Donation], written with these capitals, followed on the same
    line by an opening parenthesis or bracket, a name and a closing
    parenthesis or bracket; and when [extractData] succeeds, the member it
    returns is the name of such a place in the text. *)
Theorem member_extraction (text : bytes) (Hdate : found dateRegex text) :
  (err (extractData (Body text)) = Some UsernameNotFound <->
   ~ exists name, memberLayout text name) /\
  (err (extractData (Body text)) = None ->
   memberLayout text (username (extractData (Body text)))).
Proof.
  rewrite extractData_unfold. unfold found in Hdate.
  destruct (FindStringSubmatch (MustCompile dateRegex) text) as [|d ds];
    [congruence|].
  destruct (one_group_results (MustCompile usernameRegex) text eq_refl)
    as [Hu | (uw & ug & Hu)]; rewrite Hu.
  - split; [|simpl; discriminate]. split; [|reflexivity].
    intros _ [name Hl]. apply memberLayout_found in Hl. now apply Hl.
  - pose proof (found_memberLayout _ _ _ Hu) as Hl.
    destruct (firstCapture quantityPatterns text); simpl; split;
      try (split; [discriminate | intros Hn; exfalso; apply Hn; eauto]);
      try discriminate.
    intros _. exact Hl.
Qed.

Lemma found_goodText_date : found dateRegex Sample.goodText.
Proof. unfold found. vm_compute. discriminate. Qed.

(** The theorem at the sample export: there the member is [Jane Doe]. *)
Lemma member_extraction_witness :
  memberLayout Sample.goodText (B "Jane Doe").
Proof.
  apply (proj2 (member_extraction Sample.goodText found_goodText_date)).
  vm_compute. reflexivity.
Defined.

(** C6, the claim as stated fails: with the label in lower case the member
    pattern does not match and [extractData] fails with [UsernameNotFound]
    instead of returning [Jane]; with the capitals of the pattern it returns
    [Jane]. *)
Lemma member_lowercase_counterexample :
  extractData (Body Sample.lowercaseText) = failure UsernameNotFound /\
  username (extractData (Body Sample.lowercaseText)) <> B "Jane" /\
  username (extractData (Body Sample.janeText)) = B "Jane".
Proof. vm_compute. repeat split. discriminate. Qed.

End Extractor.

Section Shapes.

Lemma quantity_found_layout p label text w q :
  MustCompile p = quantityProg label ->
  FindStringSubmatch (MustCompile p) text = [w; q] ->
  quantityLayout label text q.
Proof.
  intros Hp H. rewrite Hp in H.
  apply quantity_result in H; [|discriminate].
  destruct H as (pre & lab & q' & rest & Ht & Hl & Hq & He).
  inversion He; subst q'. exists pre, lab, rest. auto.
Qed.

Lemma quantityTable_compiles p label :
  In (p, label) quantityTable -> MustCompile p = quantityProg label.
Proof.
  unfold quantityTable. simpl.
  intros [H|[H|[H|[]]]]; inversion H; subst; reflexivity.
Qed.

Lemma quantityPatterns_labels p :
  In p quantityPatterns -> exists label, In (p, label) quantityTable.
Proof.
  unfold quantityPatterns, quantityTable. simpl.
  intros [H|[H|[H|[]]]]; subst; eauto 6.
Qed.

(** C10.  When [extractData] succeeds, the date is 19 bytes of the shape
    [dddd-dd-dd dd:dd:dd], the quantity is a non-empty run of decimal digits
    and commas, and it stands in the text right after one of the three
    labels (in any case), a carriage return and a line feed.  Moreover each
    of the three quantity patterns either has no match at all or the text
    holds its label followed by a carriage return and a line feed. *)
Theorem extracted_shapes (text : bytes)
    (Hok : err (extractData (Body text)) = None) :
  let x := extractData (Body text) in
  length (date x) = 19 /\ hasShape dateShape (date x) /\
  quantity x <> [] /\
  Forall (fun c => isQuantityChar c = true) (quantity x) /\
  (exists p label,
     In (p, label) quantityTable /\ quantityLayout label text (quantity x)) /\
  Forall (fun pl =>
            FindStringSubmatch (MustCompile (fst pl)) text = [] \/
            exists q, quantityLayout (snd pl) text q)
         quantityTable.
Proof.
  cbv zeta. rewrite extractData_unfold in *.
  assert (Htable :
    Forall (fun pl =>
              FindStringSubmatch (MustCompile (fst pl)) text = [] \/
              exists q, quantityLayout (snd pl) text q) quantityTable).
  { apply Forall_forall. intros [p label] Hin. simpl.
    pose proof (quantityTable_compiles _ _ Hin) as Hp.
    destruct (one_group_results (MustCompile p) text) as [H|(w & q & H)].
    - rewrite Hp. unfold quantityProg, litFold.
      rewrite <- (map_map foldClassOf Class). now rewrite NumSubexp_classes.
    - now left.
    - right. exists q. eapply quantity_found_layout; eauto. }
  destruct (one_group_results (MustCompile dateRegex) text eq_refl)
    as [Hd | (dw & dg & Hd)]; rewrite Hd in *; [discriminate|].
  destruct (one_group_results (MustCompile usernameRegex) text eq_refl)
    as [Hu | (uw & ug & Hu)]; rewrite Hu in *; [discriminate|].
  destruct (firstCapture quantityPatterns text) as [q|] eqn:Hq;
    [|discriminate].
  simpl. rewrite compile_dateRegex in Hd.
  apply date_result in Hd; [|discriminate].
  destruct Hd as (pre & d & rest & Ht & Hs & He). inversion He; subst dw dg.
  apply firstCapture_some in Hq. destruct Hq as (p & Hin & Hc).
  apply capture_some in Hc. destruct Hc as (Hne & w & Hf).
  destruct (quantityPatterns_labels _ Hin) as (label & Hl).
  pose proof (quantity_found_layout _ _ _ _ _
                (quantityTable_compiles _ _ Hl) Hf) as Hlay.
  repeat split; auto.
  - apply hasShape_length in Hs. exact Hs.
  - destruct Hlay as (? & ? & ? & _ & _ & Hall). exact Hall.
  - exists p, label. split; [exact Hl | exact Hlay].
Qed.

(** The theorem at the sample export. *)
Lemma extracted_shapes_witness :
  length (B "2021-05-01 12:00:00") = 19 /\
  hasShape dateShape (B "2021-05-01 12:00:00") /\
  Forall (fun c => isQuantityChar c = true) (B "1,234").
Proof.
  pose proof (extracted_shapes Sample.goodText eq_refl) as H.
  cbv zeta in H. destruct H as (Hl & Hs & _ & Hq & _).
  split; [exact Hl | split; [exact Hs | exact Hq]].
Defined.

End Shapes.

Section Priority.

(** C4 (as amended).  Once the date and the member are found, the quantity
    is decided by the three patterns in the order [Member Donation], [Type],
    [Quantity]: the capture of the first whose leftmost match has a non-empty
    capture is returned, so the [Type] capture wins over the [Quantity] one
    whenever the [Member Donation] pattern yields none; and when none of
    the three yields one, [extractData] fails with [QuantityNotFound]. *)
Theorem quantity_priority (text : bytes)
    (Hdate : found dateRegex text) (Huser : found usernameRegex text) :
  let x := extractData (Body text) in
  match capture quantityZeroRegex text,
        capture quantityFirstRegex text,
        capture quantitySecondRegex text with
  | Some q, _, _ => err x = None /\ quantity x = q
  | None, Some q, _ => err x = None /\ quantity x = q
  | None, None, Some q => err x = None /\ quantity x = q
  | None, None, None => x = failure QuantityNotFound
  end /\
  firstCapture [quantityZeroRegex; quantityFirstRegex; quantitySecondRegex]
    text
  = match err x with None => Some (quantity x) | Some _ => None end.
Proof.
  cbv zeta. rewrite extractData_unfold. unfold found in *.
  destruct (FindStringSubmatch (MustCompile dateRegex) text) as [|d ds];
    [congruence|].
  destruct (FindStringSubmatch (MustCompile usernameRegex) text) as [|u us];
    [congruence|].
  unfold quantityPatterns, firstCapture.
  destruct (capture quantityZeroRegex text);
    destruct (capture quantityFirstRegex text);
    destruct (capture quantitySecondRegex text); simpl; auto.
Qed.

Lemma found_goodText_username : found usernameRegex Sample.goodText.
Proof. unfold found. vm_compute. discriminate. Qed.

(** The theorem at the sample export, where only the [Type] layout
    occurs. *)
Lemma quantity_priority_witness :
  err (extractData (Body Sample.goodText)) = None /\
  quantity (extractData (Body Sample.goodText)) = B "1,234".
Proof.
  exact (proj1 (quantity_priority Sample.goodText found_goodText_date
                  found_goodText_username)).
Defined.

(** C4, the claim as stated fails: in this export the [Type] layout and the
    [Quantity] layout both match, with captures 8 and 9, and the quantity
    returned is neither: it is the 7 of the [Member Donation] layout. *)
Lemma quantity_priority_counterexample :
  capture quantityFirstRegex Sample.allLayoutsText = Some (B "8") /\
  capture quantitySecondRegex Sample.allLayoutsText = Some (B "9") /\
  err (extractData (Body Sample.allLayoutsText)) = None /\
  quantity (extractData (Body Sample.allLayoutsText)) = B "7" /\
  quantity (extractData (Body Sample.allLayoutsText)) <> B "8".
Proof. vm_compute. repeat split. discriminate. Qed.

End Priority.

(** ** Row identity and append *)

Section Checksum.

Lemma putLE_length k : forall n, length (md5.putLE k n) = k.
Proof. induction k as [|k IH]; simpl; intros n; [|rewrite IH]; reflexivity. Qed.

(** The digest always has 16 bytes. *)
Lemma Sum_length data : length (md5.Sum data) = 16.
Proof.
  unfold md5.Sum. cbv zeta. now rewrite !length_app, !putLE_length.
Qed.

Lemma EncodeToString_length src :
  length (hex.EncodeToString src) = 2 * length src.
Proof. induction src as [|v t IH]; simpl; [|rewrite IH; lia]; reflexivity. Qed.

Lemma hex_digits_lower v :
  isLowerHex (nth (N.to_nat (N.shiftr (N_of_ascii v) 4)) hex.hextable zero)
  = true /\
  isLowerHex (nth (N.to_nat (N.land (N_of_ascii v) 15)) hex.hextable zero)
  = true.
Proof.
  destruct v as [[] [] [] [] [] [] [] []]; vm_compute; split; reflexivity.
Qed.

Lemma EncodeToString_lower src :
  Forall (fun c => isLowerHex c = true) (hex.EncodeToString src).
Proof.
  induction src as [|v t IH]; simpl; [constructor|].
  destruct (hex_digits_lower v) as [H1 H2].
  constructor; [exact H1 | constructor; [exact H2 | exact IH]].
Qed.

(** The digests of the test suite of RFC 1321 that fit one or two blocks,
    and of the sample triple. *)
Example md5_test_suite :
  map (fun s => hex.EncodeToString (md5.Sum (B s)))
    [EmptyString; "a"; "abc"; "message digest";
     "abcdefghijklmnopqrstuvwxyz";
     "ABCDEFGHIJKLMNOPQRSTUVWXYZabcdefghijklmnopqrstuvwxyz0123456789";
     "2021-05-01 12:00:00Jane Doe1,234"]%string
  = map B
    ["d41d8cd98f00b204e9800998ecf8427e"; "0cc175b9c0f1b6a831c399e269772661";
     "900150983cd24fb0d6963f7d28e17f72"; "f96b697d7cb7938d525a2f31aaf161d0";
     "c3fcd3d76192e4007dfb496cca67e13b"; "d174ab98d277d9f5a5611c2c9f419d9f";
     "3e54e322dffb6e59e0785e73dbd5961f"]%string.
Proof. vm_compute. reflexivity. Qed.

(** C7.  Whatever the services, the state, the link and the clock, the
    checksum [appendDataToSheet] returns is the hexadecimal encoding of the
    MD5 digest of date, member and quantity put end to end: 16 bytes of
    digest, hence 32 characters, all of them decimal digits or the lower-case
    letters a to f.  It depends on the triple alone: two calls on the same
    triple return the same checksum. *)
Theorem checksum_is_md5_hex (E E' : Env) (w w' : World)
    (date name amount link link' : bytes) :
  let cs := hex.EncodeToString (md5.Sum (date ++ name ++ amount)) in
  checksumOf (appendDataToSheet E date name amount link w) = Some cs /\
  length (md5.Sum (date ++ name ++ amount)) = 16 /\
  length cs = 32 /\
  Forall (fun c => isLowerHex c = true) cs /\
  checksumOf (appendDataToSheet E' date name amount link' w')
  = checksumOf (appendDataToSheet E date name amount link w).
Proof.
  cbv zeta.
  assert (Hcs : forall E0 link0 w0,
    checksumOf (appendDataToSheet E0 date name amount link0 w0)
    = Some (hex.EncodeToString (md5.Sum (date ++ name ++ amount)))).
  { intros E0 link0 w0. unfold appendDataToSheet, bind, Values_Append, ret.
    cbv zeta.
    destruct (valuesAppend E0 (rows w0) _) as [rows' [r|e]]; cbv beta iota;
      [|reflexivity].
    destruct (negb _); reflexivity. }
  rewrite !Hcs.
  split; [reflexivity|]. split; [apply Sum_length|].
  split; [rewrite EncodeToString_length, Sum_length; reflexivity|].
  split; [apply EncodeToString_lower | reflexivity].
Qed.

End Checksum.

(** ** Parsing the updated range *)

Arguments inClass : simpl never.

Section RowId.

Lemma starLazy_to_end cl k : forall s,
  Forall (fun c => inClass cl c = true) s ->
  (forall c t, k (c :: t) = None) ->
  starLazy cl s k = k [].
Proof.
  induction s as [|c s IH]; intros Hs Hk.
  - simpl. destruct (k []); reflexivity.
  - simpl. rewrite Hk. inversion Hs; subst.
    match goal with H : inClass cl c = true |- _ => rewrite H end.
    apply IH; assumption.
Qed.

Lemma starLazy_blocked k : forall s,
  In LF s -> (forall c t, k (c :: t) = None) ->
  starLazy anyCharNotNL s k = None.
Proof.
  induction s as [|c s IH]; intros Hin Hk; [destruct Hin|].
  simpl. rewrite Hk.
  destruct (inClass anyCharNotNL c) eqn:Hc; [|reflexivity].
  apply IH; [|exact Hk].
  destruct Hin as [->|Hin]; [discriminate Hc | exact Hin].
Qed.

Lemma digit_notNL c : isDigit c = true -> notNL c = true.
Proof.
  destruct c as [[] [] [] [] [] [] [] []]; vm_compute; congruence.
Qed.

Lemma upper_notNL c : inClass upperLetters c = true -> notNL c = true.
Proof.
  destruct c as [[] [] [] [] [] [] [] []]; vm_compute; congruence.
Qed.

Lemma digit_not_colon c :
  isDigit c = true -> inClass (single ":") c = false.
Proof.
  destruct c as [[] [] [] [] [] [] [] []]; vm_compute; congruence.
Qed.

Lemma upper_not_colon c :
  inClass upperLetters c = true -> inClass (single ":") c = false.
Proof.
  destruct c as [[] [] [] [] [] [] [] []]; vm_compute; congruence.
Qed.

(** At a colon, an upper-case letter and a digit, with no line feed up to
    the end of the text, the rest of the row pattern matches and captures
    everything after the letter. *)
Lemma rowCell_hit L d tl :
  inClass upperLetters L = true -> isDigit d = true ->
  Forall (fun c => notNL c = true) tl ->
  backtrack rowCellProg (":"%char :: L :: d :: tl) [] accept
  = Some ([], [(1, d :: tl)]).
Proof.
  intros HL Hd Htl. unfold rowCellProg. simpl seqOf.
  cbn [backtrack].
  change (inClass (single ":") ":") with true. cbv iota.
  rewrite HL. unfold isDigit in Hd. rewrite Hd.
  rewrite starLazy_to_end; [| exact Htl | reflexivity].
  unfold accept. change (length (@nil ascii)) with 0.
  now rewrite Nat.sub_0_r, firstn_all.
Qed.

(** Where the text does not begin with a colon the rest of the row pattern
    fails. *)
Lemma rowCell_needs_colon s :
  match s with [] => True | c :: _ => inClass (single ":") c = false end ->
  backtrack rowCellProg s [] accept = None.
Proof.
  destruct s as [|c s]; intros H; unfold rowCellProg; simpl seqOf;
    cbn [backtrack]; [reflexivity | now rewrite H].
Qed.

(** So does it where a line feed lies ahead. *)
Lemma rowCell_blocked s :
  In LF s -> backtrack rowCellProg s [] accept = None.
Proof.
  intros Hin. unfold rowCellProg. simpl seqOf. cbn [backtrack].
  destruct s as [|c s]; [reflexivity|].
  destruct (inClass (single ":") c) eqn:Hc; [|reflexivity].
  apply inClass_single in Hc. subst c.
  destruct Hin as [Hin|Hin]; [discriminate|].
  destruct s as [|L s]; [reflexivity|].
  destruct (inClass upperLetters L) eqn:HL; [|reflexivity].
  destruct Hin as [Hin|Hin];
    [subst L; apply upper_notNL in HL; discriminate|].
  destruct s as [|d s]; [reflexivity|].
  destruct (inClass perlDigit d) eqn:Hd; [|reflexivity].
  destruct Hin as [Hin|Hin];
    [subst d; apply digit_notNL in Hd; discriminate|].
  apply starLazy_blocked; [exact Hin | reflexivity].
Qed.

Lemma starGreedy_blocked : forall s,
  In LF s ->
  starGreedy anyCharNotNL s (fun s' => backtrack rowCellProg s' [] accept)
  = None.
Proof.
  induction s as [|c s IH]; intros Hin; [destruct Hin|].
  cbn [starGreedy].
  destruct (inClass anyCharNotNL c) eqn:Hc.
  - rewrite IH; [apply rowCell_blocked; exact Hin|].
    destruct Hin as [->|Hin]; [discriminate Hc | exact Hin].
  - apply rowCell_blocked; exact Hin.
Qed.

Lemma starGreedy_no_colon : forall s,
  Forall (fun c => inClass (single ":") c = false) s ->
  starGreedy anyCharNotNL s (fun s' => backtrack rowCellProg s' [] accept)
  = None.
Proof.
  induction s as [|c s IH]; intros Hs.
  - reflexivity.
  - inversion Hs; subst. cbn [starGreedy]. rewrite (IH ltac:(assumption)).
    destruct (inClass anyCharNotNL c);
      apply rowCell_needs_colon; assumption.
Qed.

Lemma starGreedy_cons cl c s k :
  inClass cl c = true ->
  starGreedy cl (c :: s) k
  = match starGreedy cl s k with Some m => Some m | None => k (c :: s) end.
Proof. intros H. cbn [starGreedy]. now rewrite H. Qed.

Lemma starGreedy_through k m : forall pre suf,
  Forall (fun c => notNL c = true) pre ->
  starGreedy anyCharNotNL suf k = Some m ->
  starGreedy anyCharNotNL (pre ++ suf) k = Some m.
Proof.
  induction pre as [|c pre IH]; intros suf Hp Hs; [exact Hs|].
  inversion Hp; subst. simpl.
  match goal with H : notNL c = true |- _ => unfold notNL in H; rewrite H end.
  now rewrite (IH suf).
Qed.

(** On a reference that ends in a colon, an upper-case letter and digits,
    the greedy star gives back exactly up to that colon. *)
Lemma rowProg_at_cell L ds pre :
  inClass upperLetters L = true -> ds <> [] ->
  Forall (fun c => isDigit c = true) ds ->
  Forall (fun c => notNL c = true) pre ->
  backtrack rowProg (pre ++ ":"%char :: L :: ds) [] accept
  = Some ([], [(1, ds)]).
Proof.
  intros HL Hne Hds Hpre. unfold rowProg. cbn [backtrack].
  apply starGreedy_through; [exact Hpre|].
  destruct ds as [|d tl]; [congruence|]. inversion Hds; subst.
  rewrite starGreedy_cons by reflexivity.
  rewrite starGreedy_no_colon.
  - apply rowCell_hit; auto.
    eapply Forall_impl; [|eassumption]. apply digit_notNL.
  - constructor; [now apply upper_not_colon|].
    constructor; [now apply digit_not_colon|].
    eapply Forall_impl; [|eassumption]. apply digit_not_colon.
Qed.

Lemma digits_no_LF ds :
  Forall (fun c => isDigit c = true) ds -> ~ In LF ds.
Proof.
  intros H Hin. rewrite Forall_forall in H. specialize (H _ Hin).
  discriminate H.
Qed.

(** The row id read off a reference that ends in a cell name is the digits
    of the cell, wherever the reference begins. *)
Lemma rowRegex_on_cell L ds :
  inClass upperLetters L = true -> ds <> [] ->
  Forall (fun c => isDigit c = true) ds ->
  forall pre, exists w,
    FindStringSubmatch (MustCompile rowRegex) (pre ++ ":"%char :: L :: ds)
    = [w; ds].
Proof.
  intros HL Hne Hds. rewrite compile_rowRegex.
  induction pre as [|c pre IH].
  - simpl app.
    pose proof (rowProg_at_cell L ds [] HL Hne Hds (Forall_nil _)) as H.
    simpl app in H.
    destruct ds as [|d tl]; [congruence|].
    cbn [FindStringSubmatch]. rewrite H. eexists. reflexivity.
  - destruct (in_dec ascii_dec LF (c :: pre)) as [Hin|Hnin].
    + change ((c :: pre) ++ ":"%char :: L :: ds)
        with (c :: (pre ++ ":"%char :: L :: ds)).
      cbn [FindStringSubmatch].
      change (backtrack rowProg (c :: pre ++ ":"%char :: L :: ds) [] accept)
        with (starGreedy anyCharNotNL ((c :: pre) ++ ":"%char :: L :: ds)
                (fun s' => backtrack rowCellProg s' [] accept)).
      rewrite starGreedy_blocked; [exact IH|].
      apply in_or_app. now left.
    + assert (Hpre : Forall (fun x => notNL x = true) (c :: pre)).
      { apply Forall_forall. intros x Hx. apply inClass_anyCharNotNL.
        intros ->. now apply Hnin. }
      pose proof (rowProg_at_cell L ds (c :: pre) HL Hne Hds Hpre) as H.
      change ((c :: pre) ++ ":"%char :: L :: ds)
        with (c :: (pre ++ ":"%char :: L :: ds)) in *.
      cbn [FindStringSubmatch]. rewrite H. eexists. reflexivity.
Qed.

End RowId.

Section AppendRow.

Lemma rowRegex_result ref res :
  FindStringSubmatch (MustCompile rowRegex) ref = res -> res <> [] ->
  exists w id, res = [w; id] /\ rowCell ref id.
Proof.
  rewrite compile_rowRegex. intros H Hne.
  apply FindStringSubmatch_sound in H; auto.
  destruct H as (pre & w & rest & cs & -> & Hm & ->).
  unfold rowProg in Hm. inversion Hm as [| | | | |r1 r2 a w2 rest' cs1 cs2 Ha H2];
    subst; clear Hm.
  apply Matches_Star_inv in Ha. destruct Ha as [Ha ->].
  unfold rowCellProg in H2.
  apply (Matches_classes_inv [single ":"%char; upperLetters]) in H2.
  destruct H2 as (cl & w3 & -> & Hcl & H2).
  inversion Hcl as [|? colon ? cl' Hcolon Hcl2]; subst.
  inversion Hcl2 as [|? L ? cl'' HL Hcl3]; subst. inversion Hcl3; subst.
  apply inClass_single in Hcolon. subst colon.
  apply Matches_cons_inv in H2.
  destruct H2 as (id & w4 & cs3 & cs4 & -> & -> & H3 & H4).
  apply Matches_Capture_inv in H3. destruct H3 as (cs' & -> & H3).
  apply (Matches_classes_inv [perlDigit]) in H3.
  destruct H3 as (dd & tl & -> & Hd & H3).
  inversion Hd as [|? d ? dd' Hd1 Hd2]; subst. inversion Hd2; subst.
  apply Matches_cons_inv in H3.
  destruct H3 as (t1 & t2 & cs5 & cs6 & -> & -> & H5 & H6).
  apply Matches_Empty_inv in H6. destruct H6 as [-> ->].
  apply Matches_Star_inv in H5. destruct H5 as [Htl ->].
  apply Matches_cons_inv in H4.
  destruct H4 as (e1 & e2 & cs7 & cs8 & -> & -> & H7 & H8).
  apply Matches_Empty_inv in H8. destruct H8 as [-> ->].
  apply Matches_EndText_inv in H7. destruct H7 as (-> & Hrest & ->).
  simpl in Hrest. subst rest.
  rewrite !app_nil_r in *. simpl.
  eexists _, ([d] ++ t1). split; [reflexivity|].
  exists (pre ++ a), L, d, t1. repeat split; auto.
  simpl. rewrite <- !app_assoc. reflexivity.
Qed.

Lemma rowCell_found ref id : rowCell ref id -> found rowRegex ref.
Proof.
  intros (pre & L & d & tl & Href & Hid & HL & Hd & Htl) Hnil.
  unfold found in *. rewrite compile_rowRegex in Hnil. subst id.
  eapply (FindStringSubmatch_nil _ _ Hnil pre (":"%char :: L :: d :: tl) []
            [(1, d :: tl)]).
  - rewrite Href. simpl. now rewrite app_nil_r.
  - unfold rowProg.
    eapply (MConcat_eq _ _ _ [] (":"%char :: L :: d :: tl) [] _ []
              [(1, d :: tl)]);
      [reflexivity | reflexivity | constructor; constructor |].
    unfold rowCellProg.
    apply (Matches_classes_intro [single ":"%char; upperLetters] _
             [":"%char; L] (d :: tl)).
    { constructor; [now apply inClass_single|].
      constructor; [exact HL | constructor]. }
    simpl seqOf.
    eapply (MConcat_eq _ _ _ (d :: tl) [] [] _ [(1, d :: tl)] []);
      [symmetry; apply app_nil_r | reflexivity | |].
    + constructor.
      eapply (MConcat_eq _ _ _ [d] tl _ _ [] []);
        [reflexivity | reflexivity | constructor; exact Hd |].
      eapply (MConcat_eq _ _ _ tl [] _ _ [] []);
        [symmetry; apply app_nil_r | reflexivity | constructor; exact Htl
        | constructor].
    + eapply (MConcat_eq _ _ _ [] [] [] _ [] []);
        [reflexivity | reflexivity | constructor | constructor].
Qed.

(** C8 (as amended).  After an append that the spreadsheet answers with the
    reference [ref], the row is in the sheet whatever [ref] is, and the
    checksum is returned in every case.  The row id is read off the end of
    [ref]: a colon, an upper-case letter, then a digit followed by any bytes
    but a line feed, up to the end; everything after the letter is the id.
    For a reference that ends in a colon, an upper-case letter and digits,
    the id is those digits.  When [ref] has no such end, the call fails
    with [RowParseError]. *)
Theorem row_id_from_reference (E : Env) (w : World)
    (date name amount link : bytes) (rows' : list sheets.Row) (ref : bytes)
    (Happend :
       valuesAppend E (rows w)
         [hex.EncodeToString (md5.Sum (date ++ name ++ amount));
          timeNow E; date; name; amount; link]
       = (rows', inl (sheets.mkResponse ref))) :
  let cs := hex.EncodeToString (md5.Sum (date ++ name ++ amount)) in
  let out := appendDataToSheet E date name amount link w in
  let w' := mkWorld (files w) rows' in
  (forall ds, endsInCell ref ds -> out = Return (ds, cs, None) w') /\
  ((exists id, rowCell ref id) ->
   exists id, rowCell ref id /\ out = Return (id, cs, None) w') /\
  (~ (exists id, rowCell ref id) ->
   out = Return ([], cs, Some RowParseError) w').
Proof.
  cbv zeta.
  assert (Hout :
    appendDataToSheet E date name amount link w
    = if negb (length (FindStringSubmatch (MustCompile rowRegex) ref) =? 2)
      then Return ([], hex.EncodeToString (md5.Sum (date ++ name ++ amount)),
                   Some RowParseError) (mkWorld (files w) rows')
      else Return (nth 1 (FindStringSubmatch (MustCompile rowRegex) ref) [],
                   hex.EncodeToString (md5.Sum (date ++ name ++ amount)),
                   None) (mkWorld (files w) rows')).
  { unfold appendDataToSheet, bind, Values_Append, ret. cbv zeta.
    rewrite Happend. cbv beta iota.
    change (sheets.UpdatedRange (sheets.mkResponse ref)) with ref.
    destruct (negb _); reflexivity. }
  rewrite Hout. clear Hout.
  split; [|split].
  - intros ds (pre & L & Href & HL & Hne & Hds).
    destruct (rowRegex_on_cell L ds HL Hne Hds pre) as [wh Hf].
    rewrite Href. change (B ":" ++ [L] ++ ds) with (":"%char :: L :: ds).
    now rewrite Hf.
  - intros [id Hid]. apply rowCell_found in Hid. unfold found in Hid.
    destruct (rowRegex_result ref _ eq_refl Hid) as (wh & id' & Hf & Hc).
    rewrite Hf. exists id'. split; [exact Hc | reflexivity].
  - intros Hno.
    destruct (FindStringSubmatch (MustCompile rowRegex) ref) as [|a l] eqn:Hf;
      [reflexivity|].
    exfalso. apply Hno.
    destruct (rowRegex_result ref _ Hf ltac:(discriminate))
      as (wh & id' & _ & Hc).
    eauto.
Qed.

(** The theorem at the sample run, where the sheet answers with the cells
    of row 2. *)
Lemma row_id_from_reference_witness :
  appendDataToSheet (Sample.env Sample.goodText) (B "2021-05-01 12:00:00")
    (B "Jane Doe") (B "1,234") (B "link") (Sample.world 4 2)
  = Return (B "2", B "3e54e322dffb6e59e0785e73dbd5961f", None)
      (mkWorld (files (Sample.world 4 2))
         [Sample.headers;
          [B "3e54e322dffb6e59e0785e73dbd5961f"; B "05-02-2021 09:30:00";
           B "2021-05-01 12:00:00"; B "Jane Doe"; B "1,234"; B "link"]]).
Proof.
  pose proof (row_id_from_reference (Sample.env Sample.goodText)
                (Sample.world 4 2) (B "2021-05-01 12:00:00") (B "Jane Doe")
                (B "1,234") (B "link") _ (B "Sheet1!A2:F2") eq_refl) as H.
  cbv zeta in H. destruct H as [H _].
  rewrite (H (B "2")).
  - vm_compute. reflexivity.
  - exists (B "Sheet1!A2"), "F"%char.
    split; [reflexivity|]. split; [reflexivity|].
    split; [discriminate|]. repeat constructor.
Defined.

(** C8, the claim as stated fails: this reference does not end in a colon,
    a letter and digits, and still the call reports no error; the row id it
    returns is not a run of digits. *)
Lemma row_id_counterexample :
  (~ exists ds, endsInCell (B "Sheet1!A2:F2x") ds) /\
  appendDataToSheet (Sample.env_answering (B "Sheet1!A2:F2x"))
    (B "2021-05-01 12:00:00") (B "Jane Doe") (B "1,234") (B "link")
    (Sample.world 4 2)
  = Return (B "2x", B "3e54e322dffb6e59e0785e73dbd5961f", None)
      (mkWorld (files (Sample.world 4 2))
         [Sample.headers;
          [B "3e54e322dffb6e59e0785e73dbd5961f"; B "05-02-2021 09:30:00";
           B "2021-05-01 12:00:00"; B "Jane Doe"; B "1,234"; B "link"]]).
Proof.
  split; [|vm_compute; reflexivity].
  intros (ds & pre & L & Href & _ & Hne & Hds).
  destruct (exists_last Hne) as (ds' & c & ->).
  apply Forall_app in Hds. destruct Hds as [_ Hc].
  inversion Hc as [|? ? Hd _]; subst.
  apply (f_equal (@rev ascii)) in Href.
  rewrite !rev_app_distr in Href. simpl in Href.
  inversion Href; subst c. discriminate Hd.
Qed.

End AppendRow.

(** ** The image cropper *)

Section Cropper.

Import image.
Open Scope Z_scope.

Lemma Intersect_eq r s :
  Intersect r s =
  let r' :=
    mkRectangle
      (mkPoint (Z.max (X (Min r)) (X (Min s))) (Z.max (Y (Min r)) (Y (Min s))))
      (mkPoint (Z.min (X (Max r)) (X (Max s))) (Z.min (Y (Max r)) (Y (Max s))))
  in if isEmptyRect r' then ZR else r'.
Proof.
  unfold Intersect. cbv zeta.
  assert (Hmax : forall a b, (if a <? b then b else a) = Z.max a b)
    by (intros a b; destruct (Z.ltb_spec a b); lia).
  assert (Hmin : forall a b, (if a >? b then b else a) = Z.min a b)
    by (intros a b; rewrite Z.gtb_ltb; destruct (Z.ltb_spec b a); lia).
  now rewrite !Hmax, !Hmin.
Qed.

Lemma isEmptyRect_false r :
  X (Min r) < X (Max r) -> Y (Min r) < Y (Max r) -> isEmptyRect r = false.
Proof.
  intros Hx Hy. unfold isEmptyRect. rewrite !Z.geb_leb.
  destruct (Z.leb_spec (X (Max r)) (X (Min r))); [lia|].
  destruct (Z.leb_spec (Y (Max r)) (Y (Min r))); [lia|]. reflexivity.
Qed.

(** What [cutter.Crop] keeps of an image when asked for a width [cw] within
    the image and the whole height: the columns from the left edge on. *)
Lemma Crop_left (x0 y0 x1 y1 cw : Z) (pix : Z -> Z -> Color) :
  0 < cw <= x1 - x0 -> y0 < y1 ->
  cutter.Crop (mkImage (mkRectangle (mkPoint x0 y0) (mkPoint x1 y1)) pix)
    (cutter.mkConfig cw (y1 - y0))
  = mkImage (mkRectangle (mkPoint x0 y0) (mkPoint (x0 + cw) y1)) pix.
Proof.
  intros Hcw Hy. unfold cutter.Crop.
  cbn [cutter.Width cutter.Height Bounds Min Max X Y].
  assert (Hcut :
    Intersect (mkRectangle (mkPoint x0 y0) (mkPoint x1 y1))
      (Rect x0 y0 (x0 + cw) (y0 + (y1 - y0)))
    = mkRectangle (mkPoint x0 y0) (mkPoint (x0 + cw) y1)).
  { rewrite Intersect_eq. unfold Rect. cbv zeta. cbn [Min Max X Y].
    order_bounds.
    rewrite isEmptyRect_false by (cbn [Min Max X Y]; lia). reflexivity. }
  rewrite Hcut. unfold SubImage. cbn [Bounds].
  assert (Hsub :
    Intersect (mkRectangle (mkPoint x0 y0) (mkPoint (x0 + cw) y1))
      (mkRectangle (mkPoint x0 y0) (mkPoint x1 y1))
    = mkRectangle (mkPoint x0 y0) (mkPoint (x0 + cw) y1)).
  { rewrite Intersect_eq. cbv zeta. cbn [Min Max X Y].
    order_bounds.
    rewrite isEmptyRect_false by (cbn [Min Max X Y]; lia). reflexivity. }
  rewrite Hsub.
  rewrite isEmptyRect_false by (cbn [Min Max X Y]; lia).
  reflexivity.
Qed.

(** C9 (as amended).  For a stored picture that decodes to an image of
    width [W] and height [H], with [W] at least 2, [H] at least 1 and both
    below the encoder's limit, [cropImage] returns a PNG stream of width
    [W / 2] (rounded down) and height [H] whose pixels are those of the
    left half of the image, counted from its top-left corner; the state is
    left as it was. *)
Theorem crop_left_half (w : World) (file meta : drive.File)
    (img : Image)
    (Hstored :
       drive.lookup (drive.Id file) (files w)
       = Some (drive.mkEntry meta (drive.Picture (Some img))))
    (Hwidth : 2 <= Dx (Bounds img) < 2 ^ 32)
    (Hheight : 1 <= Dy (Bounds img) < 2 ^ 32) :
  exists buf,
    cropImage file w = Return (buf, None) w /\
    png.Width buf = Dx (Bounds img) / 2 /\
    png.Height buf = Dy (Bounds img) /\
    forall x y,
      0 <= x < Dx (Bounds img) / 2 -> 0 <= y < Dy (Bounds img) ->
      png.Pixel buf x y
      = At img (X (Min (Bounds img)) + x) (Y (Min (Bounds img)) + y).
Proof.
  destruct img as [[[x0 y0] [x1 y1]] pix].
  unfold Dx, Dy in *. cbn [Bounds Min Max X Y] in *.
  assert (Hq : Z.quot (x1 - x0) 2 = (x1 - x0) / 2)
    by (apply Z.quot_div_nonneg; lia).
  assert (Hhalf : 1 <= (x1 - x0) / 2 <= x1 - x0).
  { split.
    - apply Z.div_le_lower_bound; lia.
    - apply Z.div_le_upper_bound; lia. }
  unfold cropImage, bind, Files_Download. rewrite Hstored.
  cbn [DecodeConfig image.Width image.Height Bounds].
  unfold Dx, Dy. cbn [Min Max X Y]. rewrite Hq.
  set (q := (x1 - x0) / 2) in *.
  rewrite Crop_left by lia.
  unfold png.Encode, Dx, Dy. cbn [Bounds Min Max X Y].
  replace (x0 + q - x0) with q by lia.
  destruct (Z.leb_spec q 0); [lia|].
  destruct (Z.leb_spec (y1 - y0) 0); [lia|].
  rewrite !Z.geb_leb.
  destruct (Z.leb_spec (2 ^ 32) q); [lia|].
  destruct (Z.leb_spec (2 ^ 32) (y1 - y0)); [lia|].
  cbn [orb]. eexists. split; [reflexivity|].
  cbn [png.Width png.Height png.Pixel].
  split; [reflexivity|]. split; [reflexivity|].
  intros x y Hx Hy. unfold At, In. cbn [Bounds Min Max X Y].
  destruct (Z.leb_spec x0 (x0 + x)); [|lia].
  destruct (Z.ltb_spec (x0 + x) (x0 + q)); [|lia].
  destruct (Z.ltb_spec (x0 + x) x1); [|lia].
  destruct (Z.leb_spec y0 (y0 + y)); [|lia].
  destruct (Z.ltb_spec (y0 + y) y1); [|lia].
  reflexivity.
Qed.

Lemma sample_picture_stored :
  drive.lookup (drive.Id Sample.shot) (files (Sample.world 4 2))
  = Some (drive.mkEntry Sample.shot
            (drive.Picture (Some (Sample.picture 4 2)))).
Proof. reflexivity. Qed.

(** The theorem at the sample picture, 4 pixels by 2: the stream is 2 by 2
    and its pixel (1, 1) is the pixel (1, 1) of the picture. *)
Lemma crop_left_half_witness :
  exists buf,
    cropImage Sample.shot (Sample.world 4 2)
    = Return (buf, None) (Sample.world 4 2) /\
    png.Width buf = 2 /\ png.Height buf = 2 /\ png.Pixel buf 1 1 = 1001.
Proof.
  destruct (crop_left_half (Sample.world 4 2)
              Sample.shot Sample.shot (Sample.picture 4 2)
              sample_picture_stored
              ltac:(vm_compute; split; [discriminate | reflexivity])
              ltac:(vm_compute; split; [discriminate | reflexivity]))
    as (buf & Hrun & Hw & Hh & Hpix).
  exists buf. split; [exact Hrun|]. split; [exact Hw|]. split; [exact Hh|].
  rewrite (Hpix 1 1); [reflexivity | vm_compute; split; congruence
                      | vm_compute; split; congruence].
Defined.

(** C9, the claim as stated fails: a picture one pixel wide decodes, its
    left half has no width, the encoder refuses it and [cropImage] ends the
    process instead of returning a stream. *)
Lemma crop_counterexample :
  Dx (Bounds (Sample.picture 1 2)) = 1 /\
  Dy (Bounds (Sample.picture 1 2)) = 2 /\
  cropImage Sample.shot (Sample.world 1 2)
  = Exit "png.Encode" (Sample.world 1 2).
Proof. vm_compute. repeat split. Qed.

End Cropper.

(** ** Goroutines under the scheduler *)

Section Goroutines.

Import drive.

Lemma run_bindGo : forall (A : Type) (t : Go A) (C : Type) (f : A -> Go C) w,
  run (bindGo t f) w = bind (run t) (fun a => run (f a)) w.
Proof.
  intros A t.
  induction t as [A a|A X op k IH|A child _ k IH]; intros C f w;
    cbn [bindGo run].
  - reflexivity.
  - unfold bind. destruct (op w) as [x w'|msg w']; [|reflexivity].
    apply IH.
  - unfold bind. destruct (run child w) as [x w'|msg w']; [|reflexivity].
    apply IH.
Qed.

Lemma run_call {X : Type} (op : M X) w : run (call op) w = op w.
Proof.
  cbn [run call]. unfold bind, ret. destruct (op w); reflexivity.
Qed.

Lemma run_fatal {A : Type} msg w : run (fatal (A:=A) msg) w = Exit msg w.
Proof. reflexivity. Qed.

Lemma drain_pure : forall pool w,
  Forall isPure pool -> drain pool w = Return tt w.
Proof.
  induction pool as [|t pool IH]; intros w H; [reflexivity|].
  inversion H as [|? ? Ht Hp]; subst. destruct t; try contradiction.
  cbn [drain run]. unfold bind, ret. now apply IH.
Qed.

Lemma drain_solo (pre post : Pool) (t : Go unit) w :
  Forall isPure pre -> Forall isPure post ->
  drain (pre ++ t :: post) w = run t w.
Proof.
  intros Hpre Hpost. induction Hpre as [|p pre Hp _ IH].
  - cbn [app drain]. unfold bind.
    destruct (run t w) as [[] w'|msg w']; [|reflexivity].
    now apply drain_pure.
  - destruct p; try contradiction. cbn [app drain run]. exact IH.
Qed.

(** Every run of a pool is its run under the scheduler of some picks. *)
Lemma schedule_covers pool w o :
  runs pool w o -> exists picks, schedule picks pool w = o.
Proof.
  induction 1 as [pool w Hdone|n pool w pool' w' o Hturn _ IH
                 |n pool w msg w' Hturn].
  - exists []. now apply drain_pure.
  - destruct IH as [picks Hp]. exists (n :: picks).
    cbn [schedule]. now rewrite Hturn.
  - exists [n]. cbn [schedule]. now rewrite Hturn.
Qed.

Lemma noSpawn_serialAt : forall (A : Type) (t : Go A) w,
  noSpawn t -> serialAt t w.
Proof.
  intros A t.
  induction t as [A a|A X op k IH|A child _ k _]; intros w H; cbn in *.
  - exact I.
  - destruct (op w); [apply IH, H | exact I].
  - contradiction.
Qed.

Lemma noSpawn_bindGo : forall (A : Type) (t : Go A) (C : Type)
    (f : A -> Go C),
  noSpawn t -> (forall a, noSpawn (f a)) -> noSpawn (bindGo t f).
Proof.
  intros A t.
  induction t as [A a|A X op k IH|A child _ k _]; cbn; intros C f Ht Hf;
    auto.
Qed.

Lemma setNth_app (pre post : Pool) (t t' : Go unit) :
  setNth (length pre) t' (pre ++ t :: post) = pre ++ t' :: post.
Proof. induction pre as [|p pre IH]; cbn; [reflexivity | now rewrite IH]. Qed.

Lemma nth_error_pure (pool : Pool) n t :
  Forall isPure pool -> nth_error pool n = Some t -> isPure t.
Proof.
  intros H Hn. apply nth_error_In in Hn.
  rewrite Forall_forall in H. now apply H.
Qed.

(** A turn of a goroutine that is done, or that is not there, is no
    move. *)
Lemma turn_pure n pool w t :
  nth_error pool n = Some t -> isPure t -> turn n pool w = Skipped.
Proof.
  intros Hn Ht. unfold turn. rewrite Hn. destruct t; [reflexivity | | ];
    contradiction.
Qed.

Lemma turn_none n pool w :
  nth_error pool n = None -> turn n pool w = Skipped.
Proof. intros Hn. unfold turn. now rewrite Hn. Qed.

(** With one goroutine at work at a time, the scheduler has no choice:
    whatever the picks, the process goes as that goroutine goes alone. *)
Lemma schedule_solo : forall picks (pre post : Pool) (t : Go unit) w,
  Forall isPure pre -> Forall isPure post -> serialAt t w ->
  schedule picks (pre ++ t :: post) w = run t w.
Proof.
  induction picks as [|n picks IH]; intros pre post t w Hpre Hpost Hs.
  - now apply drain_solo.
  - cbn [schedule].
    destruct (Nat.lt_trichotomy n (length pre)) as [Hlt|[Heq|Hgt]].
    + destruct (nth_error pre n) as [p|] eqn:Hn;
        [|apply nth_error_None in Hn; lia].
      rewrite (turn_pure n _ w p);
        [ now apply IH
        | rewrite nth_error_app1 by exact Hlt; exact Hn
        | exact (nth_error_pure pre n p Hpre Hn) ].
    + subst n. unfold turn.
      rewrite nth_error_app2 by lia. rewrite Nat.sub_diag. cbn [nth_error].
      destruct t as [a|X op k|child k].
      * now apply IH.
      * cbn [serialAt] in Hs. cbn [run]. unfold bind.
        destruct (op w) as [x w'|msg w']; [|reflexivity].
        rewrite setNth_app. now apply IH.
      * cbn [serialAt] in Hs. destruct Hs as [Hk Hc].
        rewrite setNth_app.
        replace ((pre ++ k :: post) ++ [child])
          with ((pre ++ k :: post) ++ child :: []) by reflexivity.
        rewrite IH.
        -- destruct k; try contradiction. cbn [run]. unfold bind, ret.
           destruct (run child w) as [[] w'|msg w'];
             [destruct a|]; reflexivity.
        -- apply Forall_app. split; [exact Hpre|]. now constructor.
        -- constructor.
        -- now apply noSpawn_serialAt.
    + destruct (nth_error (pre ++ t :: post) n) as [p|] eqn:Hn.
      * rewrite (turn_pure n _ w p Hn); [now apply IH|].
        rewrite nth_error_app2 in Hn by lia.
        destruct (n - length pre) as [|m] eqn:Hm; [lia|].
        cbn [nth_error] in Hn. exact (nth_error_pure post m p Hpost Hn).
      * rewrite (turn_none n _ w Hn). now apply IH.
Qed.

Lemma Forall_setNth (P : Go unit -> Prop) t : forall n (pool : Pool),
  Forall P pool -> P t -> Forall P (setNth n t pool).
Proof.
  intros n pool H Ht. revert n.
  induction H as [|p pool Hp Hpool IH]; intros n; cbn [setNth];
    [constructor|].
  destruct n; constructor; auto.
Qed.

Lemma never_bindGo msg : forall (A : Type) (t : Go A) (C : Type)
    (f : A -> Go C),
  never msg t -> (forall a, never msg (f a)) -> never msg (bindGo t f).
Proof.
  intros A t.
  induction t as [A a|A X op k IH|A child _ k IH]; cbn; intros C f Ht Hf;
    auto.
  - intros w. specialize (Ht w). destruct (op w); auto.
  - destruct Ht. split; auto.
Qed.

Lemma never_run msg : forall (A : Type) (t : Go A) w,
  never msg t -> exitMessage (run t w) <> Some msg.
Proof.
  intros A t.
  induction t as [A a|A X op k IH|A child IHc k IHk]; intros w H; cbn [run].
  - discriminate.
  - cbn [never] in H. specialize (H w). unfold bind.
    destruct (op w) as [x w'|m w']; [now apply IH|].
    cbn. congruence.
  - cbn [never] in H. destruct H as [Hc Hk]. unfold bind.
    pose proof (IHc w Hc) as Hcw.
    destruct (run child w) as [x w'|m w']; [now apply IHk | exact Hcw].
Qed.

Lemma never_drain msg : forall pool w,
  Forall (never msg) pool -> exitMessage (drain pool w) <> Some msg.
Proof.
  induction pool as [|t pool IH]; intros w H; cbn [drain]; [discriminate|].
  inversion H as [|? ? Ht Hp]; subst. unfold bind.
  pose proof (never_run msg _ t w Ht) as Htw.
  destruct (run t w) as [x w'|m w']; [now apply IH | exact Htw].
Qed.

(** What no goroutine of the pool does, the process does not do, whatever
    the scheduler. *)
Lemma never_schedule msg : forall picks pool w,
  Forall (never msg) pool ->
  exitMessage (schedule picks pool w) <> Some msg.
Proof.
  induction picks as [|n picks IH]; intros pool w H; cbn [schedule].
  - now apply never_drain.
  - unfold turn. destruct (nth_error pool n) as [t|] eqn:Hn; [|now apply IH].
    assert (Ht : never msg t).
    { rewrite Forall_forall in H. apply H. eapply nth_error_In; eauto. }
    destruct t as [a|X op k|child k].
    + now apply IH.
    + cbn [never] in Ht. specialize (Ht w).
      destruct (op w) as [x w'|m w'].
      * apply IH. now apply Forall_setNth.
      * cbn. congruence.
    + cbn [never] in Ht. destruct Ht as [Hc Hk]. apply IH.
      apply Forall_app. split; [now apply Forall_setNth|].
      now constructor.
Qed.

Lemma bind_cong {A C : Type} (m m' : M A) (k k' : A -> M C) w :
  m w = m' w -> (forall a w', k a w' = k' a w') ->
  bind m k w = bind m' k' w.
Proof.
  intros Hm Hk. unfold bind. rewrite Hm.
  destruct (m' w) as [a w'|msg w']; [apply Hk | reflexivity].
Qed.

(** Run on its own, a function written move by move is the function. *)
Lemma run_cropImage_steps file w :
  run (cropImage_steps file) w = cropImage file w.
Proof.
  unfold cropImage_steps, cropImage. rewrite run_bindGo.
  apply bind_cong; [apply run_call|].
  intros [decoded e] w'. destruct e as [e|]; [reflexivity|].
  destruct decoded as [img|]; [|reflexivity].
  cbv zeta. destruct (png.Encode _); reflexivity.
Qed.

Lemma run_Main_func1_settle_steps E fd f r x w :
  run (Main_func1_settle_steps E fd f r x) w
  = Main_func1_settle E fd f r x w.
Proof.
  destruct x as [d u q e].
  unfold Main_func1_settle_steps, Main_func1_settle.
  rewrite run_bindGo. apply bind_cong.
  - destruct (isSome e).
    + rewrite run_bindGo. apply bind_cong; [apply run_call|].
      intros [f1 e1] w1. destruct (isSome e1); [reflexivity|].
      rewrite run_bindGo. apply bind_cong; [apply run_call|].
      intros [f2 e2] w2. destruct (isSome e2); reflexivity.
    + rewrite run_bindGo. apply bind_cong; [apply run_call|].
      intros [f1 e1] w1. destruct (isSome e1); reflexivity.
  - intros [] w1. rewrite run_bindGo. apply bind_cong; [apply run_call|].
    intros [[rowID cs] ea] w2.
    destruct (isEmpty cs && isSome ea); [reflexivity|].
    destruct (isSome ea); [reflexivity|].
    rewrite run_bindGo. apply bind_cong; [apply run_call|].
    intros [r2 e2] w3.
    rewrite run_bindGo. apply bind_cong; [apply run_call|].
    intros [r3 e3] w4. reflexivity.
Qed.

Lemma run_Main_func1_steps E fd w :
  run (Main_func1_steps E fd) w = Main_func1 E fd w.
Proof.
  unfold Main_func1_steps, Main_func1. cbv zeta.
  rewrite run_bindGo. apply bind_cong; [apply run_cropImage_steps|].
  intros [img e] w1.
  rewrite run_bindGo. apply bind_cong; [apply run_call|].
  intros [r e1] w2. destruct (isSome e1); [reflexivity|].
  rewrite run_bindGo. apply bind_cong; [apply run_call|].
  intros [textDoc e2] w3. destruct (isSome e2); [reflexivity|].
  apply run_Main_func1_settle_steps.
Qed.

Lemma noSpawn_call {X : Type} (op : M X) : noSpawn (call op).
Proof. intros x. exact I. Qed.

Lemma noSpawn_fatal {A : Type} msg : noSpawn (fatal (A:=A) msg).
Proof. intros x. exact I. Qed.

Lemma noSpawn_Main_func1_steps E fd : noSpawn (Main_func1_steps E fd).
Proof.
  unfold Main_func1_steps. cbv zeta. apply noSpawn_bindGo.
  { unfold cropImage_steps. apply noSpawn_bindGo; [apply noSpawn_call|].
    intros [decoded e]. destruct e; [apply noSpawn_fatal|].
    destruct decoded; [|apply noSpawn_fatal].
    cbv zeta. destruct (png.Encode _); [exact I | apply noSpawn_fatal]. }
  intros [img e]. apply noSpawn_bindGo; [apply noSpawn_call|].
  intros [r e1]. destruct (isSome e1); [apply noSpawn_fatal|].
  apply noSpawn_bindGo; [apply noSpawn_call|].
  intros [textDoc e2]. destruct (isSome e2); [apply noSpawn_fatal|].
  destruct (extractData textDoc) as [d u q e3].
  unfold Main_func1_settle_steps. apply noSpawn_bindGo.
  { destruct (isSome e3).
    - apply noSpawn_bindGo; [apply noSpawn_call|].
      intros [f1 x1]. destruct (isSome x1); [apply noSpawn_fatal|].
      apply noSpawn_bindGo; [apply noSpawn_call|].
      intros [f2 x2]. destruct (isSome x2); [apply noSpawn_fatal | exact I].
    - apply noSpawn_bindGo; [apply noSpawn_call|].
      intros [f1 x1]. destruct (isSome x1); [apply noSpawn_fatal | exact I]. }
  intros []. apply noSpawn_bindGo; [apply noSpawn_call|].
  intros [[rowID cs] ea].
  destruct (isEmpty cs && isSome ea); [apply noSpawn_fatal|].
  destruct (isSome ea); [apply noSpawn_fatal|].
  apply noSpawn_bindGo; [apply noSpawn_call|].
  intros [r2 x2]. apply noSpawn_bindGo; [apply noSpawn_call|].
  intros [r3 x3]. exact I.
Qed.

(** With at most one file listed, [Main] has one goroutine at work at a
    time, and goes the same way under every scheduler. *)
Lemma Main_alone E picks w :
  (forall cs e w',
     getFilesFromFolder (UploadFolderID E) false w = Return (cs, e) w' ->
     length cs <= 1) ->
  Main E picks w = run (Main_steps E) w.
Proof.
  intros Hone. unfold Main.
  apply (schedule_solo picks [] [] (Main_steps E) w);
    [constructor | constructor |].
  unfold Main_steps. cbn [bindGo call serialAt].
  destruct (getFilesFromFolder (UploadFolderID E) false w)
    as [[cs e] w'|msg w'] eqn:Hl; [|exact I].
  specialize (Hone cs e w' eq_refl).
  destruct (isSome e); [exact I|].
  destruct cs as [|c [|c2 cs]]; [exact I | | simpl in Hone; lia].
  cbn [Main_loop bindGo call serialAt].
  destruct (Files_Get (Id c) w') as [[fd e1] w2|msg w2]; [|exact I].
  destruct (isSome e1); [exact I|].
  cbn [go bindGo serialAt isPure]. split; [exact I|].
  apply noSpawn_Main_func1_steps.
Qed.

(** [Main] run on its own: the listing, and then for each file the get and
    the unit of work, one file after the other. *)
Lemma run_Main_loop E : forall cs w,
  run (Main_loop E cs) w
  = match cs with
    | [] => Return tt w
    | c :: cs' =>
        bind (Files_Get (Id c))
          (fun x => let '(fd, e) := x in
             if isSome e then Fatalf "Failed to get file"
             else bind (Main_func1 E fd) (fun _ => run (Main_loop E cs')))
          w
    end.
Proof.
  intros [|c cs] w; [reflexivity|].
  cbn [Main_loop]. rewrite run_bindGo.
  apply bind_cong; [apply run_call|].
  intros [fd e] w1. destruct (isSome e); [reflexivity|].
  rewrite run_bindGo. unfold go. cbn [run].
  unfold bind at 1 2. rewrite run_Main_func1_steps. unfold bind, ret.
  destruct (Main_func1 E fd w1) as [[] w2|msg w2]; reflexivity.
Qed.

Lemma run_Main_steps E w :
  run (Main_steps E) w
  = bind (getFilesFromFolder (UploadFolderID E) false)
      (fun x => let '(cs, e) := x in
         if isSome e then Fatalf "Failed to get files from folder"
         else run (Main_loop E cs))
      w.
Proof.
  unfold Main_steps. rewrite run_bindGo.
  apply bind_cong; [apply run_call|].
  intros [cs e] w1. destruct (isSome e); reflexivity.
Qed.

End Goroutines.

(** ** The unit of work of Main, on the sample run *)

Section SampleRun.

Import drive.

(** Up to the call of [extractData], the run creates the document under the
    processed folder and leaves everything else as it was, whatever the
    scheduler. *)
Lemma sample_run picks text :
  Main (Sample.env text) picks (Sample.world 4 2)
  = (Main_func1_settle (Sample.env text) Sample.shot Sample.template
       Sample.created (extractData (Body text)) ;; ret tt)
      (Sample.world_created text).
Proof.
  rewrite Main_alone.
  - rewrite run_Main_steps.
    unfold bind at 1.
    change (getFilesFromFolder (UploadFolderID (Sample.env text)) false
              (Sample.world 4 2))
      with (Return ([Sample.shot], @None error) (Sample.world 4 2)).
    cbv beta iota. cbn [isSome]. rewrite run_Main_loop. reflexivity.
  - intros cs e w' H. vm_compute in H. inversion H. simpl. lia.
Qed.

(** C1, what the code does where the claim asks for no row: the export has
    no date, member or quantity to extract, the branch that moves the files
    to the failed folder does not return, and the append that follows
    writes a row of empty strings under the checksum of the empty string.
    With one file listed the scheduler has no choice, and this is the run
    under every [picks]. *)
Theorem failed_extraction_appends_row (picks : list nat) (text : bytes)
    (Hfail : err (extractData (Body text)) <> None) :
  let o := Main (Sample.env text) picks (Sample.world 4 2) in
  returned o = true /\
  rows (worldOf o)
  = [Sample.headers;
     [B "d41d8cd98f00b204e9800998ecf8427e"; B "05-02-2021 09:30:00";
      []; []; []; B "https://docs.example/doc1"]].
Proof.
  cbv zeta. rewrite sample_run.
  destruct (err (extractData (Body text))) as [e|] eqn:He; [|congruence].
  rewrite (extractData_failure _ _ He).
  vm_compute. split; reflexivity.
Qed.

(** The theorem at an export without a date. *)
Lemma failed_extraction_appends_row_witness :
  length (rows (worldOf (Main (Sample.env Sample.noDateText) [0; 1; 1; 0]
                           (Sample.world 4 2)))) = 2.
Proof.
  rewrite (proj2 (failed_extraction_appends_row [0; 1; 1; 0]
                    Sample.noDateText ltac:(vm_compute; discriminate))).
  reflexivity.
Defined.

(** C3, what the code does where the claim asks for exactly one folder: on
    a failed extraction the picture goes from the upload folder to the
    failed one, but the document, created under the processed folder, is
    moved "from" the upload folder, so it keeps the processed folder and
    gains the failed one, under every scheduler. *)
Theorem failed_extraction_document_in_both (picks : list nat) (text : bytes)
    (Hfail : err (extractData (Body text)) <> None) :
  let o := Main (Sample.env text) picks (Sample.world 4 2) in
  returned o = true /\
  parentsOf (B "img1") (worldOf o) = [B "failed"] /\
  parentsOf (B "doc1") (worldOf o) = [B "processed"; B "failed"].
Proof.
  cbv zeta. rewrite sample_run.
  destruct (err (extractData (Body text))) as [e|] eqn:He; [|congruence].
  rewrite (extractData_failure _ _ He).
  vm_compute. repeat split.
Qed.

Lemma failed_extraction_document_in_both_witness :
  parentsOf (B "doc1")
    (worldOf (Main (Sample.env Sample.noDateText) [1; 0; 1]
                (Sample.world 4 2)))
  = [B "processed"; B "failed"].
Proof.
  exact (proj2 (proj2 (failed_extraction_document_in_both [1; 0; 1]
                         Sample.noDateText
                         ltac:(vm_compute; discriminate)))).
Defined.

(** C5, what the code does where the claim asks for both files to be
    renamed: after a successful extraction and append the document gets the
    name made of the row id, its title and the checksum; the second call of
    [renameFile] is handed the struct the document was created from, which
    has no id, so the store changes nothing and the picture keeps its
    title, under every scheduler. *)
Theorem source_file_keeps_its_title (picks : list nat) (text : bytes)
    (Hok : err (extractData (Body text)) = None) :
  let x := extractData (Body text) in
  let cs :=
    hex.EncodeToString (md5.Sum (date x ++ username x ++ quantity x)) in
  let o := Main (Sample.env text) picks (Sample.world 4 2) in
  returned o = true /\
  titleOf (B "doc1") (worldOf o) = B "2-shot.png_results-" ++ cs /\
  titleOf (B "img1") (worldOf o) = B "shot.png".
Proof.
  cbv zeta. rewrite sample_run.
  destruct (extractData (Body text)) as [d u q e]. simpl in Hok. subst e.
  cbn [date username quantity].
  unfold Main_func1_settle, appendDataToSheet. cbv beta iota zeta.
  generalize (hex.EncodeToString (md5.Sum (d ++ u ++ q))). intros cs.
  destruct cs as [|c cs]; vm_compute; repeat split.
Qed.

Lemma source_file_keeps_its_title_witness :
  titleOf (B "img1")
    (worldOf (Main (Sample.env Sample.goodText) [0; 0; 1; 1]
                (Sample.world 4 2)))
  = B "shot.png" /\
  titleOf (B "doc1")
    (worldOf (Main (Sample.env Sample.goodText) [0; 0; 1; 1]
                (Sample.world 4 2)))
  = B "2-shot.png_results-3e54e322dffb6e59e0785e73dbd5961f".
Proof.
  destruct (source_file_keeps_its_title [0; 0; 1; 1] Sample.goodText eq_refl)
    as (_ & Hdoc & Himg).
  split; [exact Himg|]. rewrite Hdoc. vm_compute. reflexivity.
Defined.

End SampleRun.

(** ** The end-to-end scenario *)

Arguments inClass : simpl nomatch.

Section Scenario.

(** C2, the claim as stated fails: this text holds the date, the member
    line and the block of [Type] followed on the next line by [1,234], with
    lines ended by a line feed alone; no quantity pattern matches and
    [extractData] fails with [QuantityNotFound]. *)
Lemma scenario_line_feed_counterexample :
  Sample.lfText
  = B "2021-05-01 12:00:00" ++ [LF]
    ++ B "Member Donation - Screenshot (Jane Doe)" ++ [LF]
    ++ B "Type" ++ [LF] ++ B "1,234" ++ [LF] /\
  extractData (Body Sample.lfText) = failure QuantityNotFound.
Proof. split; [reflexivity | vm_compute; reflexivity]. Qed.

End Scenario.

(** ** Where the search stops: leftmost first, longest run first *)

Arguments inClass : simpl never.

Section Leftmost.

(** The result of [FindStringSubmatch] is the outcome of the backtracking
    search at the first place of the text where the pattern has a match. *)
Lemma FindStringSubmatch_at r : forall s res,
  FindStringSubmatch r s = res -> res <> [] ->
  exists pre s0 s' cs,
    s = pre ++ s0 /\ backtrack r s0 [] accept = Some (s', cs) /\
    res = submatches r s0 s' cs /\
    forall p w r' cs',
      s = p ++ w ++ r' -> Matches r w r' cs' -> length pre <= length p.
Proof.
  induction s as [|c s IH]; cbn [FindStringSubmatch]; intros res H Hne.
  - destruct (backtrack r [] [] accept) as [[s' cs]|] eqn:Hb; [|congruence].
    exists [], [], s', cs. repeat split; auto. intros. simpl. lia.
  - destruct (backtrack r (c :: s) [] accept) as [[s' cs]|] eqn:Hb.
    + exists [], (c :: s), s', cs. repeat split; auto. intros. simpl. lia.
    + destruct (IH res H Hne) as (pre & s0 & s' & cs & -> & Hs0 & Hres & Hmin).
      exists (c :: pre), s0, s', cs. repeat split; auto.
      intros p w r' cs' Hs Hm. destruct p as [|x p].
      * simpl in Hs.
        pose proof (backtrack_none _ _ _ _ Hb _ _ _ Hs Hm) as Hk.
        discriminate.
      * simpl in Hs. inversion Hs; subst. simpl.
        apply le_n_S. eapply Hmin; eauto.
Qed.

Lemma FindStringSubmatch_leftmost r s res :
  FindStringSubmatch r s = res -> res <> [] ->
  exists pre w rest cs,
    s = pre ++ w ++ rest /\ Matches r w rest cs /\
    res = w :: map (fun i => group i cs) (seq 1 (NumSubexp r)) /\
    forall p w' r' cs',
      s = p ++ w' ++ r' -> Matches r w' r' cs' -> length pre <= length p.
Proof.
  intros H Hne. apply FindStringSubmatch_at in H; auto.
  destruct H as (pre & s0 & s' & cs & -> & Hb & -> & Hmin).
  apply backtrack_sound in Hb.
  destruct Hb as (w & rest & cs' & -> & Hm & Hk).
  unfold accept in Hk. rewrite app_nil_r in Hk. inversion Hk; subst s' cs.
  exists pre, w, rest, cs'. repeat split; auto.
  unfold submatches. now rewrite firstn_app_sub.
Qed.

(** A greedy star gives back as little as it can: the run it keeps is
    followed by a success of the rest, and no longer run is. *)
Lemma starGreedy_max cl k m : forall s,
  starGreedy cl s k = Some m ->
  exists w rest,
    s = w ++ rest /\ Forall (fun c => inClass cl c = true) w /\
    k rest = Some m /\
    forall w2 rest',
      rest = w2 ++ rest' -> w2 <> [] ->
      Forall (fun c => inClass cl c = true) w2 -> k rest' = None.
Proof.
  induction s as [|c s IH]; cbn [starGreedy]; intros H.
  - exists [], []. repeat split; auto.
    intros w2 rest' Hr Hne _. destruct w2; [congruence | discriminate].
  - destruct (inClass cl c) eqn:Hc.
    + destruct (starGreedy cl s k) as [m'|] eqn:Hs.
      * inversion H; subst m'.
        destruct (IH eq_refl) as (w & rest & -> & Hw & Hk & Hmax).
        exists (c :: w), rest. repeat split; auto.
      * exists [], (c :: s). repeat split; auto.
        intros w2 rest' Hr Hne Hw2. destruct w2 as [|x w2]; [congruence|].
        simpl in Hr. inversion Hr; subst. inversion Hw2; subst.
        eapply (starGreedy_none _ _ _ Hs); eauto.
    + exists [], (c :: s). repeat split; auto.
      intros w2 rest' Hr Hne Hw2. destruct w2 as [|x w2]; [congruence|].
      simpl in Hr. inversion Hr; subst. inversion Hw2; subst. congruence.
Qed.

(** A run of classes at the head of a sequence is read byte by byte. *)
Lemma backtrack_classes cls : forall rs s cs k,
  backtrack (seqOf (map Class cls ++ rs)) s cs k
  = match stripShape cls s with
    | Some rest => backtrack (seqOf rs) rest cs k
    | None => None
    end.
Proof.
  induction cls as [|cl cls IH]; intros rs s cs k; [reflexivity|].
  change (seqOf (map Class (cl :: cls) ++ rs))
    with (Concat (Class cl) (seqOf (map Class cls ++ rs))).
  cbn [backtrack stripShape]. destruct s as [|c s]; [reflexivity|].
  destruct (inClass cl c); [apply IH | reflexivity].
Qed.

Lemma stripShape_some cls : forall s rest,
  stripShape cls s = Some rest ->
  exists w, s = w ++ rest /\ hasShape cls w.
Proof.
  induction cls as [|cl cls IH]; cbn [stripShape]; intros s rest H.
  - inversion H; subst. exists []. split; [reflexivity | constructor].
  - destruct s as [|c s]; [discriminate|].
    destruct (inClass cl c) eqn:Hc; [|discriminate].
    destruct (IH _ _ H) as (w & -> & Hw).
    exists (c :: w). split; [reflexivity | constructor; assumption].
Qed.

Lemma shapeOf_intro r : forall cls w rest,
  shapeOf r = Some cls -> hasShape cls w -> Matches r w rest [].
Proof.
  induction r as [|cl| |g cl|i r IH|r1 IH1 r2 IH2]; simpl;
    intros cls w rest Hs Hw; try discriminate.
  - inversion Hs; subst. inversion Hw; subst. constructor.
  - inversion Hs; subst. inversion Hw as [|? c ? l' Hc Hl]; subst.
    inversion Hl; subst. constructor. exact Hc.
  - destruct (shapeOf r1) as [s1|]; [|discriminate].
    destruct (shapeOf r2) as [s2|]; [|discriminate].
    inversion Hs; subst. unfold hasShape in Hw.
    apply Forall2_app_inv_l in Hw. destruct Hw as (w1 & w2 & H1 & H2 & ->).
    eapply (MConcat_eq _ _ _ w1 w2 rest _ [] []);
      [reflexivity | reflexivity | eapply IH1; eauto | eapply IH2; eauto].
Qed.

(** The date [extractData] returns is the earliest text of the date shape:
    no text of that shape begins before it. *)
Theorem date_is_earliest (text : bytes)
    (Hok : err (extractData (Body text)) = None) :
  exists pre rest,
    text = pre ++ date (extractData (Body text)) ++ rest /\
    hasShape dateShape (date (extractData (Body text))) /\
    forall p d r,
      text = p ++ d ++ r -> hasShape dateShape d -> length pre <= length p.
Proof.
  rewrite extractData_unfold in *.
  destruct (FindStringSubmatch (MustCompile dateRegex) text) as [|dw dl] eqn:Hd;
    [discriminate|].
  rewrite compile_dateRegex in Hd.
  apply FindStringSubmatch_leftmost in Hd; [|discriminate].
  destruct Hd as (pre & w & rest & cs & Ht & Hm & Hres & Hmin).
  unfold dateProg in Hm. apply Matches_cons_inv in Hm.
  destruct Hm as (w1 & w2 & cs1 & cs2 & -> & -> & H1 & H2).
  apply Matches_Empty_inv in H2. destruct H2 as [-> ->].
  apply Matches_Capture_inv in H1. destruct H1 as (cs' & -> & H1).
  eapply Matches_shapeOf in H1; [|reflexivity]. destruct H1 as [Hs ->].
  rewrite app_nil_r in *. simpl in Hres. inversion Hres; subst dw dl.
  destruct (FindStringSubmatch (MustCompile usernameRegex) text);
    [discriminate|].
  destruct (firstCapture quantityPatterns text); [|discriminate].
  cbn [date nth]. exists pre, rest. split; [exact Ht|]. split; [exact Hs|].
  intros p d r Hpdr Hshape.
  apply (Hmin p d r [(1, d)] Hpdr).
  unfold dateProg.
  eapply (MConcat_eq _ _ _ d [] r _ [(1, d)] []);
    [symmetry; apply app_nil_r | reflexivity | | constructor].
  constructor. eapply shapeOf_intro; [reflexivity | exact Hshape].
Qed.

(** The theorem at the sample export with a second, later date. *)
Lemma date_is_earliest_witness :
  exists pre rest,
    Sample.goodText ++ B "2022-06-07 08:09:10"
    = pre ++ B "2021-05-01 12:00:00" ++ rest /\ length pre <= 0.
Proof.
  destruct (date_is_earliest (Sample.goodText ++ B "2022-06-07 08:09:10")
              eq_refl) as (pre & rest & Ht & _ & Hmin).
  exists pre, rest. split; [exact Ht|].
  apply (Hmin [] (B "2021-05-01 12:00:00")
           (skipn 19 (Sample.goodText ++ B "2022-06-07 08:09:10")));
    [reflexivity | repeat constructor].
Defined.

End Leftmost.

Section FirstLabel.

Lemma toLower_cases x :
  toLower x = x \/ (isLetter x = true /\ x = toUpper (toLower x)).
Proof.
  destruct x as [[] [] [] [] [] [] [] []]; vm_compute; auto.
Qed.

Lemma toLower_letter x : isLetter (toLower x) = isLetter x.
Proof. destruct x as [[] [] [] [] [] [] [] []]; vm_compute; reflexivity. Qed.

Lemma toLower_not_letter c : isLetter c = false -> toLower c = c.
Proof.
  destruct c as [[] [] [] [] [] [] [] []]; vm_compute; congruence.
Qed.

Lemma between_refl c : between c c c = true.
Proof. unfold between. now rewrite N.leb_refl. Qed.

Lemma inClass_two_intro a b x :
  x = a \/ x = b -> inClass [(a, a); (b, b)] x = true.
Proof.
  unfold inClass. cbn [existsb fst snd].
  intros [-> | ->]; rewrite between_refl; [reflexivity|].
  now rewrite orb_true_r.
Qed.

(** The class a literal byte compiles to under the [i] flag accepts every
    byte equal to it up to case. *)
Lemma foldClass_complete c x :
  toLower c = toLower x -> inClass (foldClassOf c) x = true.
Proof.
  intros H. unfold foldClassOf.
  destruct (isLetter c) eqn:Hc.
  - apply inClass_two_intro.
    destruct (toLower_cases x) as [Hx | [_ Hx]].
    + right. congruence.
    + left. rewrite Hx, <- H.
      clear. destruct c as [[] [] [] [] [] [] [] []]; vm_compute; reflexivity.
  - apply inClass_single.
    pose proof (toLower_not_letter c Hc) as Hl.
    destruct (toLower_cases x) as [Hx | [Hx _]]; [congruence|].
    rewrite <- toLower_letter, <- H, Hl in Hx. congruence.
Qed.

Lemma sameFold_hasShape l w :
  sameFold l w -> hasShape (map foldClassOf l) w.
Proof.
  unfold sameFold, hasShape. intros H.
  induction H as [|c x l w Hcx Hlw IH]; [constructor|].
  constructor; [now apply foldClass_complete | exact IH].
Qed.

Lemma quantityProg_classes label :
  quantityProg label
  = seqOf (map Class (map foldClassOf (B label) ++ [single CR; single LF])
           ++ [Capture 1 (seqOf [Star true quantityChars])]).
Proof.
  unfold quantityProg, litFold.
  rewrite <- (map_map foldClassOf Class), map_app, <- app_assoc.
  reflexivity.
Qed.

(** Every place where the label, in any case, is followed by a carriage
    return and a line feed is a match of the quantity pattern, with the
    run of digits and commas that follows as its capture. *)
Lemma quantity_matches label lab q rest :
  sameFold (B label) lab ->
  Forall (fun c => isQuantityChar c = true) q ->
  Matches (quantityProg label) (lab ++ CRLF ++ q) rest [(1, q)].
Proof.
  intros Hl Hq. rewrite quantityProg_classes.
  rewrite (app_assoc lab CRLF q).
  apply Matches_classes_intro.
  - unfold hasShape. apply Forall2_app; [now apply sameFold_hasShape|].
    constructor; [now apply inClass_single|].
    constructor; [now apply inClass_single | constructor].
  - cbn [seqOf fold_right].
    eapply (MConcat_eq _ _ _ q [] rest _ [(1, q)] []);
      [symmetry; apply app_nil_r | reflexivity | | constructor].
    constructor.
    eapply (MConcat_eq _ _ _ q [] _ _ [] []);
      [symmetry; apply app_nil_r | reflexivity | constructor; exact Hq
      | constructor].
Qed.

(** What a successful search of a quantity pattern from the front of [s]
    has read: the label, the line end, and the longest run of digits and
    commas. *)
Lemma quantity_backtrack label s s' cs :
  backtrack (quantityProg label) s [] accept = Some (s', cs) ->
  exists lab q,
    s = lab ++ CRLF ++ q ++ s' /\ sameFold (B label) lab /\
    Forall (fun c => isQuantityChar c = true) q /\
    stopsAt quantityChars s' /\ cs = [(1, q)].
Proof.
  rewrite quantityProg_classes, backtrack_classes.
  destruct (stripShape _ s) as [rest|] eqn:Hstrip; [|discriminate].
  apply stripShape_some in Hstrip. destruct Hstrip as (w & -> & Hw).
  unfold hasShape in Hw. apply Forall2_app_inv_l in Hw.
  destruct Hw as (lab & crlf & Hlab & Hcrlf & ->).
  apply (hasShape_singles [CR; LF]) in Hcrlf. subst crlf.
  cbn [seqOf fold_right backtrack]. intros H.
  apply starGreedy_max in H.
  destruct H as (q & rest' & -> & Hq & Hk & Hmax).
  rewrite firstn_app_sub in Hk. unfold accept in Hk.
  inversion Hk; subst s' cs.
  exists lab, q. repeat split; auto.
  - now rewrite <- !app_assoc.
  - now apply hasShape_fold.
  - destruct rest' as [|c t]; [exact I|]. cbn [stopsAt].
    destruct (inClass quantityChars c) eqn:Hc; [|reflexivity].
    specialize (Hmax [c] t eq_refl ltac:(discriminate)
                  ltac:(constructor; [exact Hc | constructor])).
    discriminate Hmax.
Qed.

(** Each quantity pattern reads one place of the text only: the first where
    its label, in any case, is followed by a carriage return and a line
    feed.  Its capture is the longest run of digits and commas that begins
    there, which may be empty; a later occurrence of the label is never
    looked at.  When no such place exists the pattern has no match. *)
Theorem quantity_from_first_label (p label : string) (text : bytes)
    (Hin : In (p, label) quantityTable) :
  match FindStringSubmatch (MustCompile p) text with
  | [] =>
      forall pre lab rest,
        text = pre ++ lab ++ CRLF ++ rest -> ~ sameFold (B label) lab
  | res =>
      exists pre lab q rest,
        text = pre ++ lab ++ CRLF ++ q ++ rest /\
        sameFold (B label) lab /\
        Forall (fun c => isQuantityChar c = true) q /\
        stopsAt quantityChars rest /\
        nth 1 res [] = q /\
        forall pre' lab' rest',
          text = pre' ++ lab' ++ CRLF ++ rest' -> sameFold (B label) lab' ->
          length pre <= length pre'
  end.
Proof.
  rewrite (quantityTable_compiles _ _ Hin).
  destruct (FindStringSubmatch (quantityProg label) text) as [|a l] eqn:Hf.
  - intros pre lab rest Ht Hl.
    eapply (FindStringSubmatch_nil _ _ Hf pre (lab ++ CRLF ++ []) rest).
    + rewrite Ht, app_nil_r. now rewrite <- !app_assoc.
    + apply quantity_matches; [exact Hl | constructor].
  - apply FindStringSubmatch_at in Hf; [|discriminate].
    destruct Hf as (pre & s0 & s' & cs & Ht & Hb & Hres & Hmin).
    apply quantity_backtrack in Hb.
    destruct Hb as (lab & q & -> & Hl & Hq & Hstop & ->).
    exists pre, lab, q, s'. repeat split; auto.
    + rewrite Hres. unfold submatches.
      rewrite quantityProg_classes, NumSubexp_classes. reflexivity.
    + intros pre' lab' rest' Ht' Hl'.
      apply (Hmin pre' (lab' ++ CRLF ++ []) rest' [(1, [])]).
      * rewrite Ht', app_nil_r. now rewrite <- !app_assoc.
      * apply quantity_matches; [exact Hl' | constructor].
Qed.

(** The theorem at an export whose first [Type] label is followed by text
    and whose second is followed by a number: the pattern matches at the
    first and captures nothing. *)
Lemma quantity_from_first_label_witness :
  let text :=
    B "Type" ++ CRLF ++ B "ISK" ++ CRLF ++ B "Type" ++ CRLF ++ B "5" in
  exists pre lab q rest,
    text = pre ++ lab ++ CRLF ++ q ++ rest /\
    sameFold (B "Type") lab /\
    Forall (fun c => isQuantityChar c = true) q /\
    stopsAt quantityChars rest /\
    nth 1 [B "Type" ++ CRLF; []] [] = q /\
    forall pre' lab' rest',
      text = pre' ++ lab' ++ CRLF ++ rest' -> sameFold (B "Type") lab' ->
      length pre <= length pre'.
Proof.
  exact (quantity_from_first_label quantityFirstRegex "Type"
           (B "Type" ++ CRLF ++ B "ISK" ++ CRLF ++ B "Type" ++ CRLF ++ B "5")
           ltac:(right; left; reflexivity)).
Defined.

End FirstLabel.

Section LastBrackets.

Lemma opener_notNL c : inClass openers c = true -> notNL c = true.
Proof.
  destruct c as [[] [] [] [] [] [] [] []]; vm_compute; congruence.
Qed.

Lemma closer_notNL c : inClass closers c = true -> notNL c = true.
Proof.
  destruct c as [[] [] [] [] [] [] [] []]; vm_compute; congruence.
Qed.

Lemma usernameProg_classes :
  usernameProg
  = seqOf (map Class (map single (B "Member Donation"))
           ++ [Star true anyCharNotNL; Class openers;
               Capture 1 (seqOf [Star true anyCharNotNL]); Class closers]).
Proof. reflexivity. Qed.

(** What a successful search of the member pattern from the front of [s]
    has read.  The first star keeps as much as it can, so the name holds no
    opening bracket; the second does too, so no closing bracket follows the
    one that ends the name on its line. *)
Lemma username_backtrack s s' cs :
  backtrack usernameProg s [] accept = Some (s', cs) ->
  exists a o name c,
    s = B "Member Donation" ++ a ++ [o] ++ name ++ [c] ++ s' /\
    Forall (fun x => notNL x = true) a /\
    Forall (fun x => notNL x = true) name /\
    inClass openers o = true /\ inClass closers c = true /\
    Forall (fun x => inClass openers x = false) name /\
    (forall u c' t,
       s' = u ++ c' :: t -> Forall (fun x => notNL x = true) u ->
       inClass closers c' = false) /\
    cs = [(1, name)].
Proof.
  rewrite usernameProg_classes, backtrack_classes.
  destruct (stripShape _ s) as [rest0|] eqn:Hstrip; [|discriminate].
  apply stripShape_some in Hstrip. destruct Hstrip as (lab & -> & Hlab).
  apply hasShape_singles in Hlab. subst lab.
  cbn [seqOf fold_right backtrack]. intros H.
  apply starGreedy_max in H.
  destruct H as (a & rest1 & -> & Ha & Hk1 & Hmax1).
  destruct rest1 as [|o s2]; [discriminate|].
  destruct (inClass openers o) eqn:Ho; [|discriminate].
  apply starGreedy_max in Hk1.
  destruct Hk1 as (name & rest2 & -> & Hn & Hk2 & Hmax2).
  destruct rest2 as [|c s4]; [discriminate|].
  destruct (inClass closers c) eqn:Hc; [|discriminate].
  unfold accept in Hk2. inversion Hk2; subst s' cs. clear Hk2.
  rewrite firstn_app_sub.
  exists a, o, name, c. repeat split; auto.
  - (* no opening bracket inside the name *)
    apply Forall_forall. intros x Hx.
    destruct (inClass openers x) eqn:Hox; [|reflexivity]. exfalso.
    apply in_split in Hx. destruct Hx as (n1 & n2 & ->).
    apply Forall_app in Hn. destruct Hn as [Hn1 Hn2].
    inversion Hn2 as [|? ? _ Hn2']; subst.
    specialize (Hmax1 (o :: n1) (x :: n2 ++ c :: s4)).
    cbv beta iota in Hmax1. rewrite Hox in Hmax1.
    assert (Hnone :
      starGreedy anyCharNotNL (n2 ++ c :: s4)
        (fun s'0 =>
           match s'0 with
           | [] => None
           | c0 :: s'1 =>
               if inClass closers c0
               then
                 accept s'1
                   [(1, firstn (length (n2 ++ c :: s4) - length s'0)
                          (n2 ++ c :: s4))]
               else None
           end) = None).
    { apply Hmax1.
      - simpl. now rewrite <- app_assoc.
      - discriminate.
      - constructor; [apply opener_notNL; exact Ho | exact Hn1]. }
    pose proof (starGreedy_none _ _ _ Hnone n2 (c :: s4) eq_refl Hn2') as Hk.
    cbv beta iota in Hk. rewrite Hc in Hk. discriminate Hk.
  - (* no closing bracket further on the line *)
    intros u c' t Hs4 Hu.
    destruct (inClass closers c') eqn:Hc'; [|reflexivity]. exfalso.
    specialize (Hmax2 (c :: u) (c' :: t)).
    cbv beta iota in Hmax2. rewrite Hc' in Hmax2.
    assert (Hfalse : accept t
              [(1, firstn (length (name ++ c :: s4) - length (c' :: t))
                     (name ++ c :: s4))] = None).
    { apply Hmax2.
      - simpl. now rewrite Hs4.
      - discriminate.
      - constructor; [apply closer_notNL; exact Hc | exact Hu]. }
    discriminate Hfalse.
Qed.

(** The member [extractData] returns is read at the first place of the
    text where [Member Donation] is followed, on its line, by an opening
    bracket and later a closing one; a [Member Donation] before it that has
    no such brackets on its line is passed over.  There the member stands
    between the last opening bracket that has a closing bracket after it
    and the last closing bracket of the line: it holds no opening bracket,
    and no closing bracket follows it before the end of the line. *)
Theorem member_between_last_brackets (text : bytes)
    (Hok : err (extractData (Body text)) = None) :
  exists pre a o c rest,
    text = pre ++ B "Member Donation" ++ a ++ [o]
               ++ username (extractData (Body text)) ++ [c] ++ rest /\
    inClass openers o = true /\ inClass closers c = true /\
    Forall (fun x => notNL x = true) a /\
    Forall (fun x => notNL x = true) (username (extractData (Body text))) /\
    Forall (fun x => inClass openers x = false)
      (username (extractData (Body text))) /\
    (forall u c' t,
       rest = u ++ c' :: t -> Forall (fun x => notNL x = true) u ->
       inClass closers c' = false) /\
    (forall pre' a' o' name' c' rest',
       text = pre' ++ B "Member Donation" ++ a' ++ [o'] ++ name' ++ [c']
                   ++ rest' ->
       Forall (fun x => notNL x = true) a' ->
       Forall (fun x => notNL x = true) name' ->
       inClass openers o' = true -> inClass closers c' = true ->
       length pre <= length pre').
Proof.
  rewrite extractData_unfold in *.
  destruct (FindStringSubmatch (MustCompile dateRegex) text) as [|dw dl];
    [discriminate|].
  destruct (FindStringSubmatch (MustCompile usernameRegex) text)
    as [|uw ul] eqn:Hu; [discriminate|].
  destruct (firstCapture quantityPatterns text); [|discriminate].
  cbn [username]. rewrite compile_usernameRegex in Hu.
  apply FindStringSubmatch_at in Hu; [|discriminate].
  destruct Hu as (pre & s0 & s' & cs & -> & Hb & Hres & Hmin).
  apply username_backtrack in Hb.
  destruct Hb as (a & o & name & c & -> & Ha & Hn & Ho & Hc & Hno & Hlast & ->).
  unfold submatches in Hres.
  rewrite usernameProg_classes, NumSubexp_classes in Hres.
  cbn [seqOf fold_right NumSubexp Nat.max seq map group Nat.eqb] in Hres.
  inversion Hres; subst uw ul. cbn [nth].
  exists pre, a, o, c, s'.
  split; [reflexivity|]. split; [exact Ho|]. split; [exact Hc|].
  split; [exact Ha|]. split; [exact Hn|]. split; [exact Hno|].
  split; [exact Hlast|].
  intros pre' a' o' name' c' rest' Ht Ha' Hn' Ho' Hc'.
  apply (Hmin pre' (B "Member Donation" ++ a' ++ [o'] ++ name' ++ [c'])
           rest' [(1, name')]).
  - rewrite Ht. now rewrite <- !app_assoc.
  - now apply username_matches.
Qed.

(** The theorem at a text whose first [Member Donation] has no bracket on
    its line and whose second has two pairs: the member is what the second
    pair of the second line holds. *)
Lemma member_between_last_brackets_witness :
  username
    (extractData
       (Body (B "2021-05-01 12:00:00" ++ CRLF
              ++ B "Member Donation" ++ CRLF ++ B "7" ++ CRLF
              ++ B "Member Donation (corp) [Jane Doe]" ++ CRLF
              ++ B "Type" ++ CRLF ++ B "1,234" ++ CRLF)))
  = B "Jane Doe" /\
  Forall (fun x => inClass openers x = false) (B "Jane Doe").
Proof.
  destruct (member_between_last_brackets
              (B "2021-05-01 12:00:00" ++ CRLF
               ++ B "Member Donation" ++ CRLF ++ B "7" ++ CRLF
               ++ B "Member Donation (corp) [Jane Doe]" ++ CRLF
               ++ B "Type" ++ CRLF ++ B "1,234" ++ CRLF) eq_refl)
    as (pre & a & o & c & rest & _ & _ & _ & _ & _ & Hno & _).
  split; [vm_compute; reflexivity | exact Hno].
Defined.

End LastBrackets.

(** ** The image cropper, by the size of the picture *)

Section CropBySize.

Import image.
Open Scope Z_scope.

Lemma isEmptyRect_true r :
  X (Max r) <= X (Min r) \/ Y (Max r) <= Y (Min r) -> isEmptyRect r = true.
Proof.
  intros H. unfold isEmptyRect. rewrite !Z.geb_leb.
  destruct (Z.leb_spec (X (Max r)) (X (Min r))); [reflexivity|].
  destruct (Z.leb_spec (Y (Max r)) (Y (Min r))); [reflexivity | lia].
Qed.

(** Asked for no width, or on an image of no height, [cutter.Crop] keeps
    nothing: the zero image. *)
Lemma Crop_nothing (x0 y0 x1 y1 cw : Z) (pix : Z -> Z -> Color) :
  x0 <= x1 -> y0 <= y1 -> 0 <= cw -> cw = 0 \/ y1 = y0 ->
  cutter.Crop (mkImage (mkRectangle (mkPoint x0 y0) (mkPoint x1 y1)) pix)
    (cutter.mkConfig cw (y1 - y0))
  = mkImage ZR (fun _ _ => 0).
Proof.
  intros Hx Hy Hcw Hzero. unfold cutter.Crop.
  cbn [cutter.Width cutter.Height Bounds Min Max X Y].
  assert (Hcut :
    Intersect (mkRectangle (mkPoint x0 y0) (mkPoint x1 y1))
      (Rect x0 y0 (x0 + cw) (y0 + (y1 - y0))) = ZR).
  { rewrite Intersect_eq. cbv zeta.
    rewrite isEmptyRect_true; [reflexivity|].
    unfold Rect. cbn [Min Max X Y]. lia. }
  rewrite Hcut. unfold SubImage. cbn [Bounds].
  assert (Hsub :
    Intersect ZR (mkRectangle (mkPoint x0 y0) (mkPoint x1 y1)) = ZR).
  { rewrite Intersect_eq. cbv zeta.
    rewrite isEmptyRect_true; [reflexivity|].
    cbn [ZR Min Max X Y]. lia. }
  rewrite Hsub. reflexivity.
Qed.

Lemma cropImage_stored (w : World) (file meta : drive.File) (img : Image) :
  drive.lookup (drive.Id file) (files w)
  = Some (drive.mkEntry meta (drive.Picture (Some img))) ->
  cropImage file w
  = match png.Encode
            (cutter.Crop img
               (cutter.mkConfig (Z.quot (Dx (Bounds img)) 2)
                  (Dy (Bounds img)))) with
    | Some buf => Return (buf, None) w
    | None => Exit "png.Encode" w
    end.
Proof.
  intros Hstored. unfold cropImage, bind, Files_Download. rewrite Hstored.
  cbn [DecodeConfig image.Width image.Height].
  destruct (png.Encode _); reflexivity.
Qed.

(** [cropImage] on a stored picture that decodes, by its size.  It returns
    a stream of half the width and the full height exactly when the picture
    is at least 2 pixels wide and 1 pixel high and the two sides of the
    result are below the encoder's limit; otherwise the encoder refuses the
    crop and the process exits.  In both cases the state is untouched, and
    the error [cropImage] returns is never set. *)
Theorem cropImage_by_size (w : World) (file meta : drive.File) (img : Image)
    (Hstored :
       drive.lookup (drive.Id file) (files w)
       = Some (drive.mkEntry meta (drive.Picture (Some img))))
    (Hbounds :
       X (Min (Bounds img)) <= X (Max (Bounds img)) /\
       Y (Min (Bounds img)) <= Y (Max (Bounds img))) :
  if (2 <=? Dx (Bounds img)) && (Dx (Bounds img) / 2 <? 2 ^ 32)
     && (1 <=? Dy (Bounds img)) && (Dy (Bounds img) <? 2 ^ 32)
  then exists buf,
         cropImage file w = Return (buf, None) w /\
         png.Width buf = Dx (Bounds img) / 2 /\
         png.Height buf = Dy (Bounds img)
  else cropImage file w = Exit "png.Encode" w.
Proof.
  rewrite (cropImage_stored w file meta img Hstored).
  destruct img as [[[x0 y0] [x1 y1]] pix].
  unfold Dx, Dy in *. cbn [Bounds Min Max X Y] in *.
  destruct Hbounds as [Hx Hy].
  rewrite (Z.quot_div_nonneg (x1 - x0) 2) by lia.
  assert (Hq0 : 0 <= (x1 - x0) / 2) by (apply Z.div_pos; lia).
  assert (Hq1 : (x1 - x0) / 2 <= x1 - x0)
    by (apply Z.div_le_upper_bound; lia).
  assert (Hq2 : 2 <= x1 - x0 -> 1 <= (x1 - x0) / 2)
    by (intros; apply Z.div_le_lower_bound; lia).
  assert (Hq3 : x1 - x0 < 2 -> (x1 - x0) / 2 = 0)
    by (intros; apply Z.div_small; lia).
  set (q := (x1 - x0) / 2) in *.
  destruct (Z.leb_spec 2 (x1 - x0)) as [HW|HW];
    destruct (Z.leb_spec 1 (y1 - y0)) as [HH|HH].
  - (* wide and high enough: the left columns *)
    rewrite Crop_left by lia.
    unfold png.Encode, Dx, Dy. cbn [Bounds Min Max X Y].
    replace (x0 + q - x0) with q by lia.
    rewrite !Z.geb_leb.
    destruct (Z.leb_spec q 0); [lia|].
    destruct (Z.leb_spec (y1 - y0) 0); [lia|].
    destruct (Z.ltb_spec q (2 ^ 32)); destruct (Z.leb_spec (2 ^ 32) q);
      try lia;
      destruct (Z.ltb_spec (y1 - y0) (2 ^ 32));
      destruct (Z.leb_spec (2 ^ 32) (y1 - y0)); try lia;
      cbn [andb orb]; try reflexivity.
    eexists. split; [reflexivity|]. split; reflexivity.
  - (* no height *)
    rewrite Crop_nothing by lia.
    rewrite !andb_false_r. cbn [andb]. reflexivity.
  - (* less than two columns *)
    rewrite Crop_nothing by lia. reflexivity.
  - rewrite Crop_nothing by lia. reflexivity.
Qed.

Lemma sample_narrow_stored :
  drive.lookup (drive.Id Sample.shot) (files (Sample.world 1 2))
  = Some (drive.mkEntry Sample.shot
            (drive.Picture (Some (Sample.picture 1 2)))).
Proof. reflexivity. Qed.

(** The theorem at a picture one pixel wide. *)
Lemma cropImage_by_size_witness :
  cropImage Sample.shot (Sample.world 1 2)
  = Exit "png.Encode" (Sample.world 1 2).
Proof.
  exact (cropImage_by_size (Sample.world 1 2) Sample.shot Sample.shot
           (Sample.picture 1 2) sample_narrow_stored
           ltac:(vm_compute; split; discriminate)).
Defined.

End CropBySize.

(** ** The unit of work of Main, on any store *)

Section UnitOfWork.

Import drive.

Lemma bytes_eqb_eq a : forall b, bytes_eqb a b = true <-> a = b.
Proof.
  induction a as [|x a IH]; intros [|y b]; simpl; split; intros H;
    try reflexivity; try discriminate.
  - apply andb_true_iff in H. destruct H as [Hxy Hab].
    apply Ascii.eqb_eq in Hxy. apply IH in Hab. now subst.
  - inversion H; subst. rewrite Ascii.eqb_refl. now apply IH.
Qed.

Lemma bytes_eqb_refl a : bytes_eqb a a = true.
Proof. now apply bytes_eqb_eq. Qed.


Lemma lookup_app_l id st st' e :
  lookup id st = Some e -> lookup id (st ++ st') = Some e.
Proof.
  induction st as [|e0 st IH]; simpl; [discriminate|].
  destruct (bytes_eqb id (Id (file e0))); auto.
Qed.

Lemma lookup_app_fresh id st e :
  lookup id st = None -> Id (file e) = id ->
  lookup id (st ++ [e]) = Some e.
Proof.
  intros Hnone Hid. induction st as [|e0 st IH]; simpl in *.
  - now rewrite Hid, bytes_eqb_refl.
  - destruct (bytes_eqb id (Id (file e0))); [discriminate | auto].
Qed.

Lemma length_replace id e' : forall st,
  length (replace id e' st) = length st.
Proof.
  induction st as [|e st IH]; simpl; [reflexivity|].
  destruct (bytes_eqb id (Id (file e))); simpl; auto.
Qed.

(** Replacing the entry of a file by one of the same id hides no file. *)
Lemma hasFile_replace id id' e' : forall st,
  Id (file e') = id' ->
  hasFile id (replace id' e' st) = hasFile id st.
Proof.
  unfold hasFile. intros st Hid. induction st as [|e st IH]; simpl;
    [reflexivity|].
  destruct (bytes_eqb id' (Id (file e))) eqn:Hhit; simpl.
  - apply bytes_eqb_eq in Hhit. rewrite Hid, Hhit.
    destruct (bytes_eqb id (Id (file e))); reflexivity.
  - destruct (bytes_eqb id (Id (file e))); [reflexivity | exact IH].
Qed.

(** [Files_Update] always answers; it leaves the sheet alone, keeps the
    number of files, and hides no file.  It fails only on an unknown id. *)
Lemma Files_Update_effect id body rm add w :
  exists f e w',
    Files_Update id body rm add w = Return (f, e) w' /\
    rows w' = rows w /\
    length (files w') = length (files w) /\
    (forall id', hasFile id' (files w') = hasFile id' (files w)) /\
    (hasFile id (files w) = true -> e = None).
Proof.
  unfold Files_Update. destruct (lookup id (files w)) as [e0|] eqn:Hl.
  - do 3 eexists. split; [reflexivity|]. cbn [rows files].
    split; [reflexivity|]. split; [apply length_replace|].
    split; [|reflexivity].
    intros id'. now apply hasFile_replace.
  - do 3 eexists. split; [reflexivity|]. repeat split.
    unfold hasFile. rewrite Hl. discriminate.
Qed.

Lemma moveFileToFolder_effect file from to w :
  exists f e w',
    moveFileToFolder file from to w = Return (f, e) w' /\
    rows w' = rows w /\
    length (files w') = length (files w) /\
    (forall id', hasFile id' (files w') = hasFile id' (files w)) /\
    (hasFile (Id file) (files w) = true -> e = None).
Proof. apply Files_Update_effect. Qed.

Lemma renameFile_effect file newName w :
  exists f e w',
    renameFile file newName w = Return (f, e) w' /\
    rows w' = rows w /\
    length (files w') = length (files w).
Proof.
  unfold renameFile, bind. cbv zeta. cbn [Id].
  destruct (Files_Update_effect (Id file)
              (mkFile (Id file) newName (MimeType file) (Parents file)
                 (DefaultOpenWithLink file)) None None w)
    as (f & e & w' & Hu & Hr & Hl & _).
  rewrite Hu. do 3 eexists. split; [reflexivity|]. auto.
Qed.

Lemma checksum_not_empty data :
  isEmpty (hex.EncodeToString (md5.Sum data)) = false.
Proof.
  pose proof (EncodeToString_length (md5.Sum data)) as H.
  rewrite Sum_length in H.
  destruct (hex.EncodeToString (md5.Sum data)); [discriminate | reflexivity].
Qed.

(** [appendDataToSheet] always returns: it calls the sheet once, touches no
    file, and reports an error exactly when the sheet does or when the
    reference it answers with has no row to read. *)
Lemma appendDataToSheet_effect E date name amount link w :
  let cs := hex.EncodeToString (md5.Sum (date ++ name ++ amount)) in
  let answer :=
    valuesAppend E (rows w) [cs; timeNow E; date; name; amount; link] in
  exists rowID e,
    appendDataToSheet E date name amount link w
    = Return (rowID, cs, e) (mkWorld (files w) (fst answer)) /\
    isSome e
    = match snd answer with
      | inl r =>
          negb (length (FindStringSubmatch (MustCompile rowRegex)
                          (sheets.UpdatedRange r)) =? 2)
      | inr _ => true
      end.
Proof.
  cbv zeta. unfold appendDataToSheet, bind, Values_Append, ret. cbv zeta.
  destruct (valuesAppend E (rows w) _) as [rows' [r|e]]; cbn [fst snd].
  - destruct (negb _) eqn:Hm; do 2 eexists; split; reflexivity.
  - do 2 eexists; split; reflexivity.
Qed.

(** From the results of [extractData] on, when the picture and the
    document are in the store: one append, with the row made of the
    results, and no file gained or lost. *)
Lemma settle_effect E fd f r x w :
  hasFile (Id fd) (files w) = true -> hasFile (Id r) (files w) = true ->
  let cs :=
    hex.EncodeToString (md5.Sum (date x ++ username x ++ quantity x)) in
  let answer :=
    valuesAppend E (rows w)
      [cs; timeNow E; date x; username x; quantity x;
       DefaultOpenWithLink r] in
  let o := Main_func1_settle E fd f r x w in
  rows (worldOf o) = fst answer /\
  length (files (worldOf o)) = length (files w) /\
  exitMessage o
  = match snd answer with
    | inl a =>
        if length (FindStringSubmatch (MustCompile rowRegex)
                     (sheets.UpdatedRange a)) =? 2
        then None else Some "Couldn't Get RowID"%string
    | inr _ => Some "Couldn't Get RowID"%string
    end.
Proof.
  intros Hfd Hr. cbv zeta.
  destruct x as [d u q e]. cbn [date username quantity].
  unfold Main_func1_settle.
  assert (Hmoved : exists w1,
    (if isSome e
     then
       bind (moveFileToFolder fd (UploadFolderID E) (FailedFolderID E))
         (fun x0 => let '(_, err2) := x0 in
            if isSome err2 then Fatalf "Unable to move file to Failed"
            else
              bind (moveFileToFolder r (UploadFolderID E) (FailedFolderID E))
                (fun x1 => let '(_, err3) := x1 in
                   if isSome err3 then Fatalf "Unable to move file to Failed"
                   else ret tt))
     else
       bind (moveFileToFolder fd (UploadFolderID E) (ProcessedFolderID E))
         (fun x0 => let '(_, err0) := x0 in
            if isSome err0 then Fatalf "Unable to move file to Failed"
            else ret tt)) w = Return tt w1 /\
    rows w1 = rows w /\ length (files w1) = length (files w)).
  { destruct (isSome e).
    - destruct (moveFileToFolder_effect fd (UploadFolderID E)
                  (FailedFolderID E) w)
        as (f1 & e1 & w1 & Hm1 & Hr1 & Hl1 & Hh1 & Hok1).
      rewrite (Hok1 Hfd) in Hm1.
      destruct (moveFileToFolder_effect r (UploadFolderID E)
                  (FailedFolderID E) w1)
        as (f2 & e2 & w2 & Hm2 & Hr2 & Hl2 & _ & Hok2).
      rewrite Hh1 in Hok2. rewrite (Hok2 Hr) in Hm2.
      exists w2. unfold bind. rewrite Hm1. cbn [isSome]. rewrite Hm2.
      cbn [isSome]. split; [reflexivity|]. split; congruence.
    - destruct (moveFileToFolder_effect fd (UploadFolderID E)
                  (ProcessedFolderID E) w)
        as (f1 & e1 & w1 & Hm1 & Hr1 & Hl1 & _ & Hok1).
      rewrite (Hok1 Hfd) in Hm1.
      exists w1. unfold bind. rewrite Hm1. cbn [isSome].
      split; [reflexivity|]. split; congruence. }
  destruct Hmoved as (w1 & Hm & Hr1 & Hl1).
  destruct (appendDataToSheet_effect E d u q (DefaultOpenWithLink r) w1)
    as (rowID & ea & Happ & Hea).
  cbv zeta in Happ, Hea. rewrite Hr1 in *.
  set (cs := hex.EncodeToString (md5.Sum (d ++ u ++ q))) in *.
  destruct (valuesAppend E (rows w) _) as [rows' answer]; cbn [fst snd] in *.
  assert (Hsettle :
    Main_func1_settle E fd f r (mkExtracted d u q e) w
    = if isSome ea
      then Exit "Couldn't Get RowID" (mkWorld (files w1) rows')
      else
        bind (renameFile r (rowID ++ B "-" ++ Title r ++ B "-" ++ cs))
          (fun x0 => let '(r2, _) := x0 in
             bind (renameFile f (rowID ++ B "-" ++ Title r2 ++ B "-" ++ cs))
               (fun _ => ret tt))
          (mkWorld (files w1) rows')).
  { unfold Main_func1_settle. unfold bind at 1. rewrite Hm.
    unfold bind at 1. rewrite Happ. cbv beta iota.
    unfold cs. rewrite checksum_not_empty. cbn [andb].
    destruct (isSome ea); [reflexivity|].
    unfold bind.
    destruct (renameFile r _ _) as [[r2 e2] w2|]; [|reflexivity].
    destruct (renameFile f _ _) as [[r3 e3] w3|]; reflexivity. }
  unfold Main_func1_settle in Hsettle. unfold Main_func1_settle.
  rewrite Hsettle. clear Hsettle.
  destruct (isSome ea) eqn:Hsome.
  - cbn [worldOf rows files exitMessage].
    split; [reflexivity|]. split; [exact Hl1|].
    destruct answer as [a|e0]; [|reflexivity].
    destruct (length _ =? 2); [discriminate Hea | reflexivity].
  - destruct (renameFile_effect r
                (rowID ++ B "-" ++ Title r ++ B "-" ++ cs)
                (mkWorld (files w1) rows'))
      as (r2 & e2 & w2 & Hn2 & Hr2 & Hl2).
    destruct (renameFile_effect f
                (rowID ++ B "-" ++ Title r2 ++ B "-" ++ cs) w2)
      as (r3 & e3 & w3 & Hn3 & Hr3 & Hl3).
    assert (Hren :
      bind (renameFile r (rowID ++ B "-" ++ Title r ++ B "-" ++ cs))
        (fun x0 => let '(r2, _) := x0 in
           bind (renameFile f (rowID ++ B "-" ++ Title r2 ++ B "-" ++ cs))
             (fun _ => ret tt))
        (mkWorld (files w1) rows') = Return tt w3).
    { unfold bind. rewrite Hn2. cbv beta iota. rewrite Hn3. reflexivity. }
    rewrite Hren.
    cbn [worldOf exitMessage]. cbn [rows files] in *.
    split; [congruence|]. split; [congruence|].
    destruct answer as [a|e0]; [|discriminate Hea].
    destruct (length _ =? 2); [reflexivity | discriminate Hea].
Qed.

Lemma cropImage_fits (w : World) (file meta : File) (img : image.Image) :
  lookup (Id file) (files w) = Some (mkEntry meta (Picture (Some img))) ->
  (2 <= image.Dx (image.Bounds img) < 2 ^ 32)%Z ->
  (1 <= image.Dy (image.Bounds img) < 2 ^ 32)%Z ->
  exists buf, cropImage file w = Return (buf, None) w.
Proof.
  intros Hstored HW HH. rewrite (cropImage_stored w file meta img Hstored).
  destruct img as [[[x0 y0] [x1 y1]] pix].
  unfold image.Dx, image.Dy in *.
  cbn [image.Bounds image.Min image.Max image.X image.Y] in *.
  rewrite (Z.quot_div_nonneg (x1 - x0) 2) by lia.
  assert (Hq : (1 <= (x1 - x0) / 2 <= x1 - x0)%Z).
  { split; [apply Z.div_le_lower_bound | apply Z.div_le_upper_bound]; lia. }
  rewrite Crop_left by lia.
  unfold png.Encode, image.Dx, image.Dy.
  cbn [image.Bounds image.Min image.Max image.X image.Y].
  replace (x0 + (x1 - x0) / 2 - x0)%Z with ((x1 - x0) / 2)%Z by lia.
  rewrite !Z.geb_leb.
  destruct (Z.leb_spec ((x1 - x0) / 2) 0); [lia|].
  destruct (Z.leb_spec (y1 - y0) 0); [lia|].
  destruct (Z.leb_spec (2 ^ 32) ((x1 - x0) / 2)); [lia|].
  destruct (Z.leb_spec (2 ^ 32) (y1 - y0)); [lia|].
  cbn [orb]. eexists. reflexivity.
Qed.

(** For every picture in the store that decodes and is at least two pixels
    wide, the unit of work adds one document to the store and calls the
    sheet exactly once, with the row made of the checksum, the clock, the
    three results of [extractData] on the converted text (empty strings when
    the extraction failed) and the link of the new document.  It ends the
    process with [Couldn't Get RowID] when the sheet reports an error or
    answers with a reference that has no row to read, and returns
    otherwise. *)
Theorem unit_of_work_appends_once (E : Env) (w : World) (fd meta : File)
    (img : image.Image)
    (Hstored :
       lookup (Id fd) (files w) = Some (mkEntry meta (Picture (Some img))))
    (Hwidth : (2 <= image.Dx (image.Bounds img) < 2 ^ 32)%Z)
    (Hheight : (1 <= image.Dy (image.Bounds img) < 2 ^ 32)%Z)
    (Hfresh : lookup (newId E (length (files w))) (files w) = None) :
  exists buf,
    cropImage fd w = Return (buf, None) w /\
    let x := extractData (convert E buf) in
    let cs :=
      hex.EncodeToString (md5.Sum (date x ++ username x ++ quantity x)) in
    let answer :=
      valuesAppend E (rows w)
        [cs; timeNow E; date x; username x; quantity x;
         linkOf E (newId E (length (files w)))] in
    let o := Main_func1 E fd w in
    rows (worldOf o) = fst answer /\
    length (files (worldOf o)) = S (length (files w)) /\
    exitMessage o
    = match snd answer with
      | inl a =>
          if length (FindStringSubmatch (MustCompile rowRegex)
                       (sheets.UpdatedRange a)) =? 2
          then None else Some "Couldn't Get RowID"%string
      | inr _ => Some "Couldn't Get RowID"%string
      end.
Proof.
  destruct (cropImage_fits w fd meta img Hstored Hwidth Hheight)
    as [buf Hcrop].
  exists buf. split; [exact Hcrop|]. cbv zeta.
  set (id := newId E (length (files w))) in *.
  set (f := mkFile [] (Title fd ++ B "_results")
              (B "application/vnd.google-apps.document")
              [ProcessedFolderID E] []).
  set (r := mkFile id (Title f) (MimeType f) (Parents f) (linkOf E id)).
  set (w1 := mkWorld (files w ++ [mkEntry r (Document (convert E buf))])
               (rows w)).
  assert (Hnew : lookup id (files w1)
                 = Some (mkEntry r (Document (convert E buf)))).
  { unfold w1. cbn [files]. apply lookup_app_fresh; [exact Hfresh|].
    reflexivity. }
  assert (Hrun :
    Main_func1 E fd w
    = Main_func1_settle E fd f r (extractData (convert E buf)) w1).
  { unfold Main_func1, bind. rewrite Hcrop. cbv beta iota zeta.
    unfold Files_Insert. fold id. fold f. fold r. fold w1.
    cbn [isSome]. unfold Files_Export. cbn [Id r]. fold r.
    change (Id r) with id. rewrite Hnew. reflexivity. }
  rewrite Hrun.
  destruct (settle_effect E fd f r (extractData (convert E buf)) w1)
    as (Hrows & Hlen & Hexit).
  - unfold hasFile, w1. cbn [files].
    now rewrite (lookup_app_l _ _ _ _ Hstored).
  - unfold hasFile. change (Id r) with id. now rewrite Hnew.
  - cbv zeta in Hrows, Hlen, Hexit.
    change (rows w1) with (rows w) in *.
    change (DefaultOpenWithLink r) with (linkOf E id) in *.
    split; [exact Hrows|]. split; [|exact Hexit].
    rewrite Hlen. unfold w1. cbn [files].
    rewrite length_app. simpl. lia.
Qed.

(** The theorem at the sample run on an export without a date. *)
Lemma unit_of_work_appends_once_witness :
  rows (worldOf (Main_func1 (Sample.env Sample.noDateText) Sample.shot
                   (Sample.world 4 2)))
  = [Sample.headers;
     [B "d41d8cd98f00b204e9800998ecf8427e"; B "05-02-2021 09:30:00";
      []; []; []; B "https://docs.example/doc1"]].
Proof.
  destruct (unit_of_work_appends_once (Sample.env Sample.noDateText)
              (Sample.world 4 2) Sample.shot Sample.shot (Sample.picture 4 2)
              eq_refl
              ltac:(vm_compute; split; [discriminate | reflexivity])
              ltac:(vm_compute; split; [discriminate | reflexivity])
              eq_refl)
    as (buf & _ & Hrows & _).
  rewrite Hrows. vm_compute. reflexivity.
Defined.

(** With no file under the upload folder, [Main] returns and leaves the
    store and the sheet as they were, under every scheduler. *)
Theorem Main_nothing_to_do (E : Env) (picks : list nat) (w : World)
    (Hnone :
       Forall (fun e => mem (UploadFolderID E) (Parents (file e)) = false)
         (files w)) :
  Main E picks w = Return tt w.
Proof.
  assert (Hl : getFilesFromFolder (UploadFolderID E) false w
               = Return ([], None) w).
  { unfold getFilesFromFolder, bind, Files_List.
    assert (Hf : filter (fun e => mem (UploadFolderID E) (Parents (file e)))
                   (files w) = []).
    { induction Hnone as [|e l He _ IH]; simpl; [reflexivity|].
      now rewrite He. }
    rewrite Hf. reflexivity. }
  rewrite Main_alone.
  - rewrite run_Main_steps. unfold bind. rewrite Hl. reflexivity.
  - intros cs e w' H. rewrite Hl in H. inversion H. simpl. lia.
Qed.

Lemma Main_nothing_to_do_witness :
  Main (Sample.env Sample.goodText) [0; 2; 1]
    (mkWorld [mkEntry Sample.created (Document (Body Sample.goodText))]
       [Sample.headers])
  = Return tt
      (mkWorld [mkEntry Sample.created (Document (Body Sample.goodText))]
         [Sample.headers]).
Proof.
  apply Main_nothing_to_do. repeat constructor.
Defined.

Lemma never_bind {A C : Type} (m : M A) (k : A -> M C) msg w :
  exitMessage (m w) <> Some msg ->
  (forall a w', exitMessage (k a w') <> Some msg) ->
  exitMessage (bind m k w) <> Some msg.
Proof.
  unfold bind. intros Hm Hk. destruct (m w) as [a w'|msg' w']; auto.
Qed.

Lemma moveFileToFolder_returns file from to w :
  exitMessage (moveFileToFolder file from to w) = None.
Proof.
  destruct (moveFileToFolder_effect file from to w)
    as (f & e & w' & Hm & _).
  now rewrite Hm.
Qed.

Lemma renameFile_returns file newName w :
  exitMessage (renameFile file newName w) = None.
Proof.
  destruct (renameFile_effect file newName w) as (f & e & w' & Hm & _).
  now rewrite Hm.
Qed.

Lemma settle_never_update_message E fd f r x w :
  exitMessage (Main_func1_settle E fd f r x w)
  <> Some "Unable to update spreadsheet"%string.
Proof.
  destruct x as [d u q e]. unfold Main_func1_settle.
  apply never_bind.
  - destruct (isSome e).
    + apply never_bind;
        [rewrite moveFileToFolder_returns; discriminate|].
      intros [f1 e1] w1. destruct (isSome e1); [discriminate|].
      apply never_bind;
        [rewrite moveFileToFolder_returns; discriminate|].
      intros [f2 e2] w2. destruct (isSome e2); discriminate.
    + apply never_bind;
        [rewrite moveFileToFolder_returns; discriminate|].
      intros [f1 e1] w1. destruct (isSome e1); discriminate.
  - intros [] w1. unfold bind at 1.
    destruct (appendDataToSheet_effect E d u q (DefaultOpenWithLink r) w1)
      as (rowID & ea & Happ & _).
    cbv zeta in Happ. rewrite Happ. cbv beta iota.
    rewrite checksum_not_empty. cbn [andb].
    destruct (isSome ea); [discriminate|].
    apply never_bind; [rewrite renameFile_returns; discriminate|].
    intros [r2 e2] w2.
    apply never_bind; [rewrite renameFile_returns; discriminate|].
    intros [r3 e3] w3. discriminate.
Qed.

Lemma Main_func1_never_update_message E fd w :
  exitMessage (Main_func1 E fd w)
  <> Some "Unable to update spreadsheet"%string.
Proof.
  unfold Main_func1. apply never_bind.
  - unfold cropImage. apply never_bind.
    + unfold Files_Download.
      destruct (lookup (Id fd) (files w)) as [[m [dec|txt|]]|]; discriminate.
    + intros [dec e] w'. destruct e; [discriminate|].
      destruct dec as [img|]; [|discriminate].
      cbv zeta. destruct (png.Encode _); discriminate.
  - intros [img e] w1. cbv zeta. apply never_bind; [discriminate|].
    intros [r e1] w2. destruct (isSome e1); [discriminate|].
    apply never_bind.
    + unfold Files_Export.
      destruct (lookup (Id r) (files w2)) as [[m [dec|txt|]]|]; discriminate.
    + intros [txt e2] w3. destruct (isSome e2); [discriminate|].
      apply settle_never_update_message.
Qed.

Lemma never_call_returns {X : Type} msg (op : M X) :
  (forall w, exitMessage (op w) = None) -> never msg (call op).
Proof.
  intros H w. specialize (H w). destruct (op w); [exact I | discriminate].
Qed.

Lemma never_call_bind {X C : Type} msg (op : M X) (f : X -> Go C) :
  (forall w,
     match op w with
     | Return x _ => never msg (f x)
     | Exit m _ => m <> msg
     end) ->
  never msg (bindGo (call op) f).
Proof. intros H. exact H. Qed.

Lemma never_fatal {A : Type} msg m :
  m <> msg -> never msg (fatal (A:=A) m).
Proof. intros H w. exact H. Qed.

Lemma Files_Download_returns id w : exitMessage (Files_Download id w) = None.
Proof.
  unfold Files_Download.
  destruct (lookup id (files w)) as [[m [dec|txt|]]|]; reflexivity.
Qed.

Lemma Files_Export_returns id w : exitMessage (Files_Export id w) = None.
Proof.
  unfold Files_Export.
  destruct (lookup id (files w)) as [[m [dec|txt|]]|]; reflexivity.
Qed.

Lemma Files_Get_returns id w : exitMessage (Files_Get id w) = None.
Proof. unfold Files_Get. destruct (lookup id (files w)); reflexivity. Qed.

Lemma never_Main_func1_steps E fd :
  never "Unable to update spreadsheet" (Main_func1_steps E fd).
Proof.
  unfold Main_func1_steps. cbv zeta. apply never_bindGo.
  { unfold cropImage_steps. apply never_bindGo.
    - apply never_call_returns. intros w. apply Files_Download_returns.
    - intros [decoded e].
      destruct e; [apply never_fatal; discriminate|].
      destruct decoded; [|apply never_fatal; discriminate].
      cbv zeta.
      destruct (png.Encode _); [exact I | apply never_fatal; discriminate]. }
  intros [img e]. apply never_bindGo; [now apply never_call_returns|].
  intros [r e1]. destruct (isSome e1); [apply never_fatal; discriminate|].
  apply never_bindGo.
  { apply never_call_returns. intros w. apply Files_Export_returns. }
  intros [textDoc e2].
  destruct (isSome e2); [apply never_fatal; discriminate|].
  destruct (extractData textDoc) as [d u q e3].
  unfold Main_func1_settle_steps. apply never_bindGo.
  { destruct (isSome e3).
    - apply never_bindGo.
      { apply never_call_returns. intros w. apply moveFileToFolder_returns. }
      intros [f1 x1]. destruct (isSome x1); [apply never_fatal; discriminate|].
      apply never_bindGo.
      { apply never_call_returns. intros w. apply moveFileToFolder_returns. }
      intros [f2 x2].
      destruct (isSome x2); [apply never_fatal; discriminate | exact I].
    - apply never_bindGo.
      { apply never_call_returns. intros w. apply moveFileToFolder_returns. }
      intros [f1 x1].
      destruct (isSome x1); [apply never_fatal; discriminate | exact I]. }
  intros []. apply never_call_bind. intros w.
  destruct (appendDataToSheet_effect E d u q (DefaultOpenWithLink r) w)
    as (rowID & ea & Happ & _).
  cbv zeta in Happ. rewrite Happ. cbv beta iota.
  rewrite checksum_not_empty. cbn [andb].
  destruct (isSome ea); [apply never_fatal; discriminate|].
  apply never_bindGo.
  { apply never_call_returns. intros w0. apply renameFile_returns. }
  intros [r2 x2]. apply never_bindGo.
  { apply never_call_returns. intros w0. apply renameFile_returns. }
  intros [r3 x3]. exact I.
Qed.

Lemma never_Main_loop E : forall cs,
  never "Unable to update spreadsheet" (Main_loop E cs).
Proof.
  induction cs as [|c cs IH]; [exact I|].
  cbn [Main_loop]. apply never_bindGo.
  { apply never_call_returns. intros w. apply Files_Get_returns. }
  intros [fd e]. destruct (isSome e); [apply never_fatal; discriminate|].
  cbn [go bindGo never]. split; [apply never_Main_func1_steps | exact IH].
Qed.

(** However the store and the sheet answer and whatever the scheduler
    does, [Main] never ends the process with [Unable to update
    spreadsheet]: the test before that message asks for an empty checksum,
    and the checksum [appendDataToSheet] returns is thirty-two characters
    long also when the append failed. *)
Theorem Main_never_update_message (E : Env) (picks : list nat) (w : World) :
  exitMessage (Main E picks w)
  <> Some "Unable to update spreadsheet"%string.
Proof.
  unfold Main. apply never_schedule. constructor; [|constructor].
  unfold Main_steps. apply never_bindGo.
  { apply never_call_returns. intros w0. reflexivity. }
  intros [cs e]. destruct (isSome e); [apply never_fatal; discriminate|].
  apply never_Main_loop.
Qed.

End UnitOfWork.

(** ** The listing of a folder, page by page *)

Section Paging.

Import drive Startup.

Variable svc : Service.

Lemma bind_Done {A C : Type} (m : R A) (k : A -> R C) s a s' :
  m s = Done a s' -> Startup.bind m k s = k a s'.
Proof. unfold Startup.bind. now intros ->. Qed.

Lemma getFilesFromFolder_query fuel folderID foldersOnly :
  getFilesFromFolder svc fuel folderID foldersOnly
  = getFilesFromFolder_for svc fuel (queryOf folderID foldersOnly) [] [].
Proof.
  unfold getFilesFromFolder, queryOf. cbv zeta.
  destruct foldersOnly; [|reflexivity].
  now rewrite <- !app_assoc.
Qed.

Lemma getFilesFromFolder_for_pages : forall rs fuel q tok cs s fin,
  pagesFrom svc (calls s) q tok rs fin ->
  length rs < fuel ->
  getFilesFromFolder_for svc fuel q tok cs s
  = Done (cs ++ concat (map Items rs), fin)
      (mkState (globals s) (calls s ++ requests q tok rs)).
Proof.
  induction rs as [|r rs IH]; intros [|fuel] q tok cs s fin Hp Hfuel;
    try (simpl in Hfuel; lia);
    cbn [getFilesFromFolder_for]; unfold Startup.bind, Files_List_Do.
  - cbn [pagesFrom] in Hp. destruct fin as [e|]; [|contradiction].
    rewrite Hp. cbn. now rewrite app_nil_r.
  - cbn [pagesFrom] in Hp. destruct Hp as [Hr Hrest]. rewrite Hr.
    cbv zeta. cbn [requests map concat].
    destruct (isEmpty (NextPageToken r)).
    + destruct Hrest as [-> ->]. cbn. now rewrite app_nil_r.
    + rewrite (IH fuel q (NextPageToken r) (cs ++ Items r)
                 (send (Files_List q tok) s) fin Hrest)
        by (simpl in Hfuel; lia).
      unfold send. cbn [globals calls].
      now rewrite <- !app_assoc.
Qed.

(** When the store answers the listing of a folder with pages, each but the
    last naming the token of the next, [getFilesFromFolder] returns the
    files of all the pages in the order of the pages, and has asked for each
    page once, with the token of the page before.  When the store answers a
    request with an error instead, the files of the pages before it are
    returned together with the error. *)
Theorem getFilesFromFolder_pages (fuel : nat) (folderID : bytes)
    (foldersOnly : bool) (s : State) (rs : list FileList)
    (fin : option error)
    (Hpages :
       pagesFrom svc (calls s) (queryOf folderID foldersOnly) [] rs fin)
    (Hfuel : length rs < fuel) :
  getFilesFromFolder svc fuel folderID foldersOnly s
  = Done (concat (map Items rs), fin)
      (mkState (globals s)
         (calls s ++ requests (queryOf folderID foldersOnly) [] rs)).
Proof.
  rewrite getFilesFromFolder_query.
  now rewrite (getFilesFromFolder_for_pages rs fuel _ [] [] s fin Hpages Hfuel).
Qed.

Lemma getFilesFromFolder_for_spins :
  (forall log q tok, exists r,
     listDo svc log q tok = inl r /\ NextPageToken r <> []) ->
  forall fuel q tok cs s, getFilesFromFolder_for svc fuel q tok cs s = Spin.
Proof.
  intros Hmore. induction fuel as [|fuel IH]; intros q tok cs s;
    [reflexivity|].
  cbn [getFilesFromFolder_for]. unfold Startup.bind, Files_List_Do.
  destruct (Hmore (calls s) q tok) as (r & Hr & Htok). rewrite Hr.
  cbv zeta. destruct (NextPageToken r); [contradiction|].
  cbn [isEmpty]. apply IH.
Qed.

(** Against a store that answers every request of a listing with one more
    page token, [getFilesFromFolder] is still listing after any number of
    requests: nothing but an empty token or an error ends its loop. *)
Theorem getFilesFromFolder_never_ends
    (Hmore : forall log q tok, exists r,
       listDo svc log q tok = inl r /\ NextPageToken r <> [])
    (fuel : nat) (folderID : bytes) (foldersOnly : bool) (s : State) :
  getFilesFromFolder svc fuel folderID foldersOnly s = Spin.
Proof.
  rewrite getFilesFromFolder_query.
  now apply getFilesFromFolder_for_spins.
Qed.

(** A listing touches no package variable. *)
Lemma getFilesFromFolder_for_globals : forall fuel q tok cs s r s',
  getFilesFromFolder_for svc fuel q tok cs s = Done r s' ->
  globals s' = globals s.
Proof.
  induction fuel as [|fuel IH]; intros q tok cs s r s' H; [discriminate|].
  cbn [getFilesFromFolder_for] in H.
  unfold Startup.bind, Files_List_Do in H.
  destruct (listDo svc (calls s) q tok) as [l|e].
  - cbv zeta in H. destruct (isEmpty (NextPageToken l)).
    + inversion H. reflexivity.
    + apply IH in H. exact H.
  - inversion H. reflexivity.
Qed.

Lemma getFilesFromFolder_globals fuel folderID foldersOnly s r s' :
  getFilesFromFolder svc fuel folderID foldersOnly s = Done r s' ->
  globals s' = globals s.
Proof.
  rewrite getFilesFromFolder_query. apply getFilesFromFolder_for_globals.
Qed.

End Paging.

(** The theorem on a store that lists five folders on two pages. *)
Lemma getFilesFromFolder_pages_witness :
  Startup.getFilesFromFolder Startup.twoPages 3 (B "root") true Startup.start
  = Startup.Done
      ([Startup.folder (B "f1") Startup.UploadFolderName;
        Startup.folder (B "f2") Startup.ProcessedFolderName;
        Startup.folder (B "f3") Startup.FailedFolderName;
        Startup.folder (B "f4") Startup.ReportFolderName;
        Startup.folder (B "f5") Startup.UploadFolderName], None)
      (Startup.mkState (Startup.globals Startup.start)
         [Startup.Files_List (Startup.queryOf (B "root") true) [];
          Startup.Files_List (Startup.queryOf (B "root") true) (B "page2")]).
Proof.
  exact (getFilesFromFolder_pages Startup.twoPages 3 (B "root") true
           Startup.start
           [Startup.mkFileList
              [Startup.folder (B "f1") Startup.UploadFolderName;
               Startup.folder (B "f2") Startup.ProcessedFolderName]
              (B "page2");
            Startup.mkFileList
              [Startup.folder (B "f3") Startup.FailedFolderName;
               Startup.folder (B "f4") Startup.ReportFolderName;
               Startup.folder (B "f5") Startup.UploadFolderName] []]
           None
           (conj eq_refl (conj eq_refl (conj eq_refl eq_refl)))
           ltac:(simpl; lia)).
Defined.

Lemma getFilesFromFolder_never_ends_witness :
  Startup.getFilesFromFolder Startup.endless 1000 (B "root") false
    Startup.start
  = Startup.Spin.
Proof.
  apply getFilesFromFolder_never_ends.
  intros log q tok. eexists. split; [reflexivity | discriminate].
Defined.

(** ** setupFolders *)

Section Folders.

Import drive Startup.

Variable svc : Service.

Lemma pick_app name l1 l2 old :
  pick name (l1 ++ l2) old = pick name l2 (pick name l1 old).
Proof. unfold pick. apply fold_left_app. Qed.

Lemma listed_app name l1 l2 :
  listed name (l1 ++ l2) = listed name l1 || listed name l2.
Proof. unfold listed. apply existsb_app. Qed.

Lemma pick_unlisted name : forall folders old,
  listed name folders = false -> pick name folders old = old.
Proof.
  induction folders as [|f rest IH]; intros old H; [reflexivity|].
  unfold listed in H. cbn [existsb] in H.
  apply orb_false_iff in H. destruct H as [Hf Hrest].
  unfold pick. cbn [fold_left]. rewrite Hf. now apply IH.
Qed.

Lemma pick_lastOf name : forall folders old,
  listed name folders = true -> lastOf name folders (pick name folders old).
Proof.
  induction folders as [|f rest IH] using rev_ind; intros old H;
    [discriminate|].
  rewrite pick_app. unfold pick at 1. cbn [fold_left].
  destruct (bytes_eqb (Title f) name) eqn:Hf.
  - exists rest, f, []. apply bytes_eqb_eq in Hf. repeat split; auto.
  - rewrite listed_app in H. unfold listed at 2 in H. cbn [existsb] in H.
    rewrite Hf in H. cbn [orb] in H. rewrite orb_false_r in H.
    destruct (IH old H) as (pre & f0 & post & -> & Ht & Hi & Hpost).
    exists pre, f0, (post ++ [f]). rewrite <- app_assoc.
    repeat split; auto.
    apply Forall_app. split; [exact Hpost|].
    constructor; [|constructor].
    intros Heq. apply bytes_eqb_eq in Heq. congruence.
Qed.

Lemma lor_checkOf_1 b1 b2 b3 b4 :
  Z.lor (checkOf b1 b2 b3 b4) 1 = checkOf true b2 b3 b4.
Proof. destruct b1, b2, b3, b4; reflexivity. Qed.

Lemma lor_checkOf_2 b1 b2 b3 b4 :
  Z.lor (checkOf b1 b2 b3 b4) 2 = checkOf b1 true b3 b4.
Proof. destruct b1, b2, b3, b4; reflexivity. Qed.

Lemma lor_checkOf_4 b1 b2 b3 b4 :
  Z.lor (checkOf b1 b2 b3 b4) 4 = checkOf b1 b2 true b4.
Proof. destruct b1, b2, b3, b4; reflexivity. Qed.

Lemma lor_checkOf_8 b1 b2 b3 b4 :
  Z.lor (checkOf b1 b2 b3 b4) 8 = checkOf b1 b2 b3 true.
Proof. destruct b1, b2, b3, b4; reflexivity. Qed.

(** The loop over the listing: [check] gets the bit of every name that is
    listed, and each variable the id of the last folder of its name. *)
Lemma setupFolders_range_effect : forall folders b1 b2 b3 b4 g log,
  setupFolders_range folders (checkOf b1 b2 b3 b4) (mkState g log)
  = Done (checkOf (b1 || listed UploadFolderName folders)
                  (b2 || listed ProcessedFolderName folders)
                  (b3 || listed FailedFolderName folders)
                  (b4 || listed ReportFolderName folders))
      (mkState
         (mkGlobals (pick UploadFolderName folders (UploadFolderID g))
                    (pick ProcessedFolderName folders (ProcessedFolderID g))
                    (pick FailedFolderName folders (FailedFolderID g))
                    (pick ReportFolderName folders (ReportFolderID g))
                    (SheetID g))
         log).
Proof.
  induction folders as [|f rest IH]; intros b1 b2 b3 b4 g log.
  - cbn. rewrite !orb_false_r. now destruct g.
  - cbn [setupFolders_range]. unfold listed, pick.
    cbn [existsb fold_left]. fold (listed UploadFolderName rest).
    fold (listed ProcessedFolderName rest).
    fold (listed FailedFolderName rest).
    fold (listed ReportFolderName rest).
    unfold Startup.bind at 1.
    destruct (bytes_eqb (Title f) UploadFolderName);
      unfold Startup.bind at 1;
      destruct (bytes_eqb (Title f) ProcessedFolderName);
      unfold Startup.bind at 1;
      destruct (bytes_eqb (Title f) FailedFolderName);
      unfold Startup.bind at 1;
      destruct (bytes_eqb (Title f) ReportFolderName);
      unfold Startup.bind, assign, Startup.ret;
      cbn [globals calls];
      rewrite ?lor_checkOf_1, ?lor_checkOf_2, ?lor_checkOf_4, ?lor_checkOf_8;
      rewrite IH; cbn [orb]; rewrite ?orb_true_r;
      unfold setUploadFolderID, setProcessedFolderID, setFailedFolderID,
        setReportFolderID;
      cbn [UploadFolderID ProcessedFolderID FailedFolderID ReportFolderID
           SheetID];
      reflexivity.
Qed.

(** [setupFolders] looks at the listing whether or not the listing ended in
    an error.  It asks the store for one new folder under the master folder
    for each of the four names the listing lacks, in the order upload,
    processed, failed, report, and for nothing else; when the store creates
    them, it returns no error.  The variable of a name that is listed holds
    the id of the last folder of that name, the variable of a name that is
    not the id the store gave the new folder, and [SheetID] is as before. *)
Theorem setupFolders_finds_or_creates (fuel : nat) (masterFolderID : bytes)
    (s s1 : State) (folders : list File) (e : option error)
    (Hlist :
       getFilesFromFolder svc fuel masterFolderID true s
       = Done (folders, e) s1)
    (Hcreates :
       forall log name,
         In name folderNames -> listed name folders = false ->
         exists r,
           insertDo svc log
             (mkFile [] name (B "application/vnd.google-apps.folder")
                [masterFolderID] [])
           = inl r) :
  exists g,
    setupFolders svc fuel masterFolderID s
    = Done None
        (mkState g
           (calls s1
            ++ map (folderRequest masterFolderID)
                 (filter (fun name => negb (listed name folders))
                    folderNames))) /\
    (if listed UploadFolderName folders
     then lastOf UploadFolderName folders (UploadFolderID g)
     else createdAs svc masterFolderID UploadFolderName (UploadFolderID g)) /\
    (if listed ProcessedFolderName folders
     then lastOf ProcessedFolderName folders (ProcessedFolderID g)
     else createdAs svc masterFolderID ProcessedFolderName
            (ProcessedFolderID g)) /\
    (if listed FailedFolderName folders
     then lastOf FailedFolderName folders (FailedFolderID g)
     else createdAs svc masterFolderID FailedFolderName (FailedFolderID g)) /\
    (if listed ReportFolderName folders
     then lastOf ReportFolderName folders (ReportFolderID g)
     else createdAs svc masterFolderID ReportFolderName (ReportFolderID g)) /\
    SheetID g = SheetID (globals s).
Proof.
  pose proof (getFilesFromFolder_globals svc _ _ _ _ _ _ Hlist) as Hg.
  destruct s1 as [g1 log1]. cbn [globals calls] in *. subst g1.
  unfold setupFolders.
  rewrite (bind_Done _ _ _ _ _ Hlist). cbv beta iota.
  change 0%Z with (checkOf false false false false).
  rewrite (bind_Done _ _ _ _ _
             (setupFolders_range_effect folders false false false false
                (globals s) log1)).
  cbn [orb].
  pose proof (pick_lastOf UploadFolderName folders
                (UploadFolderID (globals s))) as L1.
  pose proof (pick_lastOf ProcessedFolderName folders
                (ProcessedFolderID (globals s))) as L2.
  pose proof (pick_lastOf FailedFolderName folders
                (FailedFolderID (globals s))) as L3.
  pose proof (pick_lastOf ReportFolderName folders
                (ReportFolderID (globals s))) as L4.
  pose proof (fun log => Hcreates log UploadFolderName
                (or_introl eq_refl)) as C1.
  pose proof (fun log => Hcreates log ProcessedFolderName
                (or_intror (or_introl eq_refl))) as C2.
  pose proof (fun log => Hcreates log FailedFolderName
                (or_intror (or_intror (or_introl eq_refl)))) as C3.
  pose proof (fun log => Hcreates log ReportFolderName
                (or_intror (or_intror (or_intror (or_introl eq_refl)))))
    as C4.
  clear Hcreates Hlist.
  cbn [folderNames filter map].
  destruct (listed UploadFolderName folders),
           (listed ProcessedFolderName folders),
           (listed FailedFolderName folders),
           (listed ReportFolderName folders).
  all: cbn [negb map]; unfold folderRequest.
  all: repeat match goal with
       | |- context [(?x =? ?y)%Z] =>
           let v := eval vm_compute in (x =? y)%Z in
           change (x =? y)%Z with v
       end.
  all: cbn [negb];
    unfold orReturn, Startup.bind, createFolder, createEntity,
      Files_Insert_Do, Startup.ret, assign, send;
    cbv beta iota zeta; cbn [calls globals].
  all: repeat match goal with
       | |- context [insertDo svc ?log (mkFile [] UploadFolderName _ _ _)] =>
           let r := fresh "r" in let Hr := fresh "Hr" in
           destruct (C1 log eq_refl) as [r Hr]; rewrite Hr;
           cbv beta iota; cbn [calls globals]
       | |- context [insertDo svc ?log
                       (mkFile [] ProcessedFolderName _ _ _)] =>
           let r := fresh "r" in let Hr := fresh "Hr" in
           destruct (C2 log eq_refl) as [r Hr]; rewrite Hr;
           cbv beta iota; cbn [calls globals]
       | |- context [insertDo svc ?log (mkFile [] FailedFolderName _ _ _)] =>
           let r := fresh "r" in let Hr := fresh "Hr" in
           destruct (C3 log eq_refl) as [r Hr]; rewrite Hr;
           cbv beta iota; cbn [calls globals]
       | |- context [insertDo svc ?log (mkFile [] ReportFolderName _ _ _)] =>
           let r := fresh "r" in let Hr := fresh "Hr" in
           destruct (C4 log eq_refl) as [r Hr]; rewrite Hr;
           cbv beta iota; cbn [calls globals]
       end.
  all: eexists; split;
    [rewrite <- ?app_assoc, ?app_nil_r; reflexivity|].
  all: unfold setUploadFolderID, setProcessedFolderID, setFailedFolderID,
         setReportFolderID;
    cbn [UploadFolderID ProcessedFolderID FailedFolderID ReportFolderID
         SheetID].
  all: split; [|split; [|split; [|split; [|reflexivity]]]].
  all: first [ apply L1; reflexivity | apply L2; reflexivity
             | apply L3; reflexivity | apply L4; reflexivity
             | eexists; eexists; split; [eassumption | reflexivity] ].
Qed.

End Folders.

(** The theorem on a store that lists the upload folder only: the three
    other folders are asked for, in the order of the source. *)
Lemma setupFolders_finds_or_creates_witness :
  match Startup.setupFolders (Startup.bare true) 2 (B "root") Startup.start
  with
  | Startup.Done None s =>
      Startup.calls s
      = [Startup.Files_List (Startup.queryOf (B "root") true) [];
         Startup.folderRequest (B "root") Startup.ProcessedFolderName;
         Startup.folderRequest (B "root") Startup.FailedFolderName;
         Startup.folderRequest (B "root") Startup.ReportFolderName] /\
      Startup.UploadFolderID (Startup.globals s) = B "f1"
  | _ => False
  end.
Proof.
  destruct (setupFolders_finds_or_creates (Startup.bare true) 2 (B "root")
              Startup.start
              (Startup.mkState (Startup.globals Startup.start)
                 [Startup.Files_List (Startup.queryOf (B "root") true) []])
              [Startup.folder (B "f1") Startup.UploadFolderName] None
              eq_refl
              (fun log name _ _ => ex_intro _ _ eq_refl))
    as (g & Hrun & Hupload & _).
  rewrite Hrun. split; [reflexivity|].
  cbn in Hupload. destruct Hupload as (pre & f & post & Hl & _ & Hid & _).
  destruct pre as [|f0 [|f1 pre]]; try discriminate Hl.
  cbn in Hl. inversion Hl; subst. cbn [Startup.globals].
  rewrite <- Hid. reflexivity.
Defined.

(** ** setupSheet *)

Section Sheet.

Import drive Startup.

Variable svc : Service.

Lemma bytes_eqb_neq a b : a <> b -> bytes_eqb a b = false.
Proof.
  intros H. destruct (bytes_eqb a b) eqn:Heq; [|reflexivity].
  apply bytes_eqb_eq in Heq. contradiction.
Qed.

Lemma setupSheet_range_none : forall fs st,
  Forall (fun f => Title f <> SheetName) fs ->
  setupSheet_range fs st = Done tt st.
Proof.
  induction fs as [|f rest IH]; intros st H; [reflexivity|].
  inversion H; subst. cbn [setupSheet_range].
  rewrite bytes_eqb_neq by assumption. now apply IH.
Qed.

Lemma setupSheet_range_first : forall pre file post st,
  Forall (fun f => Title f <> SheetName) pre ->
  Title file = SheetName ->
  setupSheet_range (pre ++ file :: post) st
  = Done tt (mkState (setSheetID (Id file) (globals st)) (calls st)).
Proof.
  induction pre as [|f rest IH]; intros file post st Hpre Ht.
  - cbn [app setupSheet_range]. rewrite Ht, bytes_eqb_refl. reflexivity.
  - inversion Hpre; subst. cbn [app setupSheet_range].
    rewrite bytes_eqb_neq by assumption. now apply IH.
Qed.

(** When the listing of the folder holds files of the sheet's name,
    [setupSheet] takes the id of the first of them, whatever follows it in
    the listing, and sends no further request: nothing is created and no
    header row is written. *)
Theorem setupSheet_first_match (fuel : nat) (folderID : bytes)
    (s s1 : State) (pre post : list File) (file : File)
    (Hlist :
       getFilesFromFolder svc fuel folderID false s
       = Done (pre ++ file :: post, None) s1)
    (Hpre : Forall (fun f => Title f <> SheetName) pre)
    (Htitle : Title file = SheetName)
    (Hid : Id file <> []) :
  setupSheet svc fuel folderID s
  = Done None (mkState (setSheetID (Id file) (globals s)) (calls s1)).
Proof.
  pose proof (getFilesFromFolder_globals svc _ _ _ _ _ _ Hlist) as Hg.
  unfold setupSheet. rewrite (bind_Done _ _ _ _ _ Hlist). cbv beta iota.
  rewrite (bind_Done _ _ _ _ _
             (setupSheet_range_first pre file post s1 Hpre Htitle)).
  unfold Startup.bind at 1. unfold read. cbn [globals SheetID setSheetID].
  destruct (Id file) as [|c id]; [contradiction|].
  cbn [isEmpty]. now rewrite Hg.
Qed.

(** When the listing holds no file of the sheet's name and [SheetID] is
    empty, [setupSheet] asks the store for a new sheet under the folder and
    then the sheet service for the spreadsheet of the new file.  With an
    answer it writes the six headers to the first row of that spreadsheet
    and returns what the write answered; with an error it reads a field of
    a nil result and panics, the sheet created and no header written. *)
Theorem setupSheet_creates (fuel : nat) (folderID : bytes) (s s1 : State)
    (files : list File) (file : File)
    (Hlist :
       getFilesFromFolder svc fuel folderID false s = Done (files, None) s1)
    (Hnone : Forall (fun f => Title f <> SheetName) files)
    (Hunset : SheetID (globals s) = [])
    (Hcreated :
       insertDo svc (calls s1)
         (mkFile [] SheetName (B "application/vnd.google-apps.spreadsheet")
            [folderID] [])
       = inl file) :
  setupSheet svc fuel folderID s
  = match getDo svc (calls s1 ++ [sheetRequest folderID]) (Id file) with
    | inl ss =>
        Done
          (updateDo svc
             (calls s1 ++ [sheetRequest folderID; Spreadsheets_Get (Id file)])
             (SpreadsheetId ss) (B "Sheet1!A1:F1") [headers]
             (B "USER_ENTERED"))
          (mkState (setSheetID (SpreadsheetId ss) (globals s))
             (calls s1
              ++ [sheetRequest folderID; Spreadsheets_Get (Id file);
                  Values_Update (SpreadsheetId ss) (B "Sheet1!A1:F1")
                    [headers] (B "USER_ENTERED")]))
    | inr _ =>
        Panic
          (mkState (globals s)
             (calls s1 ++ [sheetRequest folderID; Spreadsheets_Get (Id file)]))
    end.
Proof.
  pose proof (getFilesFromFolder_globals svc _ _ _ _ _ _ Hlist) as Hg.
  unfold setupSheet. rewrite (bind_Done _ _ _ _ _ Hlist). cbv beta iota.
  rewrite (bind_Done _ _ _ _ _ (setupSheet_range_none files s1 Hnone)).
  unfold Startup.bind at 1. unfold read. rewrite Hg, Hunset. cbn [isEmpty].
  unfold Startup.bind at 1.
  unfold createSheet, createEntity, Files_Insert_Do. cbv zeta.
  rewrite Hcreated. unfold send. cbn [calls globals].
  unfold Startup.bind at 1. unfold Spreadsheets_Get_Do, send.
  cbn [calls globals]. unfold sheetRequest.
  destruct (getDo svc _ (Id file)) as [ss|err].
  - unfold Startup.bind, assign, read, Values_Update_Do, Startup.ret, send.
    cbn [calls globals SheetID setSheetID]. rewrite Hg.
    rewrite <- ?app_assoc. cbn [app].
    destruct (updateDo svc _ _ _ _ _); reflexivity.
  - unfold panic. rewrite Hg. rewrite <- ?app_assoc. reflexivity.
Qed.

End Sheet.

(** The theorem on a folder that lists notes and two sheets of the name. *)
Lemma setupSheet_first_match_witness :
  Startup.setupSheet Startup.withSheets 1 (B "f4") Startup.start
  = Startup.Done None
      (Startup.mkState (Startup.mkGlobals [] [] [] [] (B "s1"))
         [Startup.Files_List (Startup.queryOf (B "f4") false) []]).
Proof.
  apply (setupSheet_first_match Startup.withSheets 1 (B "f4") Startup.start
           (Startup.mkState (Startup.globals Startup.start)
              [Startup.Files_List (Startup.queryOf (B "f4") false) []])
           [Startup.sheet (B "n1") (B "Notes")]
           [Startup.sheet (B "s2") Startup.SheetName]
           (Startup.sheet (B "s1") Startup.SheetName)
           eq_refl).
  - constructor; [discriminate | constructor].
  - reflexivity.
  - discriminate.
Defined.

(** The theorem on an empty report folder and a sheet service that is
    down: the sheet is created and the start-up panics. *)
Lemma setupSheet_creates_witness :
  Startup.setupSheet (Startup.bare false) 1 (B "f4") Startup.start
  = Startup.Panic
      (Startup.mkState (Startup.globals Startup.start)
         [Startup.Files_List (Startup.queryOf (B "f4") false) [];
          Startup.sheetRequest (B "f4");
          Startup.Spreadsheets_Get (B "new1")]).
Proof.
  apply (setupSheet_creates (Startup.bare false) 1 (B "f4") Startup.start
           (Startup.mkState (Startup.globals Startup.start)
              [Startup.Files_List (Startup.queryOf (B "f4") false) []])
           []
           (drive.mkFile (B "new1") Startup.SheetName
              (B "application/vnd.google-apps.spreadsheet") [B "f4"] [])
           eq_refl (Forall_nil _) eq_refl eq_refl).
Defined.

(** ** What each error of the extraction says about the text *)

Section ErrorMeaning.

Lemma app_eq_length {A : Type} : forall (l1 l2 r1 r2 : list A),
  l1 ++ r1 = l2 ++ r2 -> length l1 = length l2 -> l1 = l2 /\ r1 = r2.
Proof.
  induction l1 as [|x l1 IH]; intros [|y l2] r1 r2 H Hl;
    try discriminate Hl.
  - auto.
  - simpl in H. inversion H; subst.
    destruct (IH l2 r1 r2) as [-> ->]; auto.
Qed.

Lemma date_matches d rest :
  hasShape dateShape d -> Matches dateProg d rest [(1, d)].
Proof.
  intros Hshape. unfold dateProg.
  eapply (MConcat_eq _ _ _ d [] rest _ [(1, d)] []);
    [symmetry; apply app_nil_r | reflexivity | | constructor].
  constructor. eapply shapeOf_intro; [reflexivity | exact Hshape].
Qed.

Lemma date_search text :
  FindStringSubmatch (MustCompile dateRegex) text <> [] -> holdsDate text.
Proof.
  rewrite compile_dateRegex. intros Hne.
  destruct (FindStringSubmatch_sound dateProg text _ eq_refl Hne)
    as (pre & w & rest & cs & Ht & Hm & _).
  unfold dateProg in Hm. apply Matches_cons_inv in Hm.
  destruct Hm as (w1 & w2 & cs1 & cs2 & -> & -> & H1 & H2).
  apply Matches_Empty_inv in H2. destruct H2 as [-> ->].
  apply Matches_Capture_inv in H1. destruct H1 as (cs' & -> & H1).
  eapply Matches_shapeOf in H1; [|reflexivity]. destruct H1 as [Hs _].
  rewrite app_nil_r in Ht. exists pre, w1, rest. split; assumption.
Qed.

Lemma date_search_nil text :
  FindStringSubmatch (MustCompile dateRegex) text = [] -> ~ holdsDate text.
Proof.
  rewrite compile_dateRegex.
  intros Hnil (pre & d & rest & Ht & Hs).
  exact (FindStringSubmatch_nil _ _ Hnil pre d rest [(1, d)] Ht
           (date_matches d rest Hs)).
Qed.

Lemma member_search text :
  FindStringSubmatch (MustCompile usernameRegex) text <> [] ->
  holdsMember text.
Proof.
  rewrite compile_usernameRegex. intros Hne.
  destruct (FindStringSubmatch_at usernameProg text _ eq_refl Hne)
    as (pre & s0 & s' & cs & Ht & Hb & _ & _).
  apply username_backtrack in Hb.
  destruct Hb as (a & o & name & c & -> & Ha & Hn & Ho & Hc & _).
  exists name, pre, a, o, c, s'. repeat split; assumption.
Qed.

Lemma member_search_nil text :
  FindStringSubmatch (MustCompile usernameRegex) text = [] ->
  ~ holdsMember text.
Proof.
  rewrite compile_usernameRegex.
  intros Hnil (name & pre & a & o & c & rest & Ht & Ha & Hn & Ho & Hc).
  apply (FindStringSubmatch_nil _ _ Hnil pre
           (B "Member Donation" ++ a ++ [o] ++ name ++ [c]) rest
           [(1, name)]).
  - rewrite Ht. now rewrite <- !app_assoc.
  - now apply username_matches.
Qed.

Lemma sameFold_length l w : sameFold l w -> length l = length w.
Proof. apply Forall2_length. Qed.

(** A quantity pattern gives nothing to use exactly when no digit or comma
    follows the first place of its label. *)
Lemma capture_none p label text :
  In (p, label) quantityTable ->
  capture p text = None <-> noQuantityAt label text.
Proof.
  intros Hin. unfold capture. rewrite (quantityTable_compiles _ _ Hin).
  destruct (FindStringSubmatch (quantityProg label) text) as [|x l] eqn:Hf.
  - split; [|reflexivity]. intros _ pre rest [(lab & Ht & Hl) _].
    exfalso.
    apply (FindStringSubmatch_nil _ _ Hf pre (lab ++ CRLF ++ []) rest
             [(1, [])]).
    + rewrite Ht, app_nil_r. now rewrite <- !app_assoc.
    + apply quantity_matches; [exact Hl | constructor].
  - apply FindStringSubmatch_at in Hf; [|discriminate].
    destruct Hf as (pre & s0 & s' & cs & Ht & Hb & Hres & Hmin).
    apply quantity_backtrack in Hb.
    destruct Hb as (lab & q & -> & Hl & Hq & Hstop & ->).
    assert (Hx : l = [q]).
    { unfold submatches in Hres.
      rewrite quantityProg_classes, NumSubexp_classes in Hres.
      inversion Hres. reflexivity. }
    subst l. clear Hres.
    assert (Hstart : forall pre' lab' rest',
              text = pre' ++ lab' ++ CRLF ++ rest' ->
              sameFold (B label) lab' -> length pre <= length pre').
    { intros pre' lab' rest' Ht' Hl'.
      apply (Hmin pre' (lab' ++ CRLF ++ []) rest' [(1, [])]).
      - rewrite Ht', app_nil_r. now rewrite <- !app_assoc.
      - apply quantity_matches; [exact Hl' | constructor]. }
    split.
    + intros Hnone. destruct q as [|c q]; [|discriminate Hnone].
      intros pre1 rest1 [(lab1 & Ht1 & Hl1) Hmin1].
      cbn [app] in Ht.
      pose proof (Hstart pre1 lab1 rest1 Ht1 Hl1) as Hle1.
      pose proof (Hmin1 pre lab s' Ht Hl) as Hle2.
      rewrite Ht in Ht1.
      destruct (app_eq_length _ _ _ _ Ht1) as [_ Hrest]; [lia|].
      apply app_eq_length in Hrest;
        [|rewrite <- (sameFold_length _ _ Hl), <- (sameFold_length _ _ Hl1);
          reflexivity].
      destruct Hrest as [_ Hrest]. unfold CRLF in Hrest.
      cbn [app] in Hrest. inversion Hrest; subst. exact Hstop.
    + intros Hno.
      assert (Hq0 : stopsAt quantityChars (q ++ s')).
      { apply (Hno pre (q ++ s')). split; [|exact Hstart].
        exists lab. split; [exact Ht | exact Hl]. }
      destruct q as [|c q]; [reflexivity|].
      cbn [app stopsAt] in Hq0. inversion Hq as [|? ? Hc _]; subst.
      unfold isQuantityChar in Hc. congruence.
Qed.

Lemma firstCapture_none text :
  firstCapture quantityPatterns text = None
  <-> forall p label, In (p, label) quantityTable -> noQuantityAt label text.
Proof.
  unfold quantityPatterns. cbn [firstCapture]. split.
  - intros H p label Hin. apply (capture_none p label text Hin).
    destruct (capture quantityZeroRegex text) eqn:H0; [discriminate|].
    destruct (capture quantityFirstRegex text) eqn:H1; [discriminate|].
    destruct (capture quantitySecondRegex text) eqn:H2; [discriminate|].
    unfold quantityTable in Hin. simpl in Hin.
    destruct Hin as [Hp|[Hp|[Hp|[]]]]; inversion Hp; subst; assumption.
  - intros H.
    rewrite (proj2 (capture_none quantityZeroRegex "Member Donation" text
                      ltac:(left; reflexivity)))
      by (apply (H quantityZeroRegex); left; reflexivity).
    rewrite (proj2 (capture_none quantityFirstRegex "Type" text
                      ltac:(right; left; reflexivity)))
      by (apply (H quantityFirstRegex); right; left; reflexivity).
    rewrite (proj2 (capture_none quantitySecondRegex "Quantity" text
                      ltac:(right; right; left; reflexivity)))
      by (apply (H quantitySecondRegex); right; right; left; reflexivity).
    reflexivity.
Qed.

(** What each of the three errors of [extractData] says about the text.
    [Date Not Found]: no part of the text has the date shape.
    [Username Not Found]: there is such a part, and no line has the member
    layout.  [Quantity Not Found]: both are there, and for each of the three
    labels the first place where the label is followed by a carriage return
    and a line feed, if there is one, is not followed by a digit or a comma;
    a later place of a label with a number after it does not help. *)
Theorem extraction_error_meaning (text : bytes) :
  (err (extractData (Body text)) = Some DateNotFound
   <-> ~ holdsDate text) /\
  (err (extractData (Body text)) = Some UsernameNotFound
   <-> holdsDate text /\ ~ holdsMember text) /\
  (err (extractData (Body text)) = Some QuantityNotFound
   <-> holdsDate text /\ holdsMember text /\
       forall p label,
         In (p, label) quantityTable -> noQuantityAt label text).
Proof.
  rewrite extractData_unfold.
  pose proof (date_search text) as Hd1.
  pose proof (date_search_nil text) as Hd0.
  pose proof (member_search text) as Hu1.
  pose proof (member_search_nil text) as Hu0.
  pose proof (firstCapture_none text) as Hq.
  destruct (FindStringSubmatch (MustCompile dateRegex) text) as [|dw dl].
  { specialize (Hd0 eq_refl). cbn [failure err].
    split; [tauto|]. split; (split; [discriminate | tauto]). }
  assert (Hdate : holdsDate text) by (apply Hd1; discriminate).
  destruct (FindStringSubmatch (MustCompile usernameRegex) text) as [|uw ul].
  { specialize (Hu0 eq_refl). cbn [failure err].
    split; [split; [discriminate | tauto]|].
    split; [tauto|]. split; [discriminate | tauto]. }
  assert (Hmember : holdsMember text) by (apply Hu1; discriminate).
  destruct (firstCapture quantityPatterns text) as [q|].
  - cbn [err].
    split; [split; [discriminate | tauto]|].
    split; [split; [discriminate | tauto]|].
    split; [discriminate|].
    intros (_ & _ & Hall). apply Hq in Hall. discriminate.
  - cbn [failure err].
    split; [split; [discriminate | tauto]|].
    split; [split; [discriminate | tauto]|].
    split; [|reflexivity].
    intros _. split; [exact Hdate|]. split; [exact Hmember|].
    now apply Hq.
Qed.

End ErrorMeaning.

(** ** Where the two files of a unit of work end *)

Section FilesAfterwards.

Import drive.

Lemma lookup_replace_same id e' : forall st e,
  lookup id st = Some e -> Id (file e') = id ->
  lookup id (replace id e' st) = Some e'.
Proof.
  induction st as [|e0 st IH]; simpl; intros e H Hid; [discriminate|].
  destruct (bytes_eqb id (Id (file e0))) eqn:Hhit; simpl.
  - now rewrite Hid, bytes_eqb_refl.
  - rewrite Hhit. eapply IH; eauto.
Qed.

Lemma lookup_replace_other id id' e' : forall st,
  Id (file e') = id' -> id <> id' ->
  lookup id (replace id' e' st) = lookup id st.
Proof.
  intros st Hid Hne. induction st as [|e0 st IH]; simpl; [reflexivity|].
  destruct (bytes_eqb id' (Id (file e0))) eqn:Hhit; simpl.
  - apply bytes_eqb_eq in Hhit. rewrite Hid, <- Hhit.
    now rewrite (bytes_eqb_neq id id' Hne).
  - destruct (bytes_eqb id (Id (file e0))); [reflexivity | exact IH].
Qed.

(** An update of a file the store has: the entry it leaves, and that it
    leaves the other files and the sheet alone. *)
Lemma Files_Update_found id body rm add w e :
  lookup id (files w) = Some e ->
  let f' :=
    mkFile id (Title body) (MimeType (file e))
      (addParent add (removeParent rm (Parents (file e))))
      (DefaultOpenWithLink (file e)) in
  exists w',
    Files_Update id body rm add w = Return (f', None) w' /\
    lookup id (files w') = Some (mkEntry f' (media e)) /\
    (forall id', id' <> id -> lookup id' (files w') = lookup id' (files w)) /\
    rows w' = rows w.
Proof.
  intros Hl. cbv zeta. unfold Files_Update. rewrite Hl.
  eexists. split; [reflexivity|]. cbn [files rows].
  split; [|split; [|reflexivity]].
  - eapply lookup_replace_same; eauto.
  - intros id' Hne. now apply lookup_replace_other.
Qed.

Lemma Files_Update_missing id body rm add w :
  lookup id (files w) = None ->
  Files_Update id body rm add w
  = Return (body, Some (apiError "File not found")) w.
Proof. intros Hl. unfold Files_Update. now rewrite Hl. Qed.

Lemma appendDataToSheet_result E date name amount link w :
  let cs := hex.EncodeToString (md5.Sum (date ++ name ++ amount)) in
  let answer :=
    valuesAppend E (rows w) [cs; timeNow E; date; name; amount; link] in
  appendDataToSheet E date name amount link w
  = Return
      match snd answer with
      | inl a =>
          let res :=
            FindStringSubmatch (MustCompile rowRegex) (sheets.UpdatedRange a)
          in
          if length res =? 2 then (nth 1 res [], cs, None)
          else ([], cs, Some RowParseError)
      | inr e => ([], cs, Some e)
      end
      (mkWorld (files w) (fst answer)).
Proof.
  cbv zeta. unfold appendDataToSheet, bind, Values_Append, ret. cbv zeta.
  destruct (valuesAppend E (rows w) _) as [rows' [r|e]]; cbn [fst snd];
    [|reflexivity].
  destruct (length _ =? 2); reflexivity.
Qed.

(** From the results of [extractData] on: the entries the store holds for
    the picture and for the document when the unit of work is over. *)
Lemma settle_files E fd f r x w m1 m2 :
  lookup (Id fd) (files w) = Some (mkEntry fd m1) ->
  lookup (Id r) (files w) = Some (mkEntry r m2) ->
  lookup (Id f) (files w) = None ->
  Id fd <> Id r ->
  let cs :=
    hex.EncodeToString (md5.Sum (date x ++ username x ++ quantity x)) in
  let answer :=
    valuesAppend E (rows w)
      [cs; timeNow E; date x; username x; quantity x;
       DefaultOpenWithLink r] in
  let o := Main_func1_settle E fd f r x w in
  lookup (Id fd) (files (worldOf o))
  = Some
      (mkEntry
         (mkFile (Id fd) (Title fd) (MimeType fd)
            (addParent
               (Some (if isSome (err x) then FailedFolderID E
                      else ProcessedFolderID E))
               (removeParent (Some (UploadFolderID E)) (Parents fd)))
            (DefaultOpenWithLink fd))
         m1) /\
  lookup (Id r) (files (worldOf o))
  = Some
      (mkEntry
         (mkFile (Id r)
            match snd answer with
            | inl a =>
                let res :=
                  FindStringSubmatch (MustCompile rowRegex)
                    (sheets.UpdatedRange a) in
                if length res =? 2
                then nth 1 res [] ++ B "-" ++ Title r ++ B "-" ++ cs
                else Title r
            | inr _ => Title r
            end
            (MimeType r)
            (if isSome (err x)
             then addParent (Some (FailedFolderID E))
                    (removeParent (Some (UploadFolderID E)) (Parents r))
             else Parents r)
            (DefaultOpenWithLink r))
         m2).
Proof.
  intros Hfd Hr Hf Hne. cbv zeta.
  assert (Hfne1 : Id f <> Id fd) by (intros Heq; congruence).
  assert (Hfne2 : Id f <> Id r) by (intros Heq; congruence).
  destruct x as [d u q e]. cbn [date username quantity err].
  remember (Main_func1_settle E fd f r (mkExtracted d u q e) w) as o eqn:Ho.
  unfold Main_func1_settle in Ho. unfold bind at 1 in Ho.
  set (target := if isSome e then FailedFolderID E else ProcessedFolderID E).
  set (fd' := mkFile (Id fd) (Title fd) (MimeType fd)
                (addParent (Some target)
                   (removeParent (Some (UploadFolderID E)) (Parents fd)))
                (DefaultOpenWithLink fd)).
  set (r' := mkFile (Id r) (Title r) (MimeType r)
               (if isSome e
                then addParent (Some (FailedFolderID E))
                       (removeParent (Some (UploadFolderID E)) (Parents r))
                else Parents r)
               (DefaultOpenWithLink r)).
  assert (Hmoved : exists wm,
    (if isSome e
     then
       bind (moveFileToFolder fd (UploadFolderID E) (FailedFolderID E))
         (fun x0 => let '(_, err2) := x0 in
            if isSome err2 then Fatalf "Unable to move file to Failed"
            else
              bind (moveFileToFolder r (UploadFolderID E) (FailedFolderID E))
                (fun x1 => let '(_, err3) := x1 in
                   if isSome err3 then Fatalf "Unable to move file to Failed"
                   else ret tt))
     else
       bind (moveFileToFolder fd (UploadFolderID E) (ProcessedFolderID E))
         (fun x0 => let '(_, err0) := x0 in
            if isSome err0 then Fatalf "Unable to move file to Failed"
            else ret tt)) w = Return tt wm /\
    rows wm = rows w /\
    lookup (Id fd) (files wm) = Some (mkEntry fd' m1) /\
    lookup (Id r) (files wm) = Some (mkEntry r' m2) /\
    lookup (Id f) (files wm) = None).
  { unfold fd', r', target. destruct (isSome e).
    - destruct (Files_Update_found (Id fd) fd (Some (UploadFolderID E))
                  (Some (FailedFolderID E)) w _ Hfd)
        as (w1 & Hu1 & Hl1 & Ho1 & Hr1).
      cbn [file media] in Hu1, Hl1.
      assert (Hr1' : lookup (Id r) (files w1) = Some (mkEntry r m2)).
      { rewrite Ho1; [exact Hr | congruence]. }
      destruct (Files_Update_found (Id r) r (Some (UploadFolderID E))
                  (Some (FailedFolderID E)) w1 _ Hr1')
        as (w2 & Hu2 & Hl2 & Ho2 & Hr2).
      cbn [file media] in Hu2, Hl2.
      exists w2. unfold bind, moveFileToFolder.
      rewrite Hu1. cbn [isSome]. rewrite Hu2. cbn [isSome].
      split; [reflexivity|]. split; [congruence|].
      split; [rewrite Ho2; [exact Hl1 | exact Hne]|].
      split; [exact Hl2|].
      rewrite Ho2, Ho1; assumption.
    - destruct (Files_Update_found (Id fd) fd (Some (UploadFolderID E))
                  (Some (ProcessedFolderID E)) w _ Hfd)
        as (w1 & Hu1 & Hl1 & Ho1 & Hr1).
      cbn [file media] in Hu1, Hl1.
      exists w1. unfold bind, moveFileToFolder.
      rewrite Hu1. cbn [isSome].
      split; [reflexivity|]. split; [exact Hr1|].
      split; [exact Hl1|].
      split; [rewrite Ho1; [|congruence]; destruct r; exact Hr|].
      rewrite Ho1; assumption. }
  destruct Hmoved as (wm & Hm & Hrows & Hlfd & Hlr & Hlf).
  rewrite Hm in Ho. clear Hm.
  unfold bind at 1 in Ho.
  rewrite appendDataToSheet_result in Ho. rewrite Hrows in Ho.
  set (cs := hex.EncodeToString (md5.Sum (d ++ u ++ q))) in *.
  destruct (valuesAppend E (rows w) _) as [rows' [a|e0]]; cbn [fst snd] in *.
  - cbv zeta in Ho.
    set (res := FindStringSubmatch (MustCompile rowRegex)
                  (sheets.UpdatedRange a)) in *.
    destruct (length res =? 2).
    + unfold cs in Ho at 1. rewrite checksum_not_empty in Ho.
      cbn [andb isSome] in Ho. fold cs in Ho.
      unfold bind at 1 in Ho. unfold renameFile at 1 in Ho.
      cbv zeta in Ho. cbn [Id] in Ho. unfold bind at 1 in Ho.
      destruct (Files_Update_found (Id r)
                  (mkFile (Id r) (nth 1 res [] ++ B "-" ++ Title r ++ B "-" ++ cs)
                     (MimeType r) (Parents r) (DefaultOpenWithLink r))
                  None None (mkWorld (files wm) rows') _ Hlr)
        as (w3 & Hu3 & Hl3 & Ho3 & Hr3).
      cbn [file media Title MimeType Parents DefaultOpenWithLink r'
           addParent removeParent] in Hu3, Hl3.
      rewrite Hu3 in Ho. unfold ret at 1 in Ho.
      unfold bind at 1 in Ho. unfold renameFile at 1 in Ho.
      cbv zeta in Ho. cbn [Id] in Ho. unfold bind at 1 in Ho.
      rewrite Files_Update_missing in Ho
        by (rewrite Ho3; [exact Hlf | exact Hfne2]).
      unfold ret in Ho. subst o. cbn [worldOf].
      split; [rewrite Ho3; [exact Hlfd | exact Hne]|].
      exact Hl3.
    + cbn [isSome andb] in Ho. rewrite andb_true_r in Ho.
      unfold cs in Ho at 1. rewrite checksum_not_empty in Ho.
      unfold Fatalf in Ho. subst o. cbn [worldOf files].
      split; [exact Hlfd | exact Hlr].
  - cbn [isSome andb] in Ho. rewrite andb_true_r in Ho.
    unfold cs in Ho at 1. rewrite checksum_not_empty in Ho.
    unfold Fatalf in Ho. subst o. cbn [worldOf files].
    split; [exact Hlfd | exact Hlr].
Qed.

Lemma lookup_app_none id st e :
  lookup id st = None -> Id (file e) <> id -> lookup id (st ++ [e]) = None.
Proof.
  intros Hnone Hid. induction st as [|e0 st IH]; simpl in *.
  - rewrite bytes_eqb_neq; [reflexivity | congruence].
  - destruct (bytes_eqb id (Id (file e0))); [discriminate | auto].
Qed.

(** Once the picture is cropped, the unit of work creates the document
    under a fresh id and goes on from the text the document exports to. *)
Lemma Main_func1_run E fd w buf :
  cropImage fd w = Return (buf, None) w ->
  lookup (newId E (length (files w))) (files w) = None ->
  let id := newId E (length (files w)) in
  let f :=
    mkFile [] (Title fd ++ B "_results")
      (B "application/vnd.google-apps.document") [ProcessedFolderID E] [] in
  let r := mkFile id (Title f) (MimeType f) (Parents f) (linkOf E id) in
  Main_func1 E fd w
  = Main_func1_settle E fd f r (extractData (convert E buf))
      (mkWorld (files w ++ [mkEntry r (Document (convert E buf))]) (rows w)).
Proof.
  intros Hcrop Hfresh. cbv zeta.
  unfold Main_func1, bind. rewrite Hcrop. cbv beta iota zeta.
  unfold Files_Insert. cbn [isSome]. unfold Files_Export. cbn [files Id].
  erewrite lookup_app_fresh; [reflexivity | exact Hfresh | reflexivity].
Qed.

(** For every picture in the store that decodes and is at least two pixels
    wide, in a store without a file of the empty id: what the store holds
    for the two files when the unit of work is over.  The picture has left
    the upload folder for the failed folder when the extraction failed and
    for the processed folder when it did not, and has the title it had: the
    second rename is sent for the empty id and changes nothing.  The
    document is under the processed folder it was created in; when the
    extraction failed the failed folder is added to it and only the upload
    folder taken away.  It is renamed to the row id, its title and the
    checksum exactly when the sheet answered the append with a reference a
    row id can be read off. *)
Theorem unit_of_work_files (E : Env) (w : World) (fd : File)
    (img : image.Image)
    (Hstored :
       lookup (Id fd) (files w) = Some (mkEntry fd (Picture (Some img))))
    (Hwidth : (2 <= image.Dx (image.Bounds img) < 2 ^ 32)%Z)
    (Hheight : (1 <= image.Dy (image.Bounds img) < 2 ^ 32)%Z)
    (Hfresh : lookup (newId E (length (files w))) (files w) = None)
    (Hnamed : lookup [] (files w) = None)
    (Hid : newId E (length (files w)) <> []) :
  exists buf,
    cropImage fd w = Return (buf, None) w /\
    let x := extractData (convert E buf) in
    let id := newId E (length (files w)) in
    let cs :=
      hex.EncodeToString (md5.Sum (date x ++ username x ++ quantity x)) in
    let answer :=
      valuesAppend E (rows w)
        [cs; timeNow E; date x; username x; quantity x; linkOf E id] in
    let o := Main_func1 E fd w in
    lookup (Id fd) (files (worldOf o))
    = Some
        (mkEntry
           (mkFile (Id fd) (Title fd) (MimeType fd)
              (addParent
                 (Some (if isSome (err x) then FailedFolderID E
                        else ProcessedFolderID E))
                 (removeParent (Some (UploadFolderID E)) (Parents fd)))
              (DefaultOpenWithLink fd))
           (Picture (Some img))) /\
    lookup id (files (worldOf o))
    = Some
        (mkEntry
           (mkFile id
              match snd answer with
              | inl a =>
                  let res :=
                    FindStringSubmatch (MustCompile rowRegex)
                      (sheets.UpdatedRange a) in
                  if length res =? 2
                  then nth 1 res [] ++ B "-" ++ (Title fd ++ B "_results")
                       ++ B "-" ++ cs
                  else Title fd ++ B "_results"
              | inr _ => Title fd ++ B "_results"
              end
              (B "application/vnd.google-apps.document")
              (if isSome (err x)
               then addParent (Some (FailedFolderID E))
                      (removeParent (Some (UploadFolderID E))
                         [ProcessedFolderID E])
               else [ProcessedFolderID E])
              (linkOf E id))
           (Document (convert E buf))).
Proof.
  destruct (cropImage_fits w fd fd img Hstored Hwidth Hheight)
    as [buf Hcrop].
  exists buf. split; [exact Hcrop|]. cbv zeta.
  rewrite (Main_func1_run E fd w buf Hcrop Hfresh).
  set (id := newId E (length (files w))) in *.
  set (f := mkFile [] (Title fd ++ B "_results")
              (B "application/vnd.google-apps.document")
              [ProcessedFolderID E] []).
  set (r := mkFile id (Title f) (MimeType f) (Parents f) (linkOf E id)).
  set (w1 := mkWorld (files w ++ [mkEntry r (Document (convert E buf))])
               (rows w)).
  assert (Hne : Id fd <> id) by (intros Heq; congruence).
  exact (settle_files E fd f r (extractData (convert E buf)) w1
           (Picture (Some img)) (Document (convert E buf))
           (lookup_app_l _ _ _ _ Hstored)
           (lookup_app_fresh id (files w)
              (mkEntry r (Document (convert E buf))) Hfresh eq_refl)
           (lookup_app_none [] (files w)
              (mkEntry r (Document (convert E buf))) Hnamed Hid)
           Hne).
Qed.

(** The theorem at the sample run on an export without a date: the
    document ends under two folders, renamed after the row of empty
    strings the sheet took. *)
Lemma unit_of_work_files_witness :
  lookup (B "doc1")
    (files (worldOf (Main_func1 (Sample.env Sample.noDateText) Sample.shot
                       (Sample.world 4 2))))
  = Some
      (mkEntry
         (mkFile (B "doc1")
            (B "2-shot.png_results-d41d8cd98f00b204e9800998ecf8427e")
            (B "application/vnd.google-apps.document")
            [B "processed"; B "failed"] (B "https://docs.example/doc1"))
         (Document (Body Sample.noDateText))).
Proof.
  destruct (unit_of_work_files (Sample.env Sample.noDateText)
              (Sample.world 4 2) Sample.shot (Sample.picture 4 2)
              eq_refl
              ltac:(vm_compute; split; [discriminate | reflexivity])
              ltac:(vm_compute; split; [discriminate | reflexivity])
              eq_refl eq_refl ltac:(discriminate))
    as (buf & _ & _ & Hdoc).
  etransitivity; [exact Hdoc|]. vm_compute. reflexivity.
Defined.

End FilesAfterwards.

(** ** A picture that does not decode, among the files of a run *)

Section BadPicture.

Import drive.

Variable Inv : World -> Prop.










End BadPicture.

Section BadPictureInMain.

Import drive.

Variable E : Env.
Variable id : bytes.














End BadPictureInMain.

Section BadPictureEndsRun.

Import drive.



End BadPictureEndsRun.

(** ** The end-to-end scenario, on any text *)

Arguments inClass : simpl nomatch.

Section ScenarioAnywhere.

Lemma firstStart_min r : forall s n,
  firstStart r s = Some n ->
  forall p w r' cs',
    s = p ++ w ++ r' -> Matches r w r' cs' -> n <= length p.
Proof.
  induction s as [|c s IH]; intros n Hn p w r' cs' Hs Hm;
    cbn [firstStart] in Hn.
  - destruct (backtrack r [] [] accept) eqn:Hb; [|discriminate].
    inversion Hn; subst. lia.
  - destruct (backtrack r (c :: s) [] accept) eqn:Hb.
    + inversion Hn; subst. lia.
    + destruct (firstStart r s) as [m|] eqn:Hm'; [|discriminate].
      inversion Hn; subst n.
      destruct p as [|x p].
      * simpl in Hs.
        pose proof (backtrack_none _ _ _ _ Hb _ _ _ Hs Hm) as Hk.
        discriminate.
      * simpl in Hs. inversion Hs; subst. simpl.
        apply le_n_S. eapply IH; eauto.
Qed.

(** The first part of the date shape is what the date pattern finds. *)
Lemma firstDate_search text d :
  firstDate text d ->
  FindStringSubmatch (MustCompile dateRegex) text = [d; d].
Proof.
  intros (pre & rest & Ht & Hshape & Hfirst). rewrite compile_dateRegex.
  destruct (FindStringSubmatch dateProg text) as [|x l] eqn:Hf.
  { exfalso.
    exact (FindStringSubmatch_nil _ _ Hf pre d rest [(1, d)] Ht
             (date_matches d rest Hshape)). }
  apply FindStringSubmatch_leftmost in Hf; [|discriminate].
  destruct Hf as (pre0 & w & rest0 & cs & Ht0 & Hm & Hres & Hmin).
  pose proof (Hmin pre d rest [(1, d)] Ht (date_matches d rest Hshape))
    as Hle1.
  unfold dateProg in Hm. apply Matches_cons_inv in Hm.
  destruct Hm as (w1 & w2 & cs1 & cs2 & -> & -> & H1 & H2).
  apply Matches_Empty_inv in H2. destruct H2 as [-> ->].
  apply Matches_Capture_inv in H1. destruct H1 as (cs' & -> & H1).
  eapply Matches_shapeOf in H1; [|reflexivity]. destruct H1 as [Hs ->].
  rewrite app_nil_r in *.
  pose proof (Hfirst pre0 w1 rest0 Ht0 Hs) as Hle2.
  rewrite Ht in Ht0.
  destruct (app_eq_length _ _ _ _ Ht0) as [_ Htail]; [lia|].
  apply app_eq_length in Htail;
    [|rewrite (hasShape_length _ _ Hshape), (hasShape_length _ _ Hs);
      reflexivity].
  destruct Htail as [-> _]. simpl in Hres. exact Hres.
Qed.

(** Two runs within a class, each followed by a byte outside it or by
    nothing, are the same run when they begin at the same place. *)
Lemma run_unique cl : forall q q' s s',
  Forall (fun c => inClass cl c = true) q ->
  Forall (fun c => inClass cl c = true) q' ->
  stopsAt cl s -> stopsAt cl s' ->
  q ++ s = q' ++ s' -> q = q'.
Proof.
  induction q as [|c q IH]; intros [|c' q'] s s' Hq Hq' Hs Hs' Heq.
  - reflexivity.
  - simpl in Heq. subst s. cbn [stopsAt] in Hs.
    inversion Hq'; subst. congruence.
  - simpl in Heq. subst s'. cbn [stopsAt] in Hs'.
    inversion Hq; subst. congruence.
  - simpl in Heq. injection Heq as Hcc Htl. subst c'.
    inversion Hq as [|? ? Hc Hq1]; inversion Hq' as [|? ? Hc' Hq1']; subst.
    f_equal. exact (IH q' s s' Hq1 Hq1' Hs Hs' Htl).
Qed.

(** The first place of a label gives its pattern its capture. *)
Lemma firstLabel_capture p label text pre q rest :
  In (p, label) quantityTable ->
  firstLabel label text pre (q ++ rest) ->
  Forall (fun c => isQuantityChar c = true) q -> q <> [] ->
  stopsAt quantityChars rest ->
  capture p text = Some q.
Proof.
  intros Hin [(lab & Ht & Hl) Hfirst] Hq Hne Hstop.
  unfold capture. rewrite (quantityTable_compiles _ _ Hin).
  destruct (FindStringSubmatch (quantityProg label) text) as [|x l] eqn:Hf.
  { exfalso.
    apply (FindStringSubmatch_nil _ _ Hf pre (lab ++ CRLF ++ [])
             (q ++ rest) [(1, [])]).
    - rewrite Ht, app_nil_r. now rewrite <- !app_assoc.
    - apply quantity_matches; [exact Hl | constructor]. }
  apply FindStringSubmatch_at in Hf; [|discriminate].
  destruct Hf as (pre0 & s0 & s' & cs & Ht0 & Hb & Hres & Hmin).
  apply quantity_backtrack in Hb.
  destruct Hb as (lab0 & q0 & -> & Hl0 & Hq0 & Hstop0 & ->).
  assert (Hx : l = [q0]).
  { unfold submatches in Hres.
    rewrite quantityProg_classes, NumSubexp_classes in Hres.
    inversion Hres. reflexivity. }
  subst l. clear Hres.
  assert (Hle1 : length pre0 <= length pre).
  { apply (Hmin pre (lab ++ CRLF ++ []) (q ++ rest) [(1, [])]).
    - rewrite Ht, app_nil_r. now rewrite <- !app_assoc.
    - apply quantity_matches; [exact Hl | constructor]. }
  pose proof (Hfirst pre0 lab0 (q0 ++ s') Ht0 Hl0) as Hle2.
  rewrite Ht in Ht0.
  destruct (app_eq_length _ _ _ _ Ht0) as [_ Htail]; [lia|].
  apply app_eq_length in Htail;
    [|rewrite <- (sameFold_length _ _ Hl), <- (sameFold_length _ _ Hl0);
      reflexivity].
  destruct Htail as [_ Htail]. unfold CRLF in Htail. cbn [app] in Htail.
  inversion Htail as [Hqq].
  assert (Heq : q = q0).
  { exact (run_unique quantityChars q q0 rest s' Hq Hq0 Hstop Hstop0 Hqq). }
  subst q0. destruct q; [congruence | reflexivity].
Qed.

(** The first line of the member layout, when it is the line of the
    scenario, gives the member [Jane Doe]. *)
Lemma firstMemberLine_search text :
  firstMemberLine text (B "Member Donation - Screenshot (Jane Doe)") ->
  exists w,
    FindStringSubmatch (MustCompile usernameRegex) text = [w; B "Jane Doe"].
Proof.
  intros (pre & rest & Ht & Hend & Hfirst). rewrite compile_usernameRegex.
  assert (Hhere : forall r,
            Matches usernameProg
              (B "Member Donation" ++ B " - Screenshot " ++ ["("%char]
               ++ B "Jane Doe" ++ [")"%char]) r [(1, B "Jane Doe")]).
  { intros r. apply username_matches; repeat constructor. }
  destruct (FindStringSubmatch usernameProg text) as [|x l] eqn:Hf.
  { exfalso.
    exact (FindStringSubmatch_nil _ _ Hf pre _ rest _ Ht (Hhere rest)). }
  apply FindStringSubmatch_at in Hf; [|discriminate].
  destruct Hf as (pre0 & s0 & s' & cs & Ht0 & Hb & Hres & Hmin).
  pose proof (Hmin pre _ rest _ Ht (Hhere rest)) as Hle1.
  assert (Hle2 : length pre <= length pre0).
  { pose proof Hb as Hb'. apply username_backtrack in Hb'.
    destruct Hb' as (a & o & name & c & Hs0 & Ha & Hn & Ho & Hc & _).
    apply (Hfirst pre0 a o name c s'); auto. now rewrite Ht0, Hs0. }
  rewrite Ht in Ht0.
  destruct (app_eq_length _ _ _ _ Ht0) as [_ Htail]; [lia|].
  subst s0. rewrite Hres. clear Hres Hmin Hle1 Hle2 Ht0 Ht Hfirst.
  destruct Hend as [->|[[r ->]|[r ->]]];
    revert Hb; unfold CR, LF;
    cbn -[Nat.sub length]; settle_lengths; cbn [firstn];
    intros Hb; inversion Hb; subst s' cs; unfold submatches;
    cbn -[Nat.sub length]; settle_lengths; cbn [firstn];
    eexists; reflexivity.
Qed.

(** C2 (as amended).  Take any text in which the first part of the date
    shape is [2021-05-01 12:00:00]; the first part of the member layout is
    [Member Donation - Screenshot (Jane Doe)], up to the end of its line;
    the first place where [Type], in any case, is followed by a carriage
    return and a line feed reads [Type], and is followed by [1,234] and no
    further digit or comma; and the first place where [Member Donation] is
    followed by a carriage return and a line feed, if there is one, is not
    followed by a digit or a comma.  On that text [extractData] returns the
    date, the member [Jane Doe], the quantity [1,234], and no error. *)
Theorem scenario_extracts (text : bytes)
    (Hdate : firstDate text (B "2021-05-01 12:00:00"))
    (Hmember :
       firstMemberLine text (B "Member Donation - Screenshot (Jane Doe)"))
    (Htype : firstBlock "Type" text (B "1,234"))
    (Hzero : noQuantityAt "Member Donation" text) :
  extractData (Body text)
  = mkExtracted (B "2021-05-01 12:00:00") (B "Jane Doe") (B "1,234") None.
Proof.
  rewrite extractData_unfold.
  rewrite (firstDate_search _ _ Hdate).
  destruct (firstMemberLine_search _ Hmember) as [wu Hu]. rewrite Hu.
  unfold quantityPatterns. cbn [firstCapture].
  rewrite (proj2 (capture_none quantityZeroRegex "Member Donation" text
                    ltac:(left; reflexivity)) Hzero).
  destruct Htype as (pre & rest & Ht & Hstop & Hfirst).
  rewrite (firstLabel_capture quantityFirstRegex "Type" text pre
             (B "1,234") rest ltac:(right; left; reflexivity)).
  - reflexivity.
  - split; [|exact Hfirst].
    exists (B "Type"). split; [exact Ht | repeat constructor].
  - repeat constructor.
  - discriminate.
  - exact Hstop.
Qed.

(** The theorem on an export with a page header that holds digits and
    the letter T, other lines between the three parts, and a footer that
    holds the letter m. *)
Lemma scenario_extracts_witness :
  extractData
    (Body (B "Transaction log, page 1" ++ CRLF
           ++ B "2021-05-01 12:00:00" ++ CRLF
           ++ B "Corp wallet" ++ CRLF
           ++ B "Member Donation - Screenshot (Jane Doe)" ++ CRLF
           ++ B "Type" ++ CRLF ++ B "1,234" ++ CRLF
           ++ B "Confirm" ++ CRLF))
  = mkExtracted (B "2021-05-01 12:00:00") (B "Jane Doe") (B "1,234") None.
Proof.
  apply scenario_extracts.
  - exists (B "Transaction log, page 1" ++ CRLF),
      (CRLF ++ B "Corp wallet" ++ CRLF
       ++ B "Member Donation - Screenshot (Jane Doe)" ++ CRLF
       ++ B "Type" ++ CRLF ++ B "1,234" ++ CRLF ++ B "Confirm" ++ CRLF).
    split; [reflexivity|]. split; [repeat constructor|].
    intros p d' r Ht Hs.
    match type of Ht with
    | ?t = _ =>
        assert (Hfs : firstStart dateProg t = Some 25)
          by (vm_compute; reflexivity);
        exact (firstStart_min dateProg t 25 Hfs p d' r [(1, d')] Ht
                 (date_matches d' r Hs))
    end.
  - exists (B "Transaction log, page 1" ++ CRLF
            ++ B "2021-05-01 12:00:00" ++ CRLF ++ B "Corp wallet" ++ CRLF),
      (CRLF ++ B "Type" ++ CRLF ++ B "1,234" ++ CRLF ++ B "Confirm" ++ CRLF).
    split; [reflexivity|].
    split; [right; right; eexists; reflexivity|].
    intros p a o name c r Ht Ha Hn Ho Hc.
    match type of Ht with
    | ?t = _ =>
        assert (Hfs : firstStart usernameProg t = Some 59)
          by (vm_compute; reflexivity);
        apply (firstStart_min usernameProg t 59 Hfs
                 p (B "Member Donation" ++ a ++ [o] ++ name ++ [c]) r
                 [(1, name)])
    end.
    + rewrite Ht. now rewrite <- !app_assoc.
    + now apply username_matches.
  - exists (B "Transaction log, page 1" ++ CRLF
            ++ B "2021-05-01 12:00:00" ++ CRLF ++ B "Corp wallet" ++ CRLF
            ++ B "Member Donation - Screenshot (Jane Doe)" ++ CRLF),
      (CRLF ++ B "Confirm" ++ CRLF).
    split; [reflexivity|]. split; [reflexivity|].
    intros pre' lab' rest' Ht Hl.
    match type of Ht with
    | ?t = _ =>
        assert (Hfs : firstStart (quantityProg "Type") t = Some 100)
          by (vm_compute; reflexivity);
        apply (firstStart_min (quantityProg "Type") t 100 Hfs
                 pre' (lab' ++ CRLF ++ []) rest' [(1, [])])
    end.
    + rewrite Ht, app_nil_r. now rewrite <- !app_assoc.
    + apply quantity_matches; [exact Hl | constructor].
  - apply (proj1 (capture_none quantityZeroRegex "Member Donation" _
                    ltac:(left; reflexivity))).
    vm_compute. reflexivity.
Defined.

End ScenarioAnywhere.

Arguments inClass : simpl never.
